(** * Fluid.cpp (2-better-advection): a shallow embedding and its properties

    The program is a grid-based fluid solver working on C++ [double]s and
    [int]s.  The embedding is written once, over an interface [Double] that
    lists exactly the operations on [double] the source uses.  Two instances
    are given:

    - [float_Double]: IEEE 754 binary64, the kernel's primitive floats, the
      numbers the compiled program computes with;
    - [Qc_Double]: exact rational arithmetic, the numbers the specification
      reasons with.

    Theorems that only depend on the control flow hold for every instance.
    Theorems that depend on arithmetic are stated for instances that satisfy
    the laws of exact ordered arithmetic ([OrderLaws], [ExactLaws]).

    C++ [int] is embedded as [Z]; signed overflow is undefined in the source
    and is outside the model.  A raw buffer [double *] is a [list D] of the
    allocated length; an access outside the buffer (undefined behaviour in
    the source) makes the operation return [None].  The diagnostics the
    pressure solve prints are returned as a [report].  The image buffer of
    [toImage] ([unsigned char *]) is a [list Z] of byte values.  [main]
    returns its exit code together with what it hands to the outside, in
    order: the lines printed and the calls of [lodepng_encode32_file]; its
    [while] loop runs on fuel. *)

From Stdlib Require Import ZArith QArith Qcanon Qround Lia Ring.
From Stdlib Require Import Floats.PrimFloat Floats.FloatOps Floats.SpecFloat.
From Stdlib Require Import Numbers.Cyclic.Int63.Uint63.
From stdpp Require Import base tactics option list strings pretty.

Local Open Scope Z_scope.

(** ** The operations of [double] used by the source *)

Class Double (D : Type) : Type := {
  of_int : Z -> D;          (* conversion int -> double *)
  to_int : D -> Z;          (* the cast (int)x: truncation toward zero *)
  dadd : D -> D -> D;
  dsub : D -> D -> D;
  dmul : D -> D -> D;
  ddiv : D -> D -> D;
  dneg : D -> D;
  dlt : D -> D -> bool;     (* operator< *)
  dfabs : D -> D;           (* fabs *)
  dsqrt : D -> D            (* sqrt *)
}.

Declare Scope double_scope.
Delimit Scope double_scope with D.
Notation "x + y" := (dadd x y) : double_scope.
Notation "x - y" := (dsub x y) : double_scope.
Notation "x * y" := (dmul x y) : double_scope.
Notation "x / y" := (ddiv x y) : double_scope.
Notation "- x" := (dneg x) : double_scope.
Notation "x <? y" := (dlt x y) : double_scope.
(** [n%:D] is the int [n] converted to double; [n %/ d] is the decimal
    literal with value n/d (0.5 is [1%/2], 1.001 is [1001%/1000]): with
    binary64 the quotient of two exactly represented integers is the
    correctly rounded value of the literal. *)
Notation "n %:D" := (of_int n%Z) (at level 1, format "n %:D") : double_scope.
Notation "n %/ d" := (ddiv (of_int n%Z) (of_int d%Z))
  (at level 2, d at level 1, format "n %/ d") : double_scope.

Section DoubleBasics.
Context {D : Type} `{Double D}.
Local Open Scope double_scope.

(** [std::min(a, b)] is [(b < a) ? b : a] and [std::max(a, b)] is
    [(a < b) ? b : a]. *)
Definition dmin (a b : D) : D := if b <? a then b else a.
Definition dmax (a b : D) : D := if a <? b then b else a.

(** The order the specification speaks of: [a <= b] is "not [b < a]". *)
Definition dle (a b : D) : Prop := (b <? a) = false.

(** *** Raw buffers *)

(** [b[i]] as an rvalue. *)
Definition rd (b : list D) (i : Z) : option D :=
  if decide (0 <= i)%Z then b !! Z.to_nat i else None.

(** [b[i] = v]. *)
Definition wr (b : list D) (i : Z) (v : D) : option (list D) :=
  if decide (0 <= i < Z.of_nat (length b))%Z
  then Some (<[Z.to_nat i := v]> b) else None.

(** [new double[n]]: the content is indeterminate, given here by [garbage];
    a negative size makes the allocation fail. *)
Definition new_double (garbage : Z -> D) (n : Z) : option (list D) :=
  if decide (0 <= n)%Z then Some (map garbage (seqZ 0 n)) else None.

(** [memset(b, 0, n*sizeof(double))]: all-zero bytes are the double 0.0. *)
Definition memset0 (b : list D) (n : Z) : option (list D) :=
  if decide (0 <= n <= Z.of_nat (length b))%Z
  then Some (replicate (Z.to_nat n) 0%:D ++ drop (Z.to_nat n) b) else None.

(** [memcpy(dst, src, n*sizeof(double))]. *)
Definition memcpy (dst src : list D) (n : Z) : option (list D) :=
  if decide (0 <= n <= Z.of_nat (length dst) /\ n <= Z.of_nat (length src))%Z
  then Some (take (Z.to_nat n) src ++ drop (Z.to_nat n) dst) else None.

(** *** Counted loops *)

(** [n] iterations of [body], the counter starting at [i]. *)
Fixpoint for_loop {S : Type} (n : nat) (i : Z)
    (body : Z -> S -> option S) (s : S) : option S :=
  match n with
  | O => Some s
  | Datatypes.S n' => s' ← body i s; for_loop n' (i + 1)%Z body s'
  end.

(** [for (int i = lo; i < hi; i++) body]. *)
Definition for_range {S : Type} (lo hi : Z)
    (body : Z -> S -> option S) (s : S) : option S :=
  for_loop (Z.to_nat (hi - lo)) lo body s.
End DoubleBasics.

(** ** The laws of exact arithmetic *)

Section Laws.
Local Open Scope double_scope.

(** The laws of [operator<] on numbers that are totally ordered (binary64
    without NaN, the rationals, the reals): a strict order in which
    incomparable numbers compare alike. *)
Class OrderLaws (D : Type) `{Double D} : Prop := {
  dlt_irrefl : forall a : D, (a <? a) = false;
  dlt_trans : forall a b c : D,
    (a <? b) = true -> (b <? c) = true -> (a <? c) = true;
  dlt_cotrans : forall a b c : D,
    (a <? b) = true -> (a <? c) = true \/ (c <? b) = true
}.

(** The laws of arithmetic without rounding: an ordered field, into which
    [int] embeds, with the cast to [int] truncating toward zero. *)
Class ExactLaws (D : Type) `{Double D} : Prop := {
  exact_order :: OrderLaws D;
  exact_ring : ring_theory 0%:D 1%:D dadd dmul dsub dneg (@eq D);
  dlt_add_r : forall a b c : D, (a + c <? b + c) = (a <? b);
  dlt_mul_pos : forall a b c : D,
    (0%:D <? c) = true -> (a * c <? b * c) = (a <? b);
  div_mul : forall a b : D, b <> 0%:D -> a / b * b = a;
  div_0_l : forall b : D, 0%:D / b = 0%:D;
  of_int_add : forall a b : Z, (a + b)%:D = a%:D + b%:D;
  of_int_mul : forall a b : Z, (a * b)%:D = a%:D * b%:D;
  of_int_lt : forall a b : Z, (a%:D <? b%:D) = (a <? b)%Z;
  to_int_trunc_pos : forall x : D,
    dle 0%:D x -> dle (to_int x)%:D x /\ (x <? (to_int x + 1)%:D) = true;
  to_int_trunc_neg : forall x : D,
    dle x 0%:D -> dle x (to_int x)%:D /\ ((to_int x - 1)%:D <? x) = true
}.

(** Exact arithmetic on a linear order: numbers that compare alike are
    equal, and [fabs] is the absolute value. *)
Class LinearLaws (D : Type) `{Double D} : Prop := {
  linear_exact :: ExactLaws D;
  dlt_antisym : forall a b : D, (a <? b) = false -> (b <? a) = false -> a = b;
  dfabs_spec : forall a : D, dfabs a = if a <? 0%:D then - a else a
}.
End Laws.

(** ** File-level functions *)

Module Fluid.
Section WithDouble.
Context {D : Type} `{Double D}.
Local Open Scope double_scope.

(** Length of vector (x, y). *)
Definition length (x y : D) : D := dsqrt (x*x + y*y).

(** Cubic pulse function. *)
Definition cubicPulse (x : D) : D :=
  let x := dmin (dfabs x) 1%:D in
  1%:D - x*x*(3%:D - 2%:D*x).
End WithDouble.
End Fluid.

(** ** class FluidQuantity *)

Module FluidQuantity.
Section WithDouble.
Context {D : Type} `{Double D}.
Local Open Scope double_scope.

Record t : Type := mk {
  _src : list D;
  _dst : list D;
  _w : Z;
  _h : Z;
  _ox : D;
  _oy : D;
  _hx : D
}.

(** [lerp(a, b, x)], the private three-argument overload. *)
Definition lerp_1d (a b x : D) : D := a*(1%:D - x) + b*x.

(** [cerp(a, b, c, d, x)], the private five-argument overload. *)
Definition cerp_1d (a b c d x : D) : D :=
  let xsq := x*x in
  let xcu := xsq*x in
  let minV := dmin a (dmin b (dmin c d)) in
  let maxV := dmax a (dmax b (dmax c d)) in
  let t :=
    a*(0%:D - 1%/2*x + 1%:D*xsq - 1%/2*xcu) +
    b*(1%:D + 0%:D*x - 5%/2*xsq + 3%/2*xcu) +
    c*(0%:D + 1%/2*x + 2%:D*xsq - 3%/2*xcu) +
    d*(0%:D + 0%:D*x - 1%/2*xsq + 1%/2*xcu) in
  dmin (dmax t minV) maxV.

(** The constructor: [_src] is zeroed, [_dst] is left as allocated. *)
Definition new (garbage : Z -> D) (w h : Z) (ox oy hx : D) : option t :=
  src ← new_double garbage (w*h);
  dst ← new_double garbage (w*h);
  src ← memset0 src (w*h);
  Some (mk src dst w h ox oy hx).

Definition flip (q : t) : t :=
  mk (_dst q) (_src q) (_w q) (_h q) (_ox q) (_oy q) (_hx q).

Definition src (q : t) : list D := _src q.

(** [at(x, y)]: the cell [_src[x + y*_w]]. *)
Definition idx_of (q : t) (x y : Z) : Z := (x + y * _w q)%Z.
Definition at_ (q : t) (x y : Z) : option D := rd (_src q) (idx_of q x y).
Definition set_at (q : t) (x y : Z) (v : D) : option t :=
  s ← wr (_src q) (idx_of q x y) v;
  Some (mk s (_dst q) (_w q) (_h q) (_ox q) (_oy q) (_hx q)).

(** [lerp(x, y)]: linear interpolation on the grid at (x, y). *)
Definition lerp (q : t) (x y : D) : option D :=
  let x := dmin (dmax (x - _ox q) 0%:D) ((_w q)%:D - 1001%/1000) in
  let y := dmin (dmax (y - _oy q) 0%:D) ((_h q)%:D - 1001%/1000) in
  let ix := to_int x in
  let iy := to_int y in
  let x := x - ix%:D in
  let y := y - iy%:D in
  x00 ← at_ q (ix + 0) (iy + 0);
  x10 ← at_ q (ix + 1) (iy + 0);
  x01 ← at_ q (ix + 0) (iy + 1);
  x11 ← at_ q (ix + 1) (iy + 1);
  Some (lerp_1d (lerp_1d x00 x10 x) (lerp_1d x01 x11 x) y).

(** The four samples of row [y] of the cubic stencil. *)
Definition cerp_row (q : t) (x0 x1 x2 x3 y : Z) (x : D) : option D :=
  a ← at_ q x0 y; b ← at_ q x1 y; c ← at_ q x2 y; d ← at_ q x3 y;
  Some (cerp_1d a b c d x).

(** [cerp(x, y)]: cubic interpolation on the grid at (x, y). *)
Definition cerp (q : t) (x y : D) : option D :=
  let x := dmin (dmax (x - _ox q) 0%:D) ((_w q)%:D - 1001%/1000) in
  let y := dmin (dmax (y - _oy q) 0%:D) ((_h q)%:D - 1001%/1000) in
  let ix := to_int x in
  let iy := to_int y in
  let x := x - ix%:D in
  let y := y - iy%:D in
  let x0 := Z.max (ix - 1) 0 in
  let x1 := ix in
  let x2 := (ix + 1)%Z in
  let x3 := Z.min (ix + 2) (_w q - 1) in
  let y0 := Z.max (iy - 1) 0 in
  let y1 := iy in
  let y2 := (iy + 1)%Z in
  let y3 := Z.min (iy + 2) (_h q - 1) in
  q0 ← cerp_row q x0 x1 x2 x3 y0 x;
  q1 ← cerp_row q x0 x1 x2 x3 y1 x;
  q2 ← cerp_row q x0 x1 x2 x3 y2 x;
  q3 ← cerp_row q x0 x1 x2 x3 y3 x;
  Some (cerp_1d q0 q1 q2 q3 y).

(** [rungeKutta3(x, y, timestep, u, v)]: the traced-back position.  [q] is
    the quantity being advected; only its [_hx] is used. *)
Definition rungeKutta3 (q : t) (x y timestep : D) (u v : t) : option (D * D) :=
  lu ← lerp u x y; let firstU := lu / _hx q in
  lv ← lerp v x y; let firstV := lv / _hx q in
  let midX := x - 1%/2*timestep*firstU in
  let midY := y - 1%/2*timestep*firstV in
  lu ← lerp u midX midY; let midU := lu / _hx q in
  lv ← lerp v midX midY; let midV := lv / _hx q in
  let lastX := x - 3%/4*timestep*midU in
  let lastY := y - 3%/4*timestep*midV in
  lastU ← lerp u lastX lastY;
  lastV ← lerp v lastX lastY;
  Some (x - timestep*((2%:D/9%:D)*firstU + (3%:D/9%:D)*midU + (4%:D/9%:D)*lastU),
        y - timestep*((2%:D/9%:D)*firstV + (3%:D/9%:D)*midV + (4%:D/9%:D)*lastV)).

(** The body of the loops of [advect] at grid point (ix, iy); the loop
    state is the running [idx] and the buffer [_dst]. *)
Definition advect_cell (q : t) (timestep : D) (u v : t) (iy ix : Z)
    (st : Z * list D) : option (Z * list D) :=
  let '(idx, dst) := st in
  let x := ix%:D + _ox q in
  let y := iy%:D + _oy q in
  '(x, y) ← rungeKutta3 q x y timestep u v;
  c ← cerp q x y;
  dst ← wr dst idx c;
  Some ((idx + 1)%Z, dst).

(** [advect(timestep, u, v)].  [u] and [v] may be [q] itself: they are
    only read through [_src], which [advect] does not write. *)
Definition advect (q : t) (timestep : D) (u v : t) : option t :=
  '(_, dst) ← for_range 0 (_h q) (fun iy st =>
                for_range 0 (_w q) (advect_cell q timestep u v iy) st)
              (0%Z, _dst q);
  Some (mk (_src q) dst (_w q) (_h q) (_ox q) (_oy q) (_hx q)).

(** The body of the loops of [addInflow] at cell (x, y). *)
Definition addInflow_cell (q : t) (x0 y0 x1 y1 v : D) (y x : Z)
    (s : list D) : option (list D) :=
  let l := Fluid.length
    ((2%:D*(x%:D + 1%/2)*_hx q - (x0 + x1))/(x1 - x0))
    ((2%:D*(y%:D + 1%/2)*_hx q - (y0 + y1))/(y1 - y0)) in
  let vi := Fluid.cubicPulse l * v in
  cur ← rd s (x + y*_w q);
  if dfabs cur <? dfabs vi then wr s (x + y*_w q) vi else Some s.

(** [addInflow(x0, y0, x1, y1, v)]. *)
Definition addInflow (q : t) (x0 y0 x1 y1 v : D) : option t :=
  let ix0 := to_int (x0/_hx q - _ox q) in
  let iy0 := to_int (y0/_hx q - _oy q) in
  let ix1 := to_int (x1/_hx q - _ox q) in
  let iy1 := to_int (y1/_hx q - _oy q) in
  s ← for_range (Z.max iy0 0) (Z.min iy1 (_h q)) (fun y s =>
        for_range (Z.max ix0 0) (Z.min ix1 (_h q))
          (addInflow_cell q x0 y0 x1 y1 v y) s)
      (_src q);
  Some (mk s (_dst q) (_w q) (_h q) (_ox q) (_oy q) (_hx q)).
End WithDouble.
Arguments t D : clear implicits.
End FluidQuantity.

(** ** class FluidSolver *)

Inductive ITER_TYPE : Type := ITER_GAUSS_SEIDEL | ITER_JACOBI.

(** What the pressure solve prints: either "Exiting solver after [iter]
    iterations, maximum change is [maxDelta]" or "Exceeded budget of [limit]
    iterations, maximum change was [maxDelta]" ([maxDelta] is [None] when
    the variable was never assigned). *)
Inductive report (D : Type) : Type :=
| Exiting (iter : Z) (maxDelta : D)
| Exceeded (limit : Z) (maxDelta : option D).
Arguments Exiting {D} iter maxDelta.
Arguments Exceeded {D} limit maxDelta.

Module FluidSolver.
Section WithDouble.
Context {D : Type} `{Double D}.
Local Open Scope double_scope.

Record t : Type := mk {
  _d : FluidQuantity.t D;
  _u : FluidQuantity.t D;
  _v : FluidQuantity.t D;
  _w : Z;
  _h : Z;
  _hx : D;
  _density : D;
  _r : list D;
  _p : list D;
  _p2 : list D;
  iteration_type : ITER_TYPE
}.

Definition set_r (s : t) (r : list D) : t :=
  mk (_d s) (_u s) (_v s) (_w s) (_h s) (_hx s) (_density s) r (_p s) (_p2 s)
     (iteration_type s).
Definition set_p (s : t) (p : list D) : t :=
  mk (_d s) (_u s) (_v s) (_w s) (_h s) (_hx s) (_density s) (_r s) p (_p2 s)
     (iteration_type s).
Definition set_p2 (s : t) (p2 : list D) : t :=
  mk (_d s) (_u s) (_v s) (_w s) (_h s) (_hx s) (_density s) (_r s) (_p s) p2
     (iteration_type s).
Definition set_duv (s : t) (d u v : FluidQuantity.t D) : t :=
  mk d u v (_w s) (_h s) (_hx s) (_density s) (_r s) (_p s) (_p2 s)
     (iteration_type s).

(** The body of the loops of [buildRhs]; the loop state is the running
    [idx] and the buffer [_r]. *)
Definition buildRhs_cell (s : t) (scale : D) (y x : Z)
    (st : Z * list D) : option (Z * list D) :=
  let '(idx, r) := st in
  u1 ← FluidQuantity.at_ (_u s) (x + 1) y;
  u0 ← FluidQuantity.at_ (_u s) x y;
  v1 ← FluidQuantity.at_ (_v s) x (y + 1);
  v0 ← FluidQuantity.at_ (_v s) x y;
  r ← wr r idx (- scale * (u1 - u0 + v1 - v0));
  Some ((idx + 1)%Z, r).

Definition buildRhs (s : t) : option t :=
  let scale := 1%:D / _hx s in
  '(_, r) ← for_range 0 (_h s) (fun y st =>
              for_range 0 (_w s) (buildRhs_cell s scale y) st)
            (0%Z, _r s);
  Some (set_r s r).

(** The new pressure of cell (x, y) computed from the pressures [p]: the
    statements of the loop body shared by [project] and [project_jacobi],
    up to [newP]. *)
Definition newP_cell (s : t) (scale : D) (p : list D) (x y : Z) : option D :=
  let idx := (x + y * _w s)%Z in
  let diag := 0%:D in
  let offDiag := 0%:D in
  '(diag, offDiag) ←
    (if decide (x > 0)%Z
     then pn ← rd p (idx - 1); Some (diag + scale, offDiag - scale * pn)
     else Some (diag, offDiag));
  '(diag, offDiag) ←
    (if decide (y > 0)%Z
     then pn ← rd p (idx - _w s); Some (diag + scale, offDiag - scale * pn)
     else Some (diag, offDiag));
  '(diag, offDiag) ←
    (if decide (x < _w s - 1)%Z
     then pn ← rd p (idx + 1); Some (diag + scale, offDiag - scale * pn)
     else Some (diag, offDiag));
  '(diag, offDiag) ←
    (if decide (y < _h s - 1)%Z
     then pn ← rd p (idx + _w s); Some (diag + scale, offDiag - scale * pn)
     else Some (diag, offDiag));
  ri ← rd (_r s) idx;
  Some ((ri - offDiag) / diag).

(** The loop body of [project]: the pressure is updated in place.  The
    loop state is [maxDelta] and the buffer [_p]. *)
Definition project_cell (s : t) (scale : D) (y x : Z)
    (st : D * list D) : option (D * list D) :=
  let '(maxDelta, p) := st in
  let idx := (x + y * _w s)%Z in
  newP ← newP_cell s scale p x y;
  pi ← rd p idx;
  let maxDelta := dmax maxDelta (dfabs (pi - newP)) in
  p ← wr p idx newP;
  Some (maxDelta, p).

(** The loop body of [project_jacobi]: the new pressure goes to [_p2].
    The loop state is [maxDelta] and the buffer [_p2]. *)
Definition project_jacobi_cell (s : t) (scale : D) (y x : Z)
    (st : D * list D) : option (D * list D) :=
  let '(maxDelta, p2) := st in
  let idx := (x + y * _w s)%Z in
  newP ← newP_cell s scale (_p s) x y;
  pi ← rd (_p s) idx;
  let maxDelta := dmax maxDelta (dfabs (pi - newP)) in
  p2 ← wr p2 idx newP;
  Some (maxDelta, p2).

(** One pass of the [for (iter ...)] body of [project], up to the test of
    [maxDelta]: the state after the sweep, and [maxDelta]. *)
Definition project_sweep (scale : D) (s : t) : option (t * D) :=
  '(maxDelta, p) ← for_range 0 (_h s) (fun y st =>
                     for_range 0 (_w s) (project_cell s scale y) st)
                   (0%:D, _p s);
  Some (set_p s p, maxDelta).

(** The same for [project_jacobi], the [memcpy] included. *)
Definition project_jacobi_sweep (scale : D) (s : t) : option (t * D) :=
  '(maxDelta, p2) ← for_range 0 (_h s) (fun y st =>
                      for_range 0 (_w s) (project_jacobi_cell s scale y) st)
                    (0%:D, _p2 s);
  p ← memcpy (_p s) p2 (_w s * _h s);
  Some (set_p (set_p2 s p2) p, maxDelta).

(** [for (int iter = ...; iter < limit; iter++)] with [fuel] iterations
    left: after each sweep, return when [maxDelta < 1e-5]; when the loop
    runs out, report the budget as exceeded. *)
Fixpoint solver_loop (sweep : t -> option (t * D)) (limit : Z) (fuel : nat)
    (iter : Z) (maxDelta : option D) (s : t) : option (t * report D) :=
  match fuel with
  | O => Some (s, Exceeded limit maxDelta)
  | S fuel' =>
      '(s', maxDelta') ← sweep s;
      if maxDelta' <? 1%/100000
      then Some (s', Exiting iter maxDelta')
      else solver_loop sweep limit fuel' (iter + 1)%Z (Some maxDelta') s'
  end.

Definition project (limit : Z) (timestep : D) (s : t) : option (t * report D) :=
  let scale := timestep / (_density s * _hx s * _hx s) in
  solver_loop (project_sweep scale) limit (Z.to_nat limit) 0 None s.

Definition project_jacobi (limit : Z) (timestep : D) (s : t)
    : option (t * report D) :=
  let scale := timestep / (_density s * _hx s * _hx s) in
  solver_loop (project_jacobi_sweep scale) limit (Z.to_nat limit) 0 None s.

(** [q.at(x, y) -= d] and [q.at(x, y) += d]. *)
Definition at_sub (q : FluidQuantity.t D) (x y : Z) (d : D)
    : option (FluidQuantity.t D) :=
  c ← FluidQuantity.at_ q x y; FluidQuantity.set_at q x y (c - d).
Definition at_add (q : FluidQuantity.t D) (x y : Z) (d : D)
    : option (FluidQuantity.t D) :=
  c ← FluidQuantity.at_ q x y; FluidQuantity.set_at q x y (c + d).

(** The body of the first loops of [applyPressure]; the loop state is the
    running [idx] and the two velocity fields. *)
Definition applyPressure_cell (s : t) (scale : D) (y x : Z)
    (st : Z * (FluidQuantity.t D * FluidQuantity.t D))
    : option (Z * (FluidQuantity.t D * FluidQuantity.t D)) :=
  let '(idx, (u, v)) := st in
  pi ← rd (_p s) idx; u ← at_sub u x y (scale * pi);
  pi ← rd (_p s) idx; u ← at_add u (x + 1) y (scale * pi);
  pi ← rd (_p s) idx; v ← at_sub v x y (scale * pi);
  pi ← rd (_p s) idx; v ← at_add v x (y + 1) (scale * pi);
  Some ((idx + 1)%Z, (u, v)).

(** [_u->at(0, y) = _u->at(_w, y) = 0.0]. *)
Definition zero_u_faces (s : t) (y : Z) (u : FluidQuantity.t D)
    : option (FluidQuantity.t D) :=
  u ← FluidQuantity.set_at u (_w s) y 0%:D; FluidQuantity.set_at u 0 y 0%:D.

(** [_v->at(x, 0) = _v->at(x, _h) = 0.0]. *)
Definition zero_v_faces (s : t) (x : Z) (v : FluidQuantity.t D)
    : option (FluidQuantity.t D) :=
  v ← FluidQuantity.set_at v x (_h s) 0%:D; FluidQuantity.set_at v x 0 0%:D.

Definition applyPressure (timestep : D) (s : t) : option t :=
  let scale := timestep / (_density s * _hx s) in
  '(_, (u, v)) ← for_range 0 (_h s) (fun y st =>
                   for_range 0 (_w s) (applyPressure_cell s scale y) st)
                 (0%Z, (_u s, _v s));
  u ← for_range 0 (_h s) (zero_u_faces s) u;
  v ← for_range 0 (_w s) (zero_v_faces s) v;
  Some (set_duv s (_d s) u v).

(** The constructor. *)
Definition new (garbage : Z -> D) (w h : Z) (density : D) : option t :=
  let hx := 1%:D / (Z.min w h)%:D in
  let iteration_type := ITER_JACOBI in
  d ← FluidQuantity.new garbage w h 1%/2 1%/2 hx;
  u ← FluidQuantity.new garbage (w + 1) h 0%:D 1%/2 hx;
  v ← FluidQuantity.new garbage w (h + 1) 1%/2 0%:D hx;
  r ← new_double garbage (w*h);
  p ← new_double garbage (w*h);
  p ← memset0 p (w*h);
  p2 ← match iteration_type with
       | ITER_JACOBI => p2 ← new_double garbage (w*h); memset0 p2 (w*h)
       | ITER_GAUSS_SEIDEL => Some []
       end;
  Some (mk d u v w h hx density r p p2 iteration_type).

(** The pressure solve as [update] selects it. *)
Definition solve (timestep : D) (s : t) : option (t * report D) :=
  match iteration_type s with
  | ITER_JACOBI => project_jacobi 600 timestep s
  | ITER_GAUSS_SEIDEL => project 600 timestep s
  end.

(** The three [advect] calls of [update]: each reads the [_u] and [_v] of
    the solver as they are when it is called. *)
Definition advect_all (timestep : D) (s : t) : option t :=
  d ← FluidQuantity.advect (_d s) timestep (_u s) (_v s);
  u ← FluidQuantity.advect (_u s) timestep (_u s) (_v s);
  v ← FluidQuantity.advect (_v s) timestep u (_v s);
  Some (set_duv s d u v).

Definition flip_all (s : t) : t :=
  set_duv s (FluidQuantity.flip (_d s)) (FluidQuantity.flip (_u s))
            (FluidQuantity.flip (_v s)).

(** [update(timestep)]: the new state and what the solve printed. *)
Definition update (timestep : D) (s : t) : option (t * report D) :=
  s ← buildRhs s;
  '(s, rep) ← solve timestep s;
  s ← applyPressure timestep s;
  s ← advect_all timestep s;
  Some (flip_all s, rep).

(** [addInflow(x, y, w, h, d, u, v)]. *)
Definition addInflow (s : t) (x y w h d u v : D) : option t :=
  qd ← FluidQuantity.addInflow (_d s) x y (x + w) (y + h) d;
  qu ← FluidQuantity.addInflow (_u s) x y (x + w) (y + h) u;
  qv ← FluidQuantity.addInflow (_v s) x y (x + w) (y + h) v;
  Some (set_duv s qd qu qv).

(** The conversion of an [int] to [unsigned char]. *)
Definition to_uchar (z : Z) : Z := (z mod 256)%Z.

(** The grey level [toImage] computes for a cell of density [d]: the two
    assignments to [shade]. *)
Definition toImage_shade (d : D) : Z :=
  let shade := to_int ((1%:D - d) * 255%:D) in
  Z.max (Z.min shade 255) 0.

(** The body of the loop of [toImage] for cell [i]. *)
Definition toImage_cell (s : t) (i : Z) (rgba : list Z) : option (list Z) :=
  d ← rd (FluidQuantity.src (_d s)) i;
  let shade := toImage_shade d in
  rgba ← wr rgba (i*4 + 0) (to_uchar shade);
  rgba ← wr rgba (i*4 + 1) (to_uchar shade);
  rgba ← wr rgba (i*4 + 2) (to_uchar shade);
  wr rgba (i*4 + 3) (to_uchar 255).

(** [toImage(rgba)]. *)
Definition toImage (s : t) (rgba : list Z) : option (list Z) :=
  for_range 0 (_w s * _h s) (toImage_cell s) rgba.
End WithDouble.
Arguments t D : clear implicits.
End FluidSolver.

(** ** main *)

(** What the program hands to the outside: the lines the pressure solve
    prints on standard output, and the image files [lodepng_encode32_file]
    is called to write. *)
Inductive output (D : Type) : Type :=
| printed (line : report D)
| encoded (path : string) (image : list Z) (w h : Z).
Arguments printed {D} line.
Arguments encoded {D} path image w h.

(** [new unsigned char[n]]: indeterminate bytes. *)
Definition new_uchar (garbage : Z -> Z) (n : Z) : option (list Z) :=
  if decide (0 <= n)%Z
  then Some (map (fun i => FluidSolver.to_uchar (garbage i)) (seqZ 0 n))
  else None.

Fixpoint zeros (n : nat) : string :=
  match n with O => "" | S n' => "0" +:+ zeros n' end.

(** [sprintf(path, "Frame%05d.png", iterations)]: the number in decimal,
    padded with zeros to five characters, sign included. *)
Definition frame_path (iterations : Z) : string :=
  let digits := pretty (Z.abs iterations) in
  let sign := if decide (iterations < 0)%Z then "-" else "" in
  "Frame" +:+ sign
    +:+ zeros (5 - String.length sign - String.length digits)
    +:+ digits +:+ ".png".

Section Main.
Context {D : Type} `{Double D}.
Local Open Scope double_scope.

(** The body of the [for] loop of [main]: one inflow, one step, the clock
    advanced; [fflush] changes nothing that is modelled. *)
Definition main_substep (timestep : D) (i : Z)
    (st : FluidSolver.t D * D * list (output D))
    : option (FluidSolver.t D * D * list (output D)) :=
  let '(solver, time, out) := st in
  solver ← FluidSolver.addInflow solver 45%/100 2%/10 15%/100 3%/100 1%:D 0%:D 3%:D;
  '(solver, line) ← FluidSolver.update timestep solver;
  Some (solver, time + timestep, out ++ [printed line]).

(** [while (time < 8.0) { ... }]: at most [fuel] passes; running out of
    fuel gives no result. *)
Fixpoint main_while (fuel : nat) (sizeX sizeY : Z) (timestep : D)
    (solver : FluidSolver.t D) (time : D) (iterations : Z) (image : list Z)
    (out : list (output D)) : option (list (output D)) :=
  match fuel with
  | O => None
  | S fuel' =>
      if time <? 8%:D then
        '(solver, time, out) ← for_range 0 4 (main_substep timestep) (solver, time, out);
        image ← FluidSolver.toImage solver image;
        let path := frame_path iterations in
        main_while fuel' sizeX sizeY timestep solver time (iterations + 1)%Z image
          (out ++ [encoded path image sizeX sizeY])
      else Some out
  end.

(** [main]: the exit code and everything handed to the outside. *)
Definition main (garbage : Z -> D) (garbage_image : Z -> Z) (fuel : nat)
    : option (Z * list (output D)) :=
  let sizeX := 128%Z in
  let sizeY := 128%Z in
  let density := 1%/10 in
  let timestep := 5%/1000 in
  image ← new_uchar garbage_image (sizeX*sizeY*4);
  solver ← FluidSolver.new garbage sizeX sizeY density;
  let time := 0%:D in
  let iterations := 0%Z in
  out ← main_while fuel sizeX sizeY timestep solver time iterations image [];
  Some (0%Z, out).
End Main.

(** ** The two number systems *)

(** *** IEEE 754 binary64 *)

(** Exact for every [int] (|z| < 2^53). *)
Definition float_of_int (z : Z) : float :=
  match z with
  | Z0 => PrimFloat.zero
  | Zpos _ => PrimFloat.of_uint63 (Uint63.of_Z z)
  | Zneg p => PrimFloat.opp (PrimFloat.of_uint63 (Uint63.of_Z (Zpos p)))
  end.

(** Truncation toward zero of a finite value (the cast is undefined in the
    source for NaN and infinities; 0 here). *)
Definition float_to_int (f : float) : Z :=
  match Prim2SF f with
  | S754_finite s m e =>
      let a := if (0 <=? e)%Z then (Zpos m * 2 ^ e)%Z
               else (Zpos m / 2 ^ (- e))%Z in
      if s then (- a)%Z else a
  | _ => 0%Z
  end.

#[export] Instance float_Double : Double float := {|
  of_int := float_of_int;
  to_int := float_to_int;
  dadd := PrimFloat.add;
  dsub := PrimFloat.sub;
  dmul := PrimFloat.mul;
  ddiv := PrimFloat.div;
  dneg := PrimFloat.opp;
  dlt := PrimFloat.ltb;
  dfabs := PrimFloat.abs;
  dsqrt := PrimFloat.sqrt
|}.

(** *** Exact rationals *)

Definition Qc_of_int (z : Z) : Qc := Q2Qc (inject_Z z).

Definition Qc_to_int (q : Qc) : Z := Z.quot (Qnum q) (Zpos (Qden q)).

Definition Qc_ltb (a b : Qc) : bool :=
  match (a ?= b)%Qc with Lt => true | _ => false end.

Definition Qc_fabs (a : Qc) : Qc := if Qc_ltb a (Qc_of_int 0) then (- a)%Qc else a.

(** The rationals have no square root: the root is taken to six decimal
    places.  No theorem below depends on the value of [dsqrt]. *)
Definition Qc_sqrt (a : Qc) : Qc :=
  Q2Qc (Z.sqrt (Qnum a * Zpos (Qden a) * 10 ^ 12) # (Qden a * 10 ^ 6)).

(** Division by zero yields 0 in [Qc]. *)
#[export] Instance Qc_Double : Double Qc := {|
  of_int := Qc_of_int;
  to_int := Qc_to_int;
  dadd := Qcplus;
  dsub := Qcminus;
  dmul := Qcmult;
  ddiv := Qcdiv;
  dneg := Qcopp;
  dlt := Qc_ltb;
  dfabs := Qc_fabs;
  dsqrt := Qc_sqrt
|}.

(** Rationals as plain fractions, for stating computed values. *)
Definition fracs (l : list Qc) : list Q := map this l.

(** ** Definitions used to state the properties *)

Section SpecDefinitions.
Context {D : Type} `{Double D}.
Local Open Scope double_scope.

(** The backward trace as the specification describes it: each of the three
    sampled velocities is divided by the cell size. *)
Definition rungeKutta3_spec (q : FluidQuantity.t D) (x y timestep : D)
    (u v : FluidQuantity.t D) : option (D * D) :=
  lu ← FluidQuantity.lerp u x y;
  lv ← FluidQuantity.lerp v x y;
  let firstU := lu / FluidQuantity._hx q in
  let firstV := lv / FluidQuantity._hx q in
  let midX := x - 1%/2*timestep*firstU in
  let midY := y - 1%/2*timestep*firstV in
  lu ← FluidQuantity.lerp u midX midY;
  lv ← FluidQuantity.lerp v midX midY;
  let midU := lu / FluidQuantity._hx q in
  let midV := lv / FluidQuantity._hx q in
  let lastX := x - 3%/4*timestep*midU in
  let lastY := y - 3%/4*timestep*midV in
  lu ← FluidQuantity.lerp u lastX lastY;
  lv ← FluidQuantity.lerp v lastX lastY;
  let lastU := lu / FluidQuantity._hx q in
  let lastV := lv / FluidQuantity._hx q in
  Some (x - timestep*((2%:D/9%:D)*firstU + (3%:D/9%:D)*midU + (4%:D/9%:D)*lastU),
        y - timestep*((2%:D/9%:D)*firstV + (3%:D/9%:D)*midV + (4%:D/9%:D)*lastV)).

(** [addInflow] as the specification describes it: the cells visited are
    those of the rectangle clamped to the grid, columns 0 .. width-1 and
    rows 0 .. height-1. *)
Definition addInflow_spec (q : FluidQuantity.t D) (x0 y0 x1 y1 v : D)
    : option (FluidQuantity.t D) :=
  let ix0 := to_int (x0/FluidQuantity._hx q - FluidQuantity._ox q) in
  let iy0 := to_int (y0/FluidQuantity._hx q - FluidQuantity._oy q) in
  let ix1 := to_int (x1/FluidQuantity._hx q - FluidQuantity._ox q) in
  let iy1 := to_int (y1/FluidQuantity._hx q - FluidQuantity._oy q) in
  s ← for_range (Z.max iy0 0) (Z.min iy1 (FluidQuantity._h q)) (fun y s =>
        for_range (Z.max ix0 0) (Z.min ix1 (FluidQuantity._w q))
          (FluidQuantity.addInflow_cell q x0 y0 x1 y1 v y) s)
      (FluidQuantity._src q);
  Some (FluidQuantity.mk s (FluidQuantity._dst q) (FluidQuantity._w q)
          (FluidQuantity._h q) (FluidQuantity._ox q) (FluidQuantity._oy q)
          (FluidQuantity._hx q)).

(** A field whose buffers have the size its dimensions announce. *)
Definition wf_quantity (q : FluidQuantity.t D) : Prop :=
  (0 <= FluidQuantity._w q)%Z /\ (0 <= FluidQuantity._h q)%Z /\
  Z.of_nat (length (FluidQuantity._src q)) = (FluidQuantity._w q * FluidQuantity._h q)%Z /\
  Z.of_nat (length (FluidQuantity._dst q)) = (FluidQuantity._w q * FluidQuantity._h q)%Z.

(** A solver laid out as the constructor lays it out. *)
Definition wf_solver (s : FluidSolver.t D) : Prop :=
  wf_quantity (FluidSolver._d s) /\ wf_quantity (FluidSolver._u s) /\
  wf_quantity (FluidSolver._v s) /\
  FluidQuantity._w (FluidSolver._d s) = FluidSolver._w s /\
  FluidQuantity._h (FluidSolver._d s) = FluidSolver._h s /\
  FluidQuantity._w (FluidSolver._u s) = (FluidSolver._w s + 1)%Z /\
  FluidQuantity._h (FluidSolver._u s) = FluidSolver._h s /\
  FluidQuantity._w (FluidSolver._v s) = FluidSolver._w s /\
  FluidQuantity._h (FluidSolver._v s) = (FluidSolver._h s + 1)%Z /\
  Z.of_nat (length (FluidSolver._r s)) = (FluidSolver._w s * FluidSolver._h s)%Z /\
  Z.of_nat (length (FluidSolver._p s)) = (FluidSolver._w s * FluidSolver._h s)%Z /\
  Z.of_nat (length (FluidSolver._p2 s)) = (FluidSolver._w s * FluidSolver._h s)%Z.

(** The sweep [update] iterates, by iteration type. *)
Definition sweep_of (timestep : D) (s : FluidSolver.t D)
    : FluidSolver.t D -> option (FluidSolver.t D * D) :=
  let scale := timestep / (FluidSolver._density s * FluidSolver._hx s * FluidSolver._hx s) in
  match FluidSolver.iteration_type s with
  | ITER_JACOBI => FluidSolver.project_jacobi_sweep scale
  | ITER_GAUSS_SEIDEL => FluidSolver.project_sweep scale
  end.

(** [n] sweeps in a row: the state they lead to and, sweep by sweep, the
    maximum change each one measured. *)
Fixpoint run_sweeps (sweep : FluidSolver.t D -> option (FluidSolver.t D * D))
    (n : nat) (s : FluidSolver.t D) : option (FluidSolver.t D * list D) :=
  match n with
  | O => Some (s, [])
  | S n' =>
      '(s1, delta) ← sweep s;
      '(s2, deltas) ← run_sweeps sweep n' s1;
      Some (s2, delta :: deltas)
  end.

(** The convergence test of the solve: [maxDelta < 1e-5]. *)
Definition converged (delta : D) : bool := delta <? 1%/100000.

(** Every domain-boundary face of both velocity fields holds 0.0. *)
Definition boundary_faces_zero (s : FluidSolver.t D) : Prop :=
  (forall y, (0 <= y < FluidSolver._h s)%Z ->
     FluidQuantity.at_ (FluidSolver._u s) 0 y = Some 0%:D /\
     FluidQuantity.at_ (FluidSolver._u s) (FluidSolver._w s) y = Some 0%:D) /\
  (forall x, (0 <= x < FluidSolver._w s)%Z ->
     FluidQuantity.at_ (FluidSolver._v s) x 0 = Some 0%:D /\
     FluidQuantity.at_ (FluidSolver._v s) x (FluidSolver._h s) = Some 0%:D).

(** The solver the constructor builds, when all six allocations succeed. *)
Definition constructed (garbage : Z -> D) (w h : Z) (density : D)
    : FluidSolver.t D :=
  let hx := 1%:D / (Z.min w h)%:D in
  FluidSolver.mk
    (FluidQuantity.mk (replicate (Z.to_nat (w*h)) 0%:D)
       (map garbage (seqZ 0 (w*h))) w h 1%/2 1%/2 hx)
    (FluidQuantity.mk (replicate (Z.to_nat ((w+1)*h)) 0%:D)
       (map garbage (seqZ 0 ((w+1)*h))) (w+1) h 0%:D 1%/2 hx)
    (FluidQuantity.mk (replicate (Z.to_nat (w*(h+1))) 0%:D)
       (map garbage (seqZ 0 (w*(h+1)))) w (h+1) 1%/2 0%:D hx)
    w h hx density
    (map garbage (seqZ 0 (w*h)))
    (replicate (Z.to_nat (w*h)) 0%:D)
    (replicate (Z.to_nat (w*h)) 0%:D)
    ITER_JACOBI.

(** The buffers the solve works on have the size of the grid. *)
Definition wf_pressure (w h : Z) (s : FluidSolver.t D) : Prop :=
  FluidSolver._w s = w /\ FluidSolver._h s = h /\ (0 <= w)%Z /\ (0 <= h)%Z /\
  Z.of_nat (length (FluidSolver._r s)) = (w * h)%Z /\
  Z.of_nat (length (FluidSolver._p s)) = (w * h)%Z /\
  Z.of_nat (length (FluidSolver._p2 s)) = (w * h)%Z.

(** A field that can be sampled: buffers of the announced size, and at
    least two columns and two rows (the 2x2 stencil of the clamp). *)
Definition samplable (q : FluidQuantity.t D) : Prop :=
  wf_quantity q /\ (2 <= FluidQuantity._w q)%Z /\ (2 <= FluidQuantity._h q)%Z.

(** Cell by cell, [s'] holds what [s] holds or something of strictly
    larger magnitude. *)
Definition never_lowered (s s' : list D) : Prop :=
  length s' = length s /\
  forall i old, rd s i = Some old ->
    exists new, rd s' i = Some new /\
      (new = old \/ (dfabs old <? dfabs new) = true).

(** Column 0 of the field holds 0.0; row 0 of the field holds 0.0. *)
Definition zero_column (q : FluidQuantity.t D) : Prop :=
  forall j, (0 <= j < FluidQuantity._h q)%Z -> FluidQuantity.at_ q 0 j = Some 0%:D.

Definition zero_row (q : FluidQuantity.t D) : Prop :=
  forall i, (0 <= i < FluidQuantity._w q)%Z -> FluidQuantity.at_ q i 0 = Some 0%:D.

(** [q'] is [q] with other values in [_src]. *)
Definition same_shape (q q' : FluidQuantity.t D) : Prop :=
  FluidQuantity._w q' = FluidQuantity._w q /\
  FluidQuantity._h q' = FluidQuantity._h q /\
  length (FluidQuantity._src q') = length (FluidQuantity._src q) /\
  length (FluidQuantity._dst q') = length (FluidQuantity._dst q).

(** The part of the solver the pressure solve leaves alone. *)
Definition solver_fields (s : FluidSolver.t D) :=
  (FluidSolver._d s, FluidSolver._u s, FluidSolver._v s,
   FluidSolver._w s, FluidSolver._h s).

(** [q'] is [q] with other values in the cells of [_src]. *)
Definition src_updated (q q' : FluidQuantity.t D) : Prop :=
  q' = FluidQuantity.mk (FluidQuantity._src q') (FluidQuantity._dst q)
         (FluidQuantity._w q) (FluidQuantity._h q) (FluidQuantity._ox q)
         (FluidQuantity._oy q) (FluidQuantity._hx q) /\
  length (FluidQuantity._src q') = length (FluidQuantity._src q).

(** The value of the face (a, b) of [_u] when the first loops of
    [applyPressure] have visited the cells of linear index below [idx]: the
    cell to the left of the face has added its pressure, the cell to the
    right has then subtracted its own. *)
Definition u_face_stage (s : FluidSolver.t D) (scale : D) (idx a b : Z) : D :=
  let w := FluidSolver._w s in
  let u0 := default 0%:D (FluidQuantity.at_ (FluidSolver._u s) a b) in
  let p := fun i => default 0%:D (rd (FluidSolver._p s) i) in
  let u1 := if decide (0 < a /\ a - 1 + b * w < idx)%Z
            then u0 + scale * p (a - 1 + b * w)%Z else u0 in
  if decide (a < w /\ a + b * w < idx)%Z
  then u1 - scale * p (a + b * w)%Z else u1.

(** The same for the face (a, b) of [_v], between the cell below and the
    cell above. *)
Definition v_face_stage (s : FluidSolver.t D) (scale : D) (idx a b : Z) : D :=
  let w := FluidSolver._w s in
  let v0 := default 0%:D (FluidQuantity.at_ (FluidSolver._v s) a b) in
  let p := fun i => default 0%:D (rd (FluidSolver._p s) i) in
  let v1 := if decide (0 < b /\ a + (b - 1) * w < idx)%Z
            then v0 + scale * p (a + (b - 1) * w)%Z else v0 in
  if decide (b < FluidSolver._h s /\ a + b * w < idx)%Z
  then v1 - scale * p (a + b * w)%Z else v1.

(** The parameters of a solver, which no member function assigns. *)
Definition solver_params (s : FluidSolver.t D) :=
  (FluidSolver._w s, FluidSolver._h s, FluidSolver._hx s, FluidSolver._density s,
   FluidSolver.iteration_type s).

(** Every cell of the buffer holds [c]. *)
Definition uniform (c : D) (b : list D) : Prop := Forall (fun x => x = c) b.

(** A fluid at rest: no velocity, no pressure, the same density [c]
    everywhere. *)
Definition at_rest (c : D) (s : FluidSolver.t D) : Prop :=
  uniform c (FluidQuantity._src (FluidSolver._d s)) /\
  uniform 0%:D (FluidQuantity._src (FluidSolver._u s)) /\
  uniform 0%:D (FluidQuantity._src (FluidSolver._v s)) /\
  uniform 0%:D (FluidSolver._p s).

(** The pressures cell [i] of a Gauss-Seidel sweep sees: the new ones
    [p'] in the cells before it, the old ones [p] from [i] on. *)
Definition seen_by (i : Z) (p' p : list D) : list D :=
  take (Z.to_nat i) p' ++ drop (Z.to_nat i) p.

(** The value [addInflow] offers to cell (x, y): [vi] in the source. *)
Definition inflow_value (q : FluidQuantity.t D) (x0 y0 x1 y1 v : D) (x y : Z) : D :=
  Fluid.cubicPulse (Fluid.length
    ((2%:D*(x%:D + 1%/2)*FluidQuantity._hx q - (x0 + x1))/(x1 - x0))
    ((2%:D*(y%:D + 1%/2)*FluidQuantity._hx q - (y0 + y1))/(y1 - y0))) * v.

(** The cells the loops of [addInflow] visit. *)
Definition inflow_visits (q : FluidQuantity.t D) (x0 y0 x1 y1 : D) (x y : Z) : Prop :=
  let ix0 := to_int (x0/FluidQuantity._hx q - FluidQuantity._ox q) in
  let iy0 := to_int (y0/FluidQuantity._hx q - FluidQuantity._oy q) in
  let ix1 := to_int (x1/FluidQuantity._hx q - FluidQuantity._ox q) in
  let iy1 := to_int (y1/FluidQuantity._hx q - FluidQuantity._oy q) in
  (Z.max ix0 0 <= x < Z.min ix1 (FluidQuantity._h q))%Z /\
  (Z.max iy0 0 <= y < Z.min iy1 (FluidQuantity._h q))%Z.

(** The pressure of every cell is what a sweep would compute for it: the
    pressure solves the discrete equation exactly. *)
Definition pressure_solved (scale : D) (s : FluidSolver.t D) : Prop :=
  forall x y, (0 <= x < FluidSolver._w s)%Z -> (0 <= y < FluidSolver._h s)%Z ->
    exists pc, rd (FluidSolver._p s) (x + y * FluidSolver._w s) = Some pc /\
      FluidSolver.newP_cell s scale (FluidSolver._p s) x y = Some pc.

(** The discrete divergence of every cell is 0. *)
Definition divergence_free (s : FluidSolver.t D) : Prop :=
  forall x y, (0 <= x < FluidSolver._w s)%Z -> (0 <= y < FluidSolver._h s)%Z ->
    exists u1 u0 v1 v0,
      FluidQuantity.at_ (FluidSolver._u s) (x + 1) y = Some u1 /\
      FluidQuantity.at_ (FluidSolver._u s) x y = Some u0 /\
      FluidQuantity.at_ (FluidSolver._v s) x (y + 1) = Some v1 /\
      FluidQuantity.at_ (FluidSolver._v s) x y = Some v0 /\
      u1 - u0 + v1 - v0 = 0%:D.
(** The discrete Laplacian of the pressure at cell (x, y), over the
    neighbours the cell has. *)
Definition pressure_laplacian (s : FluidSolver.t D) (x y : Z) : D :=
  let p := fun i => default 0%:D (rd (FluidSolver._p s) i) in
  let i := (x + y * FluidSolver._w s)%Z in
  (if decide (x > 0)%Z then p i - p (i - 1)%Z else 0%:D) +
  (if decide (y > 0)%Z then p i - p (i - FluidSolver._w s)%Z else 0%:D) +
  (if decide (x < FluidSolver._w s - 1)%Z then p i - p (i + 1)%Z else 0%:D) +
  (if decide (y < FluidSolver._h s - 1)%Z then p i - p (i + FluidSolver._w s)%Z else 0%:D).

(** The offsets and the cell size of a field. *)
Definition geometry (q : FluidQuantity.t D) : D * D * D :=
  (FluidQuantity._ox q, FluidQuantity._oy q, FluidQuantity._hx q).

Definition solver_geometry (s : FluidSolver.t D) :=
  (geometry (FluidSolver._d s), geometry (FluidSolver._u s),
   geometry (FluidSolver._v s)).

(** The value of [time] in [main] after [k] passes of the [while] loop:
    4k additions of the time step to 0.0. *)
Fixpoint main_clock (timestep : D) (k : nat) : D :=
  match k with
  | O => 0%:D
  | S k' => main_clock timestep k' + timestep + timestep + timestep + timestep
  end.

(** The files among the outputs, and the lines. *)
Definition encoded_files (out : list (output D)) : list (string * list Z * Z * Z) :=
  omap (fun o => match o with
                 | encoded path image w h => Some (path, image, w, h)
                 | printed _ => None
                 end) out.

Definition printed_lines (out : list (output D)) : list (report D) :=
  omap (fun o => match o with printed line => Some line | _ => None end) out.

(** A frame of a [w] x [h] grid: the dimensions announced, 4 bytes a
    cell, every pixel an opaque grey (g, g, g, 255) with g a byte. *)
Definition frame_ok (w h : Z) (f : string * list Z * Z * Z) : Prop :=
  let '(_, image, fw, fh) := f in
  fw = w /\ fh = h /\ Z.of_nat (length image) = (4 * (w * h))%Z /\
  forall i, (0 <= i < w * h)%Z ->
    exists g, (0 <= g <= 255)%Z /\
      rd image (i * 4) = Some g /\ rd image (i * 4 + 1) = Some g /\
      rd image (i * 4 + 2) = Some g /\ rd image (i * 4 + 3) = Some 255%Z.

(** [s] is laid out as [s0]: well-formed, with the parameters of [s0] and
    the geometry of its fields. *)
Definition same_layout (s0 s : FluidSolver.t D) : Prop :=
  wf_solver s /\ solver_params s = solver_params s0 /\
  solver_geometry s = solver_geometry s0.

(** The paths of the files written. *)
Definition encoded_paths (out : list (output D)) : list string :=
  (fun f : string * list Z * Z * Z => f.1.1.1) <$> encoded_files out.
End SpecDefinitions.

(** Concrete fields and solvers used in examples. *)

(** A field with every cell of [_src] holding [c]. *)
Definition const_quantity {D : Type} `{Double D} (w h : Z) (ox oy hx c : D)
    : FluidQuantity.t D :=
  FluidQuantity.mk (replicate (Z.to_nat (w*h)) c) (replicate (Z.to_nat (w*h)) c)
    w h ox oy hx.

Definition Qc_pair (o : option (Qc * Qc)) : option (Q * Q) :=
  p ← o; Some (this p.1, this p.2).

Section Examples.
Local Open Scope double_scope.

(** The fields of a 2x2 solver (cell size 1/2) with x-velocity 1 everywhere
    and y-velocity 0, in exact arithmetic. *)
Definition rk_u : FluidQuantity.t Qc := const_quantity 3 2 0%:D 1%/2 1%/2 1%:D.
Definition rk_v : FluidQuantity.t Qc := const_quantity 2 3 1%/2 0%:D 1%/2 0%:D.
Definition rk_d : FluidQuantity.t Qc := const_quantity 2 2 1%/2 1%/2 1%/2 0%:D.

(** The y-velocity field of a 2x2 solver: 2 columns, 3 rows, all zero. *)
Definition inflow_v : FluidQuantity.t float :=
  const_quantity 2 3 1%/2 0%:D 1%/2 0%:D.

(** The density field of a 4x4 solver, every cell 1/2, in exact
    arithmetic. *)
Definition inflow_d : FluidQuantity.t Qc :=
  const_quantity 4 4 1%/2 1%/2 1%/4 1%/2.

Definition inflow_d' : FluidQuantity.t Qc := Eval vm_compute in
  default inflow_d (FluidQuantity.addInflow inflow_d 0%:D 0%:D 1%:D 1%:D 1%:D).

(** The density field of a 2x2 solver holding 1, 2 in row 0 and 3, 4 in
    row 1, in exact arithmetic and in binary64. *)
Definition sample_grid {D : Type} `{Double D} : FluidQuantity.t D :=
  FluidQuantity.mk [1%:D; 2%:D; 3%:D; 4%:D] [0%:D; 0%:D; 0%:D; 0%:D]
    2 2 1%/2 1%/2 1%/2.

(** A 2x2 solver of density 1 after one [addInflow] over the whole domain
    with density 1 and velocity (1, 1), in binary64; and what one [update]
    with timestep 1/100 makes of it. *)
Definition inflow_state : FluidSolver.t float := Eval vm_compute in
  default (constructed (fun _ => 0%:D) 2 2 1%:D)
    (s ← FluidSolver.new (D:=float) (fun _ => 0%:D) 2 2 1%:D;
     FluidSolver.addInflow s 0%:D 0%:D 1%:D 1%:D 1%:D 1%:D 1%:D).

Definition inflow_state_next : FluidSolver.t float * report float :=
  Eval vm_compute in
  default (inflow_state, Exceeded 0 None) (FluidSolver.update 1%/100 inflow_state).

(** A second step after the one of [inflow_state_next]. *)
Definition inflow_state_next2 : FluidSolver.t float * report float :=
  Eval vm_compute in
  default inflow_state_next (FluidSolver.update 1%/100 inflow_state_next.1).

(** A 2x2 solver in exact arithmetic whose velocity circulates around the
    centre of the domain: the divergence of every cell is 0 and the
    boundary faces are 0. *)
Definition vortex : FluidSolver.t Qc :=
  FluidSolver.mk
    (FluidQuantity.mk [1%:D; 2%:D; 3%:D; 4%:D] [0%:D; 0%:D; 0%:D; 0%:D]
       2 2 1%/2 1%/2 1%/2)
    (FluidQuantity.mk [0%:D; 1%:D; 0%:D; 0%:D; - 1%:D; 0%:D]
       [0%:D; 0%:D; 0%:D; 0%:D; 0%:D; 0%:D] 3 2 0%:D 1%/2 1%/2)
    (FluidQuantity.mk [0%:D; 0%:D; - 1%:D; 1%:D; 0%:D; 0%:D]
       [0%:D; 0%:D; 0%:D; 0%:D; 0%:D; 0%:D] 2 3 1%/2 0%:D 1%/2)
    2 2 1%/2 1%:D [0%:D; 0%:D; 0%:D; 0%:D] [0%:D; 0%:D; 0%:D; 0%:D]
    [0%:D; 0%:D; 0%:D; 0%:D] ITER_JACOBI.

Definition vortex_next : FluidSolver.t Qc * report Qc := Eval vm_compute in
  default (vortex, Exceeded 0 None) (FluidSolver.update 1%/10 vortex).

(** A 2x2 solver in exact arithmetic at rest: density 1/2 in every cell, no
    velocity, no pressure; [_r] holds what the allocation left. *)
Definition still_water : FluidSolver.t Qc :=
  FluidSolver.mk
    (const_quantity 2 2 1%/2 1%/2 1%/2 1%/2)
    (const_quantity 3 2 0%:D 1%/2 1%/2 0%:D)
    (const_quantity 2 3 1%/2 0%:D 1%/2 0%:D)
    2 2 1%/2 1%:D [1%:D; 2%:D; 3%:D; 4%:D] [0%:D; 0%:D; 0%:D; 0%:D]
    [0%:D; 0%:D; 0%:D; 0%:D] ITER_JACOBI.

(** The solvers the constructor builds for 2x2 and for 3x2 cells, in
    binary64. *)
Definition fresh_solver : FluidSolver.t float :=
  constructed (fun _ => 0%:D) 2 2 1%:D.

Definition wide_solver : FluidSolver.t float :=
  constructed (fun _ => 0%:D) 3 2 1%:D.

(** An image for a 2x2 grid (16 bytes), and what [toImage] makes of it for
    the solver [inflow_state_next.1]. *)
Definition blank_image : list Z := replicate 16 0%Z.

Definition inflow_image : list Z := Eval vm_compute in
  default [] (FluidSolver.toImage inflow_state_next.1 blank_image).

(** A 2x2 solver in exact arithmetic (cell size 1/2, density 1) whose
    velocity is the circulation of [vortex] plus the gradient of the
    pressure it holds: for the timestep 1 that pressure solves the pressure
    equation. *)
Definition swirl : FluidSolver.t Qc :=
  FluidSolver.mk
    (FluidQuantity.mk [1%:D; 2%:D; 3%:D; 4%:D] [0%:D; 0%:D; 0%:D; 0%:D]
       2 2 1%/2 1%/2 1%/2)
    (FluidQuantity.mk [0%:D; (-1)%:D; 0%:D; 0%:D; (-3)%:D; 0%:D]
       [0%:D; 0%:D; 0%:D; 0%:D; 0%:D; 0%:D] 3 2 0%:D 1%/2 1%/2)
    (FluidQuantity.mk [0%:D; 0%:D; (-3)%:D; (-1)%:D; 0%:D; 0%:D]
       [0%:D; 0%:D; 0%:D; 0%:D; 0%:D; 0%:D] 2 3 1%/2 0%:D 1%/2)
    2 2 1%/2 1%:D [0%:D; 0%:D; 0%:D; 0%:D] [1%:D; 0%:D; 0%:D; (-1)%:D]
    [0%:D; 0%:D; 0%:D; 0%:D] ITER_JACOBI.

Definition swirl_rhs : FluidSolver.t Qc := Eval vm_compute in
  default swirl (FluidSolver.buildRhs swirl).
End Examples.

(** * Properties *)

(** ** Construction *)

Section Construction.
Context {D : Type} `{Double D}.
Local Open Scope double_scope.

Lemma new_double_None (garbage : Z -> D) (n : Z) :
  new_double garbage n = None <-> (n < 0)%Z.
Proof. unfold new_double. case_decide; split; intros; try done; lia. Qed.

Lemma new_double_Some (garbage : Z -> D) (n : Z) (b : list D) :
  new_double garbage n = Some b -> (0 <= n)%Z /\ length b = Z.to_nat n.
Proof.
  unfold new_double. case_decide; [|done]. intros [= <-].
  split; [done|]. by rewrite length_map, length_seqZ.
Qed.

Lemma memset0_all (b : list D) (n : Z) :
  length b = Z.to_nat n -> (0 <= n)%Z ->
  memset0 b n = Some (replicate (Z.to_nat n) 0%:D).
Proof.
  intros Hlen Hn. unfold memset0. case_decide; [|lia].
  rewrite drop_ge by lia. by rewrite app_nil_r.
Qed.

Lemma FluidQuantity_new_None (garbage : Z -> D) (w h : Z) (ox oy hx : D) :
  FluidQuantity.new garbage w h ox oy hx = None <-> (w * h < 0)%Z.
Proof.
  unfold FluidQuantity.new.
  destruct (new_double garbage (w * h)) as [b|] eqn:Hb; simpl.
  - apply new_double_Some in Hb as [Hn Hlen].
    rewrite (memset0_all b) by done. simpl. split; [done|lia].
  - apply new_double_None in Hb. done.
Qed.

Lemma FluidQuantity_new_Some (garbage : Z -> D) (w h : Z) (ox oy hx : D) q :
  FluidQuantity.new garbage w h ox oy hx = Some q ->
  q = FluidQuantity.mk (replicate (Z.to_nat (w*h)) 0%:D)
        (map garbage (seqZ 0 (w*h))) w h ox oy hx.
Proof.
  unfold FluidQuantity.new.
  destruct (new_double garbage (w * h)) as [b|] eqn:Hb; simpl; [|done].
  pose proof Hb as Hb'. apply new_double_Some in Hb' as [Hn Hlen].
  rewrite (memset0_all b) by done. simpl. intros [= <-].
  unfold new_double in Hb. case_decide; [|done]. by injection Hb as <-.
Qed.
End Construction.

Section SolverConstruction.
Context {D : Type} `{Double D}.
Local Open Scope double_scope.

Lemma FluidSolver_new_spec (garbage : Z -> D) (w h : Z) (density : D) :
  FluidSolver.new garbage w h density =
    if decide (0 <= w * h /\ 0 <= (w + 1) * h /\ 0 <= w * (h + 1))%Z
    then Some (constructed garbage w h density) else None.
Proof.
  unfold FluidSolver.new.
  destruct (FluidQuantity.new garbage w h _ _ _) as [d|] eqn:Hd; simpl.
  2:{ apply FluidQuantity_new_None in Hd. case_decide; [lia|done]. }
  destruct (FluidQuantity.new garbage (w + 1) h _ _ _) as [u|] eqn:Hu; simpl.
  2:{ apply FluidQuantity_new_None in Hu. case_decide; [lia|done]. }
  destruct (FluidQuantity.new garbage w (h + 1) _ _ _) as [v|] eqn:Hv; simpl.
  2:{ apply FluidQuantity_new_None in Hv. case_decide; [lia|done]. }
  assert (0 <= w * h)%Z as Hwh.
  { destruct (decide (0 <= w * h)%Z) as [|Hn]; [done|].
    assert (FluidQuantity.new garbage w h 1%/2 1%/2 (1%:D / (Z.min w h)%:D) = None)
      as Hc by (apply FluidQuantity_new_None; lia).
    congruence. }
  assert (0 <= (w + 1) * h)%Z as Hu'.
  { destruct (decide (0 <= (w + 1) * h)%Z) as [|Hn]; [done|].
    assert (FluidQuantity.new garbage (w + 1) h 0%:D 1%/2 (1%:D / (Z.min w h)%:D) = None)
      as Hc by (apply FluidQuantity_new_None; lia).
    congruence. }
  assert (0 <= w * (h + 1))%Z as Hv'.
  { destruct (decide (0 <= w * (h + 1))%Z) as [|Hn]; [done|].
    assert (FluidQuantity.new garbage w (h + 1) 1%/2 0%:D (1%:D / (Z.min w h)%:D) = None)
      as Hc by (apply FluidQuantity_new_None; lia).
    congruence. }
  apply FluidQuantity_new_Some in Hd, Hu, Hv. subst d u v.
  unfold new_double. rewrite !decide_True by done. simpl.
  rewrite !memset0_all by (rewrite ?length_map, ?length_seqZ; done).
  reflexivity.
Qed.

End SolverConstruction.


(** ** The backward trace (Runge-Kutta) *)

Section TraceExample.
Local Open Scope double_scope.

(** C1 (code bug).  Tracing back from (1, 1/2) with timestep 1/10 through
    the uniform velocity (1, 0) on a grid of cell size 1/2: the first two
    samples are divided by the cell size (2 in grid units), the third is
    not (1), so the code arrives at x = 1 - (1/10)(2/9*2 + 3/9*2 + 4/9*1) =
    38/45, where the trace with all three samples in grid units arrives at
    x = 1 - (1/10)*2 = 4/5. *)
Lemma rungeKutta3_third_sample_not_scaled :
  Qc_pair (FluidQuantity.rungeKutta3 rk_d 1%:D 1%/2 1%/10 rk_u rk_v)
    = Some (38 # 45, 1 # 2)%Q /\
  Qc_pair (rungeKutta3_spec rk_d 1%:D 1%/2 1%/10 rk_u rk_v)
    = Some (4 # 5, 1 # 2)%Q.
Proof. split; vm_compute; reflexivity. Qed.

(** The same input with binary64 numbers. *)
Lemma rungeKutta3_third_sample_not_scaled_float :
  let u : FluidQuantity.t float := const_quantity 3 2 0%:D 1%/2 1%/2 1%:D in
  let v : FluidQuantity.t float := const_quantity 2 3 1%/2 0%:D 1%/2 0%:D in
  let d : FluidQuantity.t float := const_quantity 2 2 1%/2 1%/2 1%/2 0%:D in
  FluidQuantity.rungeKutta3 d 1%:D 1%/2 1%/10 u v
    = Some (0x1.b05b05b05b05bp-1, 0.5)%float /\
  rungeKutta3_spec d 1%:D 1%/2 1%/10 u v
    = Some (0x1.999999999999ap-1, 0.5)%float.
Proof. split; vm_compute; reflexivity. Qed.

End TraceExample.

(** ** Source injection: the cells [addInflow] visits *)

Section InflowExample.
Local Open Scope double_scope.

(** C4 (code bug).  On the y-velocity field of a 2x2 solver (2 columns, 3
    rows) the column loop runs up to [min(ix1, _h) = 3] instead of the
    width 2, so x = 2 is visited.  With the rectangle [0,2]x[0,2] the visit
    of (x, y) = (2, 2) is the index 6, one past the 6 cells of the buffer.
    With the rectangle [0,2]x[0,1/2] only row 0 is visited, and the visit
    of (2, 0) writes index 2, which is cell (0, 1), in a row the rectangle
    does not reach.  Visiting columns 0 .. width-1 only, as specified,
    stays in the buffer and leaves that cell alone. *)
Lemma addInflow_visits_column_beyond_width :
  (FluidQuantity._w inflow_v = 2 /\ FluidQuantity._h inflow_v = 3 /\
   length (FluidQuantity._src inflow_v) = 6%nat) /\
  (FluidQuantity.addInflow inflow_v 0%:D 0%:D 2%:D 2%:D 1%:D = None /\
   addInflow_spec inflow_v 0%:D 0%:D 2%:D 2%:D 1%:D <> None) /\
  (FluidQuantity._src <$>
     FluidQuantity.addInflow inflow_v 0%:D 0%:D 2%:D 1%/2 1%:D
     = Some [0.15625; 0.84375; 0.84375; 0; 0; 0]%float /\
   FluidQuantity._src <$>
     addInflow_spec inflow_v 0%:D 0%:D 2%:D 1%/2 1%:D
     = Some [0.15625; 0.84375; 0; 0; 0; 0]%float).
Proof.
  split; [done|]. split; [|split; vm_compute; reflexivity].
  split; [vm_compute; reflexivity|]. vm_compute. discriminate.
Qed.

End InflowExample.

(** ** Loops and buffers *)

Section Loops.
Context {D : Type} `{Double D}.

Lemma for_loop_inv {St : Type} (I : Z -> St -> Prop) (n : nat) (i : Z)
    (body : Z -> St -> option St) (s s' : St) :
  (forall j t t', (i <= j < i + Z.of_nat n)%Z -> I j t ->
     body j t = Some t' -> I (j + 1)%Z t') ->
  I i s -> for_loop n i body s = Some s' -> I (i + Z.of_nat n)%Z s'.
Proof.
  revert i s. induction n as [|n IH]; intros i s Hstep Hi Hrun; simpl in Hrun.
  - injection Hrun as <-. by replace (i + Z.of_nat 0)%Z with i by lia.
  - destruct (body i s) as [s1|] eqn:Hb; simpl in Hrun; [|done].
    replace (i + Z.of_nat (S n))%Z with ((i + 1) + Z.of_nat n)%Z by lia.
    apply (IH (i + 1)%Z s1); [|by eapply Hstep; [lia|..]|done].
    intros j t t' Hj. apply Hstep. lia.
Qed.

Lemma for_loop_total {St : Type} (I : Z -> St -> Prop) (n : nat) (i : Z)
    (body : Z -> St -> option St) (s : St) :
  (forall j t, (i <= j < i + Z.of_nat n)%Z -> I j t ->
     exists t', body j t = Some t' /\ I (j + 1)%Z t') ->
  I i s -> exists s', for_loop n i body s = Some s' /\ I (i + Z.of_nat n)%Z s'.
Proof.
  revert i s. induction n as [|n IH]; intros i s Hstep Hi; simpl.
  - exists s. split; [done|]. by replace (i + Z.of_nat 0)%Z with i by lia.
  - destruct (Hstep i s) as (s1 & Hb & Hi1); [lia|done|].
    rewrite Hb. simpl.
    replace (i + Z.of_nat (S n))%Z with ((i + 1) + Z.of_nat n)%Z by lia.
    apply IH; [|done]. intros j t Hj. apply Hstep. lia.
Qed.

Lemma for_range_inv {St : Type} (I : Z -> St -> Prop) (lo hi : Z)
    (body : Z -> St -> option St) (s s' : St) :
  (lo <= hi)%Z ->
  (forall j t t', (lo <= j < hi)%Z -> I j t -> body j t = Some t' -> I (j + 1)%Z t') ->
  I lo s -> for_range lo hi body s = Some s' -> I hi s'.
Proof.
  intros Hle Hstep Hlo Hrun. unfold for_range in Hrun.
  replace hi with (lo + Z.of_nat (Z.to_nat (hi - lo)))%Z by lia.
  eapply for_loop_inv; [|done|done].
  intros j t t' Hj. apply Hstep. lia.
Qed.

Lemma for_range_total {St : Type} (I : Z -> St -> Prop) (lo hi : Z)
    (body : Z -> St -> option St) (s : St) :
  (lo <= hi)%Z ->
  (forall j t, (lo <= j < hi)%Z -> I j t ->
     exists t', body j t = Some t' /\ I (j + 1)%Z t') ->
  I lo s -> exists s', for_range lo hi body s = Some s' /\ I hi s'.
Proof.
  intros Hle Hstep Hlo. unfold for_range.
  destruct (for_loop_total I (Z.to_nat (hi - lo)) lo body s) as (s' & Hrun & Hs');
    [|done|].
  - intros j t Hj. apply Hstep. lia.
  - exists s'. split; [done|].
    by replace hi with (lo + Z.of_nat (Z.to_nat (hi - lo)))%Z by lia.
Qed.

(** A loop whose bounds are empty does nothing. *)
Lemma for_range_empty {St : Type} (lo hi : Z) (body : Z -> St -> option St) (s : St) :
  (hi <= lo)%Z -> for_range lo hi body s = Some s.
Proof. intros Hle. unfold for_range. by replace (Z.to_nat (hi - lo)) with O by lia. Qed.

(** A property every step preserves is preserved by the loop, whatever the
    bounds. *)
Lemma for_range_preserves {St : Type} (P : St -> Prop) (lo hi : Z)
    (body : Z -> St -> option St) (s s' : St) :
  (forall j t t', (lo <= j < hi)%Z -> P t -> body j t = Some t' -> P t') ->
  P s -> for_range lo hi body s = Some s' -> P s'.
Proof.
  intros Hstep Hs Hrun. destruct (decide (lo <= hi)%Z) as [Hle|Hgt].
  - by apply (for_range_inv (fun _ => P) lo hi body s s').
  - rewrite for_range_empty in Hrun by lia. by injection Hrun as <-.
Qed.

(** A loop whose steps all succeed and preserve [P] succeeds, whatever the
    bounds. *)
Lemma for_range_succeeds {St : Type} (P : St -> Prop) (lo hi : Z)
    (body : Z -> St -> option St) (s : St) :
  (forall j t, (lo <= j < hi)%Z -> P t -> exists t', body j t = Some t' /\ P t') ->
  P s -> exists s', for_range lo hi body s = Some s' /\ P s'.
Proof.
  intros Hstep Hs. destruct (decide (lo <= hi)%Z) as [Hle|Hgt].
  - by apply (for_range_total (fun _ => P)).
  - exists s. split; [|done]. apply for_range_empty. lia.
Qed.

Lemma rd_Some (b : list D) (i : Z) (v : D) :
  rd b i = Some v <-> (0 <= i)%Z /\ b !! Z.to_nat i = Some v.
Proof.
  unfold rd. case_decide as Hi.
  - split; [by intros ->|by intros [_ ?]].
  - split; [done|]. by intros [? _].
Qed.

Lemma rd_lt (b : list D) (i : Z) (v : D) :
  rd b i = Some v -> (0 <= i < Z.of_nat (length b))%Z.
Proof. intros [Hi Hl]%rd_Some. apply lookup_lt_Some in Hl. lia. Qed.

Lemma rd_is_Some (b : list D) (i : Z) :
  (0 <= i < Z.of_nat (length b))%Z -> exists v, rd b i = Some v.
Proof.
  intros Hi. unfold rd. rewrite decide_True by lia.
  destruct (lookup_lt_is_Some_2 b (Z.to_nat i)) as [v Hv]; [lia|]. by exists v.
Qed.

Lemma wr_Some (b b' : list D) (i : Z) (v : D) :
  wr b i v = Some b' <->
  (0 <= i < Z.of_nat (length b))%Z /\ b' = <[Z.to_nat i := v]> b.
Proof.
  unfold wr. case_decide as Hi.
  - split; [by intros [= <-]|by intros [_ ->]].
  - split; [done|]. by intros [? _].
Qed.

Lemma wr_length (b b' : list D) (i : Z) (v : D) :
  wr b i v = Some b' -> length b' = length b.
Proof. intros [_ ->]%wr_Some. apply length_insert. Qed.

Lemma rd_wr_eq (b b' : list D) (i : Z) (v : D) :
  wr b i v = Some b' -> rd b' i = Some v.
Proof.
  intros [Hi ->]%wr_Some. apply rd_Some. split; [lia|].
  apply list_lookup_insert_eq. lia.
Qed.

Lemma rd_wr_ne (b b' : list D) (i j : Z) (v : D) :
  wr b i v = Some b' -> i <> j -> rd b' j = rd b j.
Proof.
  intros [Hi ->]%wr_Some Hne. unfold rd. case_decide; [|done].
  apply list_lookup_insert_ne. lia.
Qed.

Lemma rd_wr (b b' : list D) (i j : Z) (v : D) :
  wr b i v = Some b' -> rd b' j = if decide (i = j) then Some v else rd b j.
Proof.
  intros Hw. case_decide as Hij.
  - subst j. by eapply rd_wr_eq.
  - by eapply rd_wr_ne.
Qed.

Lemma wr_is_Some (b : list D) (i : Z) (v : D) :
  (0 <= i < Z.of_nat (length b))%Z -> exists b', wr b i v = Some b'.
Proof. intros Hi. unfold wr. rewrite decide_True by done. eauto. Qed.
End Loops.

(** ** Projection: the boundary faces *)

Section Projection.
Context {D : Type} `{Double D}.
Local Open Scope double_scope.

Lemma set_at_fields (q q' : FluidQuantity.t D) (x y : Z) (v : D) :
  FluidQuantity.set_at q x y v = Some q' ->
  FluidQuantity._w q' = FluidQuantity._w q /\
  FluidQuantity._h q' = FluidQuantity._h q /\
  FluidQuantity._dst q' = FluidQuantity._dst q /\
  length (FluidQuantity._src q') = length (FluidQuantity._src q).
Proof.
  unfold FluidQuantity.set_at. intros Hs.
  destruct (wr _ _ _) as [b|] eqn:Hw; simpl in Hs; [|done].
  injection Hs as <-. simpl. by rewrite (wr_length _ _ _ _ Hw).
Qed.

Lemma at_set_at_eq (q q' : FluidQuantity.t D) (x y : Z) (v : D) :
  FluidQuantity.set_at q x y v = Some q' -> FluidQuantity.at_ q' x y = Some v.
Proof.
  unfold FluidQuantity.set_at, FluidQuantity.at_, FluidQuantity.idx_of. intros Hs.
  destruct (wr _ _ _) as [b|] eqn:Hw; simpl in Hs; [|done].
  injection Hs as <-. simpl. by eapply rd_wr_eq.
Qed.

(** Storing [v] leaves every cell that already holds [v] holding [v]. *)
Lemma at_set_at_same (q q' : FluidQuantity.t D) (x y a b : Z) (v : D) :
  FluidQuantity.set_at q x y v = Some q' ->
  FluidQuantity.at_ q a b = Some v -> FluidQuantity.at_ q' a b = Some v.
Proof.
  unfold FluidQuantity.set_at, FluidQuantity.at_, FluidQuantity.idx_of. intros Hs Ha.
  destruct (wr _ _ _) as [s1|] eqn:Hw; simpl in Hs; [|done].
  injection Hs as <-. simpl. rewrite (rd_wr _ _ _ _ _ Hw). by case_decide.
Qed.

Lemma zero_u_faces_spec (s : FluidSolver.t D) (y : Z) (u u' : FluidQuantity.t D) :
  FluidSolver.zero_u_faces s y u = Some u' ->
  FluidQuantity.at_ u' 0 y = Some 0%:D /\
  FluidQuantity.at_ u' (FluidSolver._w s) y = Some 0%:D /\
  forall a b, FluidQuantity.at_ u a b = Some 0%:D ->
              FluidQuantity.at_ u' a b = Some 0%:D.
Proof.
  unfold FluidSolver.zero_u_faces. intros Hz.
  destruct (FluidQuantity.set_at u _ y _) as [u1|] eqn:H1; simpl in Hz; [|done].
  split; [by eapply at_set_at_eq|]. split.
  - eapply at_set_at_same; [done|]. by eapply at_set_at_eq.
  - intros a b Hab. eapply at_set_at_same; [done|]. by eapply at_set_at_same.
Qed.

Lemma zero_v_faces_spec (s : FluidSolver.t D) (x : Z) (v v' : FluidQuantity.t D) :
  FluidSolver.zero_v_faces s x v = Some v' ->
  FluidQuantity.at_ v' x 0 = Some 0%:D /\
  FluidQuantity.at_ v' x (FluidSolver._h s) = Some 0%:D /\
  forall a b, FluidQuantity.at_ v a b = Some 0%:D ->
              FluidQuantity.at_ v' a b = Some 0%:D.
Proof.
  unfold FluidSolver.zero_v_faces. intros Hz.
  destruct (FluidQuantity.set_at v x _ _) as [v1|] eqn:H1; simpl in Hz; [|done].
  split; [by eapply at_set_at_eq|]. split.
  - eapply at_set_at_same; [done|]. by eapply at_set_at_eq.
  - intros a b Hab. eapply at_set_at_same; [done|]. by eapply at_set_at_same.
Qed.

(** What [applyPressure] leaves on the boundary, whatever the pressure. *)
Lemma applyPressure_boundary (timestep : D) (s s' : FluidSolver.t D) :
  FluidSolver.applyPressure timestep s = Some s' -> boundary_faces_zero s'.
Proof.
  unfold FluidSolver.applyPressure. intros Ha.
  destruct (for_range 0 (FluidSolver._h s) _ _) as [[idx [u v]]|]; simpl in Ha; [|done].
  destruct (for_range 0 (FluidSolver._h s) _ u) as [u'|] eqn:Hu; simpl in Ha; [|done].
  destruct (for_range 0 (FluidSolver._w s) _ v) as [v'|] eqn:Hv; simpl in Ha; [|done].
  injection Ha as <-. unfold boundary_faces_zero. simpl. split.
  - destruct (decide (0 <= FluidSolver._h s)%Z); [|intros; lia].
    apply (for_range_inv (fun j q => forall y, (0 <= y < j)%Z ->
             FluidQuantity.at_ q 0 y = Some 0%:D /\
             FluidQuantity.at_ q (FluidSolver._w s) y = Some 0%:D)
           0 (FluidSolver._h s) (FluidSolver.zero_u_faces s) u u');
      [lia| |intros; lia|done].
    intros j t t' Hj IH Hz y' Hy'.
    apply zero_u_faces_spec in Hz as (Hz0 & Hzw & Hkeep).
    destruct (decide (y' = j)) as [->|Hne]; [done|].
    destruct (IH y') as [IH0 IHw]; [lia|]. split; by apply Hkeep.
  - destruct (decide (0 <= FluidSolver._w s)%Z); [|intros; lia].
    apply (for_range_inv (fun j q => forall x, (0 <= x < j)%Z ->
             FluidQuantity.at_ q x 0 = Some 0%:D /\
             FluidQuantity.at_ q x (FluidSolver._h s) = Some 0%:D)
           0 (FluidSolver._w s) (FluidSolver.zero_v_faces s) v v');
      [lia| |intros; lia|done].
    intros j t t' Hj IH Hz x' Hx'.
    apply zero_v_faces_spec in Hz as (Hz0 & Hzh & Hkeep).
    destruct (decide (x' = j)) as [->|Hne]; [done|].
    destruct (IH x') as [IH0 IHh]; [lia|]. split; by apply Hkeep.
Qed.

(** The stages of [update], one after the other. *)
Lemma update_stages (timestep : D) (s s' : FluidSolver.t D) (rep : report D) :
  FluidSolver.update timestep s = Some (s', rep) <->
  exists s1 s2 s3 s4,
    FluidSolver.buildRhs s = Some s1 /\
    FluidSolver.solve timestep s1 = Some (s2, rep) /\
    FluidSolver.applyPressure timestep s2 = Some s3 /\
    FluidSolver.advect_all timestep s3 = Some s4 /\
    s' = FluidSolver.flip_all s4.
Proof.
  unfold FluidSolver.update. split.
  - intros Hu.
    destruct (FluidSolver.buildRhs s) as [s1|] eqn:H1; simpl in Hu; [|done].
    destruct (FluidSolver.solve timestep s1) as [[s2 rep']|] eqn:H2;
      simpl in Hu; [|done].
    destruct (FluidSolver.applyPressure timestep s2) as [s3|] eqn:H3;
      simpl in Hu; [|done].
    destruct (FluidSolver.advect_all timestep s3) as [s4|] eqn:H4;
      simpl in Hu; [|done].
    injection Hu as <- <-. by exists s1, s2, s3, s4.
  - intros (s1 & s2 & s3 & s4 & -> & H2 & H3 & H4 & ->). simpl.
    rewrite H2. simpl. rewrite H3. simpl. rewrite H4. done.
Qed.

(** In every simulation step, whatever the number system, the state the
    projection ([applyPressure]) hands to the advection has exactly 0 on
    every domain-boundary face of both velocity fields. *)
Lemma projection_boundary_in_update (timestep : D)
    (s s' : FluidSolver.t D) (rep : report D) :
  FluidSolver.update timestep s = Some (s', rep) ->
  exists s2 s3 s4,
    (s1 ← FluidSolver.buildRhs s; FluidSolver.solve timestep s1) = Some (s2, rep) /\
    FluidSolver.applyPressure timestep s2 = Some s3 /\
    boundary_faces_zero s3 /\
    FluidSolver.advect_all timestep s3 = Some s4 /\
    s' = FluidSolver.flip_all s4.
Proof.
  intros (s1 & s2 & s3 & s4 & H1 & H2 & H3 & H4 & ->)%update_stages.
  exists s2, s3, s4. rewrite H1. simpl. split; [done|]. split; [done|].
  split; [by eapply applyPressure_boundary|done].
Qed.
End Projection.

Section StepExample.
Local Open Scope double_scope.

Lemma inflow_state_reached :
  (s ← FluidSolver.new (D:=float) (fun _ => 0%:D) 2 2 1%:D;
   FluidSolver.addInflow s 0%:D 0%:D 1%:D 1%:D 1%:D 1%:D 1%:D) = Some inflow_state.
Proof. vm_compute. reflexivity. Qed.

Lemma inflow_state_update :
  FluidSolver.update 1%/100 inflow_state = Some inflow_state_next.
Proof. vm_compute. reflexivity. Qed.

(** C2 (counterexample).  A 2x2 solver of density 1, one [addInflow] over
    the whole domain with density 1 and velocity (1, 1), one [update] with
    timestep 1/100, in binary64: after the step the face of u at x = width
    (column 2) in row 0 and the face of v at y = height (row 2) in column 0
    hold a value above 2^-14, so the boundary faces are not all 0. *)
Lemma boundary_face_nonzero_after_update :
  let s' := inflow_state_next.1 in
  (s ← FluidSolver.new (D:=float) (fun _ => 0%:D) 2 2 1%:D;
   s ← FluidSolver.addInflow s 0%:D 0%:D 1%:D 1%:D 1%:D 1%:D 1%:D;
   FluidSolver.update 1%/100 s) = Some inflow_state_next /\
  (exists x, FluidQuantity.at_ (FluidSolver._u s') (FluidSolver._w s') 0 = Some x /\
             (0x1p-14 <? x)%float = true) /\
  (exists y, FluidQuantity.at_ (FluidSolver._v s') 0 (FluidSolver._h s') = Some y /\
             (0x1p-14 <? y)%float = true) /\
  ~ boundary_faces_zero s'.
Proof.
  split; [vm_compute; reflexivity|].
  split; [eexists; split; vm_compute; reflexivity|].
  split; [eexists; split; vm_compute; reflexivity|].
  intros [Hu _]. destruct (Hu 0%Z) as [_ Hw]; [simpl; lia|].
  apply (f_equal (fun o => x ← o; Some (0x1p-14 <? x)%float)) in Hw.
  vm_compute in Hw. discriminate.
Qed.

(** The same step, stage by stage. *)
Lemma projection_boundary_example :
  FluidSolver.update 1%/100 inflow_state = Some inflow_state_next /\
  exists s2 s3 s4,
    (s1 ← FluidSolver.buildRhs inflow_state; FluidSolver.solve 1%/100 s1)
      = Some (s2, inflow_state_next.2) /\
    FluidSolver.applyPressure 1%/100 s2 = Some s3 /\
    boundary_faces_zero s3 /\
    FluidSolver.advect_all 1%/100 s3 = Some s4 /\
    inflow_state_next.1 = FluidSolver.flip_all s4.
Proof.
  split; [vm_compute; reflexivity|].
  apply (projection_boundary_in_update 1%/100 inflow_state
           inflow_state_next.1 inflow_state_next.2).
  vm_compute. reflexivity.
Qed.
End StepExample.

(** ** The pressure solve *)

Section PressureSolve.
Context {D : Type} `{Double D}.
Local Open Scope double_scope.

Lemma cell_index_bounds (w h x y : Z) :
  (0 <= x < w)%Z -> (0 <= y < h)%Z -> (0 <= x + y * w < w * h)%Z.
Proof. intros Hx Hy. nia. Qed.

Lemma newP_cell_total (s : FluidSolver.t D) (scale : D) (p : list D) (x y : Z) :
  (0 <= x < FluidSolver._w s)%Z -> (0 <= y < FluidSolver._h s)%Z ->
  Z.of_nat (length (FluidSolver._r s)) = (FluidSolver._w s * FluidSolver._h s)%Z ->
  Z.of_nat (length p) = (FluidSolver._w s * FluidSolver._h s)%Z ->
  exists v, FluidSolver.newP_cell s scale p x y = Some v.
Proof.
  intros Hx Hy Hr Hp. unfold FluidSolver.newP_cell.
  pose proof (cell_index_bounds _ _ x y Hx Hy) as Hi.
  assert (forall i, (0 <= i < FluidSolver._w s * FluidSolver._h s)%Z ->
                    exists v, rd p i = Some v) as Hrd.
  { intros i Hi'. apply rd_is_Some. lia. }
  assert (exists ri, rd (FluidSolver._r s) (x + y * FluidSolver._w s)%Z = Some ri)
    as [ri Hri] by (apply rd_is_Some; lia).
  repeat match goal with
  | |- context [decide ?c] => destruct (decide c)
  | |- context [rd p ?i] => destruct (Hrd i) as [? ->]; [nia|]
  | _ => progress simpl
  end.
  all: rewrite Hri; simpl; eauto.
Qed.

Lemma project_jacobi_cell_total (s : FluidSolver.t D) (scale : D) (y x : Z)
    (st : D * list D) :
  (0 <= x < FluidSolver._w s)%Z -> (0 <= y < FluidSolver._h s)%Z ->
  Z.of_nat (length (FluidSolver._r s)) = (FluidSolver._w s * FluidSolver._h s)%Z ->
  Z.of_nat (length (FluidSolver._p s)) = (FluidSolver._w s * FluidSolver._h s)%Z ->
  Z.of_nat (length st.2) = (FluidSolver._w s * FluidSolver._h s)%Z ->
  exists st', FluidSolver.project_jacobi_cell s scale y x st = Some st' /\
              length st'.2 = length st.2.
Proof.
  intros Hx Hy Hr Hp Hp2. destruct st as [md p2]. simpl in *.
  pose proof (cell_index_bounds _ _ x y Hx Hy) as Hi.
  destruct (newP_cell_total s scale (FluidSolver._p s) x y) as [v ->]; [done..|].
  simpl.
  destruct (rd_is_Some (FluidSolver._p s) (x + y * FluidSolver._w s)%Z)
    as [pi ->]; [lia|]. simpl.
  destruct (wr_is_Some p2 (x + y * FluidSolver._w s)%Z v) as [p2' Hw]; [lia|].
  rewrite Hw. simpl. eexists. split; [done|]. simpl. by eapply wr_length.
Qed.

Lemma project_cell_total (s : FluidSolver.t D) (scale : D) (y x : Z)
    (st : D * list D) :
  (0 <= x < FluidSolver._w s)%Z -> (0 <= y < FluidSolver._h s)%Z ->
  Z.of_nat (length (FluidSolver._r s)) = (FluidSolver._w s * FluidSolver._h s)%Z ->
  Z.of_nat (length st.2) = (FluidSolver._w s * FluidSolver._h s)%Z ->
  exists st', FluidSolver.project_cell s scale y x st = Some st' /\
              length st'.2 = length st.2.
Proof.
  intros Hx Hy Hr Hp. destruct st as [md p]. simpl in *.
  pose proof (cell_index_bounds _ _ x y Hx Hy) as Hi.
  destruct (newP_cell_total s scale p x y) as [v ->]; [done..|]. simpl.
  destruct (rd_is_Some p (x + y * FluidSolver._w s)%Z) as [pi ->]; [lia|]. simpl.
  destruct (wr_is_Some p (x + y * FluidSolver._w s)%Z v) as [p' Hw]; [lia|].
  rewrite Hw. simpl. eexists. split; [done|]. simpl. by eapply wr_length.
Qed.

(** A double loop over the grid whose body always succeeds and keeps the
    length of the buffer it carries. *)
Lemma grid_loop_total {A : Type} (w h : Z) (body : Z -> Z -> A * list D -> option (A * list D))
    (st : A * list D) :
  (0 <= w)%Z -> (0 <= h)%Z ->
  (forall y x t, (0 <= x < w)%Z -> (0 <= y < h)%Z -> length t.2 = length st.2 ->
     exists t', body y x t = Some t' /\ length t'.2 = length t.2) ->
  exists st', for_range 0 h (fun y t => for_range 0 w (body y) t) st = Some st' /\
              length st'.2 = length st.2.
Proof.
  intros Hw Hh Hbody.
  apply (for_range_total (fun _ t => length t.2 = length st.2)); [done| |done].
  intros y t Hy Ht.
  apply (for_range_total (fun _ t => length t.2 = length st.2)); [done| |done].
  intros x t' Hx Ht'.
  destruct (Hbody y x t') as (t'' & Hb & Hl); [done..|].
  exists t''. split; [done|]. congruence.
Qed.

Lemma project_jacobi_sweep_total (w h : Z) (scale : D) (s : FluidSolver.t D) :
  wf_pressure w h s ->
  exists s' delta, FluidSolver.project_jacobi_sweep scale s = Some (s', delta) /\
                   wf_pressure w h s'.
Proof.
  intros (Hw & Hh & Hw0 & Hh0 & Hr & Hp & Hp2). subst w h.
  unfold FluidSolver.project_jacobi_sweep.
  destruct (grid_loop_total (FluidSolver._w s) (FluidSolver._h s)
              (FluidSolver.project_jacobi_cell s scale) (0%:D, FluidSolver._p2 s))
    as ([md p2] & -> & Hlen); [done..| |].
  { intros y x t Hx Hy Ht. apply project_jacobi_cell_total; try done.
    rewrite Ht. done. }
  simpl in *. unfold memcpy. rewrite decide_True by lia. simpl.
  eexists _, _. split; [done|].
  unfold wf_pressure. simpl. rewrite length_app, length_take, length_drop.
  repeat split; try done; lia.
Qed.

Lemma project_sweep_total (w h : Z) (scale : D) (s : FluidSolver.t D) :
  wf_pressure w h s ->
  exists s' delta, FluidSolver.project_sweep scale s = Some (s', delta) /\
                   wf_pressure w h s'.
Proof.
  intros (Hw & Hh & Hw0 & Hh0 & Hr & Hp & Hp2). subst w h.
  unfold FluidSolver.project_sweep.
  destruct (grid_loop_total (FluidSolver._w s) (FluidSolver._h s)
              (FluidSolver.project_cell s scale) (0%:D, FluidSolver._p s))
    as ([md p] & -> & Hlen); [done..| |].
  { intros y x t Hx Hy Ht. apply project_cell_total; try done.
    rewrite Ht. done. }
  simpl in *. eexists _, _. split; [done|].
  unfold wf_pressure. simpl. repeat split; try done; lia.
Qed.

Lemma solver_loop_total (P : FluidSolver.t D -> Prop)
    (sweep : FluidSolver.t D -> option (FluidSolver.t D * D))
    (limit : Z) (fuel : nat) (iter : Z) (md : option D) (s : FluidSolver.t D) :
  (forall s, P s -> exists s' delta, sweep s = Some (s', delta) /\ P s') ->
  P s ->
  exists s' rep, FluidSolver.solver_loop sweep limit fuel iter md s = Some (s', rep) /\ P s'.
Proof.
  intros Hsweep. revert iter md s.
  induction fuel as [|fuel IH]; intros iter md s Hs; simpl.
  - by exists s, (Exceeded limit md).
  - destruct (Hsweep s Hs) as (s1 & delta & -> & Hs1). simpl.
    destruct (delta <? 1%/100000); [by eexists _, _|]. by apply IH.
Qed.

(** What the loop of the solve does, in terms of the sweeps it ran: it
    stops at the first sweep whose change passes the test, and otherwise
    after [fuel] sweeps. *)
Lemma solver_loop_spec (sweep : FluidSolver.t D -> option (FluidSolver.t D * D))
    (limit : Z) (fuel : nat) (iter : Z) (md : option D)
    (s s' : FluidSolver.t D) (rep : report D) :
  FluidSolver.solver_loop sweep limit fuel iter md s = Some (s', rep) ->
  exists (n : nat) (deltas : list D),
    (n <= fuel)%nat /\ run_sweeps sweep n s = Some (s', deltas) /\
    ((exists init delta,
        deltas = init ++ [delta] /\ Forall (fun d => converged d = false) init /\
        converged delta = true /\ rep = Exiting (iter + Z.of_nat n - 1) delta) \/
     (n = fuel /\ Forall (fun d => converged d = false) deltas /\
      rep = Exceeded limit (from_option Some md (last deltas)))).
Proof.
  revert iter md s. induction fuel as [|fuel IH]; intros iter md s Hrun; simpl in Hrun.
  - injection Hrun as <- <-. exists O, []. split; [done|]. split; [done|].
    right. by repeat split.
  - destruct (sweep s) as [[s1 delta]|] eqn:Hs; simpl in Hrun; [|done].
    destruct (delta <? 1%/100000) eqn:Hc.
    + injection Hrun as <- <-. exists 1%nat, [delta]. split; [lia|].
      split; [simpl; rewrite Hs; done|]. left. exists [], delta.
      repeat split; [done|done|]. f_equal. lia.
    + apply IH in Hrun as (n & deltas & Hn & Hsw & Hcase).
      exists (S n), (delta :: deltas). split; [lia|].
      split; [simpl; rewrite Hs; simpl; rewrite Hsw; done|].
      destruct Hcase as [(init & d' & -> & Hinit & Hd' & ->)|(-> & Hall & ->)].
      * left. exists (delta :: init), d'. repeat split; [by constructor|done|].
        f_equal. lia.
      * right. repeat split; [by constructor|]. f_equal.
        destruct deltas as [|d0 deltas]; [done|]. rewrite last_cons_cons.
        destruct (last (d0 :: deltas)) eqn:Hl; [done|]. by apply last_None in Hl.
Qed.
End PressureSolve.

(** ** Loops over the grid with a running index *)

Section GridLoops.
Context {D : Type} `{Double D}.
Local Open Scope double_scope.

(** In [for (y = 0, idx = 0; y < h; y++) for (x = 0; x < w; x++, idx++)]
    the running index at cell (x, y) is [x + y*w]. *)
Lemma grid_loop_idx_inv {A : Type} (I : Z -> A -> Prop) (w h : Z)
    (body : Z -> Z -> Z * A -> option (Z * A)) (a : A) (res : Z * A) :
  (0 <= w)%Z -> (0 <= h)%Z ->
  (forall y x t t', (0 <= x < w)%Z -> (0 <= y < h)%Z -> I (x + y * w)%Z t ->
     body y x ((x + y * w)%Z, t) = Some t' ->
     t'.1 = (x + y * w + 1)%Z /\ I (x + y * w + 1)%Z t'.2) ->
  I 0%Z a ->
  for_range 0 h (fun y st => for_range 0 w (body y) st) (0%Z, a) = Some res ->
  res.1 = (w * h)%Z /\ I (w * h)%Z res.2.
Proof.
  intros Hw Hh Hbody Ha Hrun.
  apply (for_range_inv (fun y st => st.1 = (y * w)%Z /\ I (y * w)%Z st.2)) in Hrun;
    [| done | | done].
  { destruct Hrun as [-> Hres]. split; [lia|]. by replace (w * h)%Z with (h * w)%Z by lia. }
  intros y t t' Hy [Ht1 Ht2] Hin.
  apply (for_range_inv (fun x st => st.1 = (x + y * w)%Z /\ I (x + y * w)%Z st.2))
    in Hin; [| done | | ].
  - destruct Hin as [-> Hres]. split; [lia|].
    by replace ((y + 1) * w)%Z with (w + y * w)%Z by lia.
  - intros x [i b] t'' Hx [Hi Hb] Hcell. simpl in Hi. subst i.
    destruct (Hbody y x b t'') as [E1 E2]; [done..|].
    split; [lia|]. by replace (x + 1 + y * w)%Z with (x + y * w + 1)%Z by lia.
  - split; [lia|]. by replace (0 + y * w)%Z with (y * w)%Z by lia.
Qed.

Lemma grid_loop_idx_total {A : Type} (I : Z -> A -> Prop) (w h : Z)
    (body : Z -> Z -> Z * A -> option (Z * A)) (a : A) :
  (0 <= w)%Z -> (0 <= h)%Z ->
  (forall y x t, (0 <= x < w)%Z -> (0 <= y < h)%Z -> I (x + y * w)%Z t ->
     exists t', body y x ((x + y * w)%Z, t) = Some ((x + y * w + 1)%Z, t') /\
                I (x + y * w + 1)%Z t') ->
  I 0%Z a ->
  exists a', for_range 0 h (fun y st => for_range 0 w (body y) st) (0%Z, a)
               = Some ((w * h)%Z, a') /\ I (w * h)%Z a'.
Proof.
  intros Hw Hh Hbody Ha.
  destruct (for_range_total (fun y st => st.1 = (y * w)%Z /\ I (y * w)%Z st.2)
              0 h (fun y st => for_range 0 w (body y) st) (0%Z, a))
    as ([i a'] & Hrun & Hi & Ha'); [done| |done|].
  - intros y [i b] Hy [Hi Hb]. simpl in Hi, Hb. subst i.
    destruct (for_range_total
                (fun x st => st.1 = (x + y * w)%Z /\ I (x + y * w)%Z st.2)
                0 w (body y) ((y * w)%Z, b))
      as ([i b'] & Hrun & Hi & Hb'); [done| | |].
    + intros x [i c] Hx [Hi Hc]. simpl in Hi, Hc. subst i.
      destruct (Hbody y x c) as (c' & Hcell & Hc'); [done..|].
      exists ((x + y * w + 1)%Z, c'). split; [done|]. simpl.
      split; [lia|]. by replace (x + 1 + y * w)%Z with (x + y * w + 1)%Z by lia.
    + simpl. split; [lia|]. by replace (0 + y * w)%Z with (y * w)%Z by lia.
    + exists (i, b'). split; [done|]. simpl in *. split; [lia|].
      by replace ((y + 1) * w)%Z with (w + y * w)%Z by lia.
  - simpl in *. subst i. exists a'. split.
    + rewrite Hrun. do 2 f_equal. lia.
    + by replace (w * h)%Z with (h * w)%Z by lia.
Qed.
End GridLoops.

Section Update.
Context {D : Type} `{Double D}.
Local Open Scope double_scope.

Lemma wf_solver_pressure (s : FluidSolver.t D) :
  wf_solver s -> wf_pressure (FluidSolver._w s) (FluidSolver._h s) s.
Proof.
  intros ((Hdw & Hdh & _) & _ & _ & Edw & Edh & _ & _ & _ & _ & Hr & Hp & Hp2).
  unfold wf_pressure. repeat split; try done; lia.
Qed.

Lemma buildRhs_total (s : FluidSolver.t D) :
  wf_solver s ->
  exists r, FluidSolver.buildRhs s = Some (FluidSolver.set_r s r) /\
            length r = length (FluidSolver._r s).
Proof.
  intros ((Hdw & Hdh & _) & (_ & _ & Hu & _) & (_ & _ & Hv & _) &
          Edw & Edh & Euw & Euh & Evw & Evh & Hr & _).
  unfold FluidSolver.buildRhs.
  destruct (grid_loop_idx_total
              (fun _ r => length r = length (FluidSolver._r s))
              (FluidSolver._w s) (FluidSolver._h s)
              (FluidSolver.buildRhs_cell s (1%:D / FluidSolver._hx s))
              (FluidSolver._r s)) as (r & -> & Hlen); [lia|lia| |done|].
  - intros y x t Hx Hy Ht. unfold FluidSolver.buildRhs_cell.
    unfold FluidQuantity.at_, FluidQuantity.idx_of. rewrite Euw, Evw.
    rewrite Euw, Euh in Hu. rewrite Evw, Evh in Hv.
    destruct (rd_is_Some (FluidQuantity._src (FluidSolver._u s))
                (x + 1 + y * (FluidSolver._w s + 1))%Z) as [u1 ->]; [nia|].
    destruct (rd_is_Some (FluidQuantity._src (FluidSolver._u s))
                (x + y * (FluidSolver._w s + 1))%Z) as [u0 ->]; [nia|].
    destruct (rd_is_Some (FluidQuantity._src (FluidSolver._v s))
                (x + (y + 1) * FluidSolver._w s)%Z) as [v1 ->]; [nia|].
    destruct (rd_is_Some (FluidQuantity._src (FluidSolver._v s))
                (x + y * FluidSolver._w s)%Z) as [v0 ->]; [nia|].
    simpl.
    destruct (wr_is_Some t (x + y * FluidSolver._w s)%Z
                (- (1%:D / FluidSolver._hx s) * (u1 - u0 + v1 - v0)))
      as [t' Hw]; [nia|].
    rewrite Hw. simpl. exists t'. split; [done|].
    rewrite <- Ht. by eapply wr_length.
  - simpl. by exists r.
Qed.

(** The solve of a well-formed solver always yields a state and a report. *)
Lemma solve_total (w h : Z) (timestep : D) (s : FluidSolver.t D) :
  wf_pressure w h s ->
  exists s' rep, FluidSolver.solve timestep s = Some (s', rep) /\ wf_pressure w h s'.
Proof.
  intros Hs. unfold FluidSolver.solve, FluidSolver.project_jacobi, FluidSolver.project.
  destruct (FluidSolver.iteration_type s).
  - apply (solver_loop_total (wf_pressure w h)); [|done].
    intros s1 Hs1. by apply project_sweep_total.
  - apply (solver_loop_total (wf_pressure w h)); [|done].
    intros s1 Hs1. by apply project_jacobi_sweep_total.
Qed.

Lemma solve_spec (timestep : D) (s s' : FluidSolver.t D) (rep : report D) :
  FluidSolver.solve timestep s = Some (s', rep) ->
  exists (n : nat) (deltas : list D),
    (n <= 600)%nat /\ run_sweeps (sweep_of timestep s) n s = Some (s', deltas) /\
    ((exists init delta,
        deltas = init ++ [delta] /\ Forall (fun d => converged d = false) init /\
        converged delta = true /\ rep = Exiting (Z.of_nat n - 1) delta) \/
     (n = 600%nat /\ Forall (fun d => converged d = false) deltas /\
      rep = Exceeded 600 (last deltas))).
Proof.
  intros Hrun.
  assert (FluidSolver.solver_loop (sweep_of timestep s) 600 (Z.to_nat 600) 0 None s
          = Some (s', rep)) as Hloop.
  { revert Hrun. unfold FluidSolver.solve, FluidSolver.project_jacobi,
      FluidSolver.project, sweep_of. by destruct (FluidSolver.iteration_type s). }
  apply solver_loop_spec in Hloop as (n & deltas & Hn & Hsw & Hcase).
  exists n, deltas. split; [lia|]. split; [done|].
  destruct Hcase as [(init & d' & -> & Hinit & Hd' & ->)|(-> & Hall & ->)].
  - left. exists init, d'. split; [done|]. split; [done|]. split; [done|].
    f_equal; lia.
  - right. split; [lia|]. split; [done|]. f_equal.
    destruct (last deltas) eqn:Hl; [done|].
    apply last_None in Hl. subst deltas. simpl in Hsw. done.
Qed.

(** C3.  For a well-formed solver the pressure solve of [update] always
    yields a state and a report (it never fails).  It ran [n <= 600]
    sweeps from the state [buildRhs] left: either the last of them is the
    first whose maximum change is below 1e-5 and the report is "Exiting
    after [n-1] iterations", or [n = 600], no sweep passed the test and the
    report is "Exceeded budget of 600 iterations".  In both cases [update]
    goes on with [applyPressure] on the state the sweeps produced, the
    report being only passed along. *)
Theorem pressure_solve_stops (timestep : D) (s : FluidSolver.t D) :
  wf_solver s ->
  exists s1 s2 rep (n : nat) (deltas : list D),
    FluidSolver.buildRhs s = Some s1 /\
    FluidSolver.solve timestep s1 = Some (s2, rep) /\
    (n <= 600)%nat /\
    run_sweeps (sweep_of timestep s1) n s1 = Some (s2, deltas) /\
    ((exists init delta,
        deltas = init ++ [delta] /\ Forall (fun d => converged d = false) init /\
        converged delta = true /\ rep = Exiting (Z.of_nat n - 1) delta) \/
     (n = 600%nat /\ Forall (fun d => converged d = false) deltas /\
      rep = Exceeded 600 (last deltas))) /\
    FluidSolver.update timestep s =
      (s3 ← FluidSolver.applyPressure timestep s2;
       s4 ← FluidSolver.advect_all timestep s3;
       Some (FluidSolver.flip_all s4, rep)).
Proof.
  intros Hwf. pose proof (wf_solver_pressure s Hwf) as Hp.
  destruct (buildRhs_total s Hwf) as (r & Hb & Hlen).
  assert (wf_pressure (FluidSolver._w s) (FluidSolver._h s) (FluidSolver.set_r s r))
    as Hp1.
  { destruct Hp as (? & ? & ? & ? & Hr & ? & ?). unfold wf_pressure. simpl.
    rewrite Hlen. done. }
  destruct (solve_total _ _ timestep _ Hp1) as (s2 & rep & Hsolve & _).
  destruct (solve_spec _ _ _ _ Hsolve) as (n & deltas & Hn & Hsw & Hcase).
  exists (FluidSolver.set_r s r), s2, rep, n, deltas.
  repeat (split; [done|]).
  unfold FluidSolver.update. rewrite Hb. simpl. rewrite Hsolve. done.
Qed.
End Update.

Section WarmStart.
Context {D : Type} `{Double D}.
Local Open Scope double_scope.

Lemma buildRhs_p (s s1 : FluidSolver.t D) :
  FluidSolver.buildRhs s = Some s1 -> FluidSolver._p s1 = FluidSolver._p s.
Proof.
  unfold FluidSolver.buildRhs. intros Hb.
  destruct (for_range _ _ _ _) as [[i r]|]; simpl in Hb; [|done].
  by injection Hb as <-.
Qed.

Lemma applyPressure_p (timestep : D) (s s' : FluidSolver.t D) :
  FluidSolver.applyPressure timestep s = Some s' ->
  FluidSolver._p s' = FluidSolver._p s.
Proof.
  unfold FluidSolver.applyPressure. intros Ha.
  destruct (for_range _ _ _ _) as [[i [u v]]|]; simpl in Ha; [|done].
  destruct (for_range _ _ _ u) as [u'|]; simpl in Ha; [|done].
  destruct (for_range _ _ _ v) as [v'|]; simpl in Ha; [|done].
  by injection Ha as <-.
Qed.

Lemma advect_all_p (timestep : D) (s s' : FluidSolver.t D) :
  FluidSolver.advect_all timestep s = Some s' ->
  FluidSolver._p s' = FluidSolver._p s.
Proof.
  unfold FluidSolver.advect_all. intros Ha.
  destruct (FluidQuantity.advect (FluidSolver._d s) _ _ _) as [d|]; simpl in Ha; [|done].
  destruct (FluidQuantity.advect (FluidSolver._u s) _ _ _) as [u|]; simpl in Ha; [|done].
  destruct (FluidQuantity.advect (FluidSolver._v s) _ _ _) as [v|]; simpl in Ha; [|done].
  by injection Ha as <-.
Qed.

Lemma addInflow_p (s s' : FluidSolver.t D) (x y w h d u v : D) :
  FluidSolver.addInflow s x y w h d u v = Some s' ->
  FluidSolver._p s' = FluidSolver._p s.
Proof.
  unfold FluidSolver.addInflow. intros Ha.
  destruct (FluidQuantity.addInflow (FluidSolver._d s) _ _ _ _ _); simpl in Ha; [|done].
  destruct (FluidQuantity.addInflow (FluidSolver._u s) _ _ _ _ _); simpl in Ha; [|done].
  destruct (FluidQuantity.addInflow (FluidSolver._v s) _ _ _ _ _); simpl in Ha; [|done].
  by injection Ha as <-.
Qed.

End WarmStart.

Section StepInstances.
Local Open Scope double_scope.

Lemma inflow_state_wf : wf_solver inflow_state.
Proof. unfold wf_solver, wf_quantity. simpl. lia. Qed.

Lemma pressure_solve_stops_witness :
  wf_solver inflow_state /\
  exists s1 s2 rep (n : nat) (deltas : list float),
    FluidSolver.buildRhs inflow_state = Some s1 /\
    FluidSolver.solve 1%/100 s1 = Some (s2, rep) /\
    (n <= 600)%nat /\
    run_sweeps (sweep_of 1%/100 s1) n s1 = Some (s2, deltas) /\
    ((exists init delta,
        deltas = init ++ [delta] /\ Forall (fun d => converged d = false) init /\
        converged delta = true /\ rep = Exiting (Z.of_nat n - 1) delta) \/
     (n = 600%nat /\ Forall (fun d => converged d = false) deltas /\
      rep = Exceeded 600 (last deltas))) /\
    FluidSolver.update 1%/100 inflow_state =
      (s3 ← FluidSolver.applyPressure 1%/100 s2;
       s4 ← FluidSolver.advect_all 1%/100 s3;
       Some (FluidSolver.flip_all s4, rep)).
Proof.
  split; [exact inflow_state_wf|].
  exact (pressure_solve_stops 1%/100 inflow_state inflow_state_wf).
Defined.


(** The first step of that run starts from the all-zero pressure; the
    second starts from the pressure the first solve left, which is not
    zero. *)
Lemma warm_start_example :
  FluidSolver._p inflow_state = [0; 0; 0; 0]%float /\
  Forall (fun x => (1553 <? x)%float = true) (FluidSolver._p inflow_state_next.1).
Proof. split; [reflexivity|]. repeat constructor. Qed.
End StepInstances.

(** ** Exact arithmetic *)

Section OrderFacts.
Context {D : Type} `{OrderLaws D}.
Local Open Scope double_scope.

Lemma dle_refl (a : D) : dle a a.
Proof. apply dlt_irrefl. Qed.

Lemma dle_trans (a b c : D) : dle a b -> dle b c -> dle a c.
Proof.
  unfold dle. intros Hab Hbc. destruct (c <? a) eqn:Hca; [|done].
  destruct (dlt_cotrans c a b Hca) as [Hcb|Hba]; congruence.
Qed.

Lemma dlt_dle (a b : D) : (a <? b) = true -> dle a b.
Proof.
  unfold dle. intros Hab. destruct (b <? a) eqn:Hba; [|done].
  pose proof (dlt_trans a b a Hab Hba) as Haa. rewrite dlt_irrefl in Haa. done.
Qed.

Lemma dle_dlt_trans (a b c : D) : dle a b -> (b <? c) = true -> (a <? c) = true.
Proof.
  unfold dle. intros Hab Hbc.
  destruct (dlt_cotrans b c a Hbc) as [Hba|Hac]; congruence.
Qed.

Lemma dlt_dle_trans (a b c : D) : (a <? b) = true -> dle b c -> (a <? c) = true.
Proof.
  unfold dle. intros Hab Hbc.
  destruct (dlt_cotrans a b c Hab) as [Hac|Hcb]; congruence.
Qed.

Lemma dmax_lower_l (a b : D) : dle a (dmax a b).
Proof. unfold dmax. destruct (a <? b) eqn:E; [by apply dlt_dle|apply dle_refl]. Qed.

Lemma dmax_lower_r (a b : D) : dle b (dmax a b).
Proof. unfold dmax. destruct (a <? b) eqn:E; [apply dle_refl|done]. Qed.

Lemma dmax_upper (a b hi : D) : dle a hi -> dle b hi -> dle (dmax a b) hi.
Proof. unfold dmax. by destruct (a <? b). Qed.

Lemma dmin_upper_l (a b : D) : dle (dmin a b) a.
Proof. unfold dmin. destruct (b <? a) eqn:E; [by apply dlt_dle|apply dle_refl]. Qed.

Lemma dmin_upper_r (a b : D) : dle (dmin a b) b.
Proof. unfold dmin. destruct (b <? a) eqn:E; [apply dle_refl|done]. Qed.

Lemma dmin_lower (a b lo : D) : dle lo a -> dle lo b -> dle lo (dmin a b).
Proof. unfold dmin. by destruct (b <? a). Qed.

(** The clamp [min(max(t, lo), hi)] of the source stays in [lo, hi]. *)
Lemma clamp_between (t lo hi : D) :
  dle lo hi -> dle lo (dmin (dmax t lo) hi) /\ dle (dmin (dmax t lo) hi) hi.
Proof.
  intros Hlohi. split; [|apply dmin_upper_r].
  apply dmin_lower; [apply dmax_lower_r|done].
Qed.

Lemma min4_below (a b c d : D) :
  let m := dmin a (dmin b (dmin c d)) in
  dle m a /\ dle m b /\ dle m c /\ dle m d.
Proof.
  intros m. unfold m. split; [apply dmin_upper_l|].
  assert (dle (dmin a (dmin b (dmin c d))) (dmin b (dmin c d))) as H1
    by apply dmin_upper_r.
  split; [eapply dle_trans; [exact H1|apply dmin_upper_l]|].
  assert (dle (dmin a (dmin b (dmin c d))) (dmin c d)) as H2
    by (eapply dle_trans; [exact H1|apply dmin_upper_r]).
  split; eapply dle_trans; [exact H2|apply dmin_upper_l|exact H2|apply dmin_upper_r].
Qed.

Lemma max4_above (a b c d : D) :
  let m := dmax a (dmax b (dmax c d)) in
  dle a m /\ dle b m /\ dle c m /\ dle d m.
Proof.
  intros m. unfold m. split; [apply dmax_lower_l|].
  assert (dle (dmax b (dmax c d)) (dmax a (dmax b (dmax c d)))) as H1
    by apply dmax_lower_r.
  split; [eapply dle_trans; [apply dmax_lower_l|exact H1]|].
  assert (dle (dmax c d) (dmax a (dmax b (dmax c d)))) as H2
    by (eapply dle_trans; [apply dmax_lower_r|exact H1]).
  split; eapply dle_trans; [apply dmax_lower_l|exact H2|apply dmax_lower_r|exact H2].
Qed.

(** The 1D cubic interpolation stays between any bounds of its four
    samples. *)
Lemma cerp_1d_between (a b c d x lo hi : D) :
  dle lo a -> dle a hi -> dle lo b -> dle b hi ->
  dle lo c -> dle c hi -> dle lo d -> dle d hi ->
  dle lo (FluidQuantity.cerp_1d a b c d x) /\
  dle (FluidQuantity.cerp_1d a b c d x) hi.
Proof.
  intros Ha Ha' Hb Hb' Hc Hc' Hd Hd'. unfold FluidQuantity.cerp_1d.
  set (minV := dmin a (dmin b (dmin c d))).
  set (maxV := dmax a (dmax b (dmax c d))).
  assert (dle lo minV) as Hmin by (repeat apply dmin_lower; done).
  assert (dle maxV hi) as Hmax by (repeat apply dmax_upper; done).
  assert (dle minV maxV) as Hmm.
  { apply (dle_trans _ a); [apply dmin_upper_l|apply dmax_lower_l]. }
  match goal with |- context [dmax ?t minV] =>
    destruct (clamp_between t minV maxV Hmm) as [H1 H2] end.
  split; [by eapply dle_trans|by eapply dle_trans].
Qed.

(** C5.  For samples a <= b <= c <= d and x in [0, 1] the 1D Catmull-Rom
    interpolation returns a value between the minimum and the maximum of
    its four samples as the code computes them, and these lie in [a, d]:
    the result is in [a, d]. *)
Theorem cerp_1d_no_overshoot (a b c d x : D) :
  dle a b -> dle b c -> dle c d -> dle 0%:D x -> dle x 1%:D ->
  let r := FluidQuantity.cerp_1d a b c d x in
  (dle (dmin a (dmin b (dmin c d))) r /\ dle r (dmax a (dmax b (dmax c d)))) /\
  (dle a r /\ dle r d).
Proof.
  intros Hab Hbc Hcd _ _ r.
  assert (dle a c) as Hac by (by eapply dle_trans).
  assert (dle b d) as Hbd by (by eapply dle_trans).
  assert (dle a d) as Had by (by eapply dle_trans).
  destruct (min4_below a b c d) as (Ma & Mb & Mc & Md).
  destruct (max4_above a b c d) as (Xa & Xb & Xc & Xd).
  split.
  - by apply cerp_1d_between.
  - apply cerp_1d_between; auto using dle_refl.
Qed.
End OrderFacts.

(** *** The rationals satisfy the laws *)

Section QcLaws.
Local Open Scope Qc_scope.

Lemma Qc_ltb_lt (a b : Qc) : Qc_ltb a b = true <-> a < b.
Proof.
  unfold Qc_ltb. rewrite Qclt_alt. destruct (a ?= b); split; congruence.
Qed.

Lemma Qc_ltb_ge (a b : Qc) : Qc_ltb a b = false <-> b <= a.
Proof.
  rewrite <- Bool.not_true_iff_false, Qc_ltb_lt. split.
  - apply Qcnot_lt_le.
  - intros Hle Hlt. by apply (Qcle_not_lt _ _ Hle).
Qed.

Lemma Qc_ltb_eq (a b c d : Qc) : (a < b <-> c < d) -> Qc_ltb a b = Qc_ltb c d.
Proof.
  intros Hiff. apply Bool.eq_iff_eq_true. by rewrite !Qc_ltb_lt.
Qed.

Lemma Qc_of_int_this (z : Z) : this (Qc_of_int z) = inject_Z z.
Proof.
  unfold Qc_of_int. simpl. apply Qred_identity. simpl.
  rewrite Z.gcd_1_r. done.
Qed.

Lemma Qc_dle (a b : Qc) : dle a b <-> a <= b.
Proof. unfold dle. simpl. apply Qc_ltb_ge. Qed.

Lemma Qc_to_int_pos (x : Qc) : Q2Qc 0 <= x -> Qc_to_int x = Qfloor x.
Proof.
  unfold Qc_to_int, Qcle, Qle. destruct x as [[n d] Hc]. simpl.
  intros Hn. apply Z.quot_div_nonneg; lia.
Qed.

Lemma Qc_to_int_neg (x : Qc) : x <= Q2Qc 0 -> Qc_to_int x = Qceiling x.
Proof.
  unfold Qc_to_int, Qceiling, Qcle, Qle. destruct x as [[n d] Hc]. simpl.
  intros Hn. replace n with (- (- n))%Z at 1 by lia.
  rewrite Z.quot_opp_l by lia. f_equal. apply Z.quot_div_nonneg; lia.
Qed.

#[export] Instance Qc_OrderLaws : OrderLaws Qc.
Proof.
  split; simpl.
  - intros a. apply Qc_ltb_ge, Qcle_refl.
  - intros a b c. rewrite !Qc_ltb_lt. apply Qclt_trans.
  - intros a b c. rewrite !Qc_ltb_lt. intros Hab.
    destruct (Qclt_le_dec a c) as [Hac|Hca]; [by left|].
    right. by eapply Qcle_lt_trans.
Qed.

#[export] Instance Qc_ExactLaws : ExactLaws Qc.
Proof.
  split; simpl.
  - exact Qc_OrderLaws.
  - exact Qcrt.
  - intros a b c. apply Qc_ltb_eq. unfold Qclt, Qcplus. simpl.
    rewrite !Qred_correct. apply Qplus_lt_l.
  - intros a b c Hc%Qc_ltb_lt. apply Qc_ltb_eq. unfold Qclt, Qcmult. simpl.
    rewrite !Qred_correct. by apply Qmult_lt_r.
  - intros a b Hb. unfold Qcdiv. rewrite <- Qcmult_assoc.
    rewrite Qcmult_inv_l by done. apply Qcmult_1_r.
  - intros b. unfold Qcdiv. apply Qcmult_0_l.
  - intros a b. apply Qc_is_canon. unfold Qcplus. simpl.
    rewrite !Qred_correct. by rewrite inject_Z_plus.
  - intros a b. apply Qc_is_canon. unfold Qcmult. simpl.
    rewrite !Qred_correct. by rewrite inject_Z_mult.
  - intros a b. apply Bool.eq_iff_eq_true. rewrite Qc_ltb_lt, Z.ltb_lt.
    unfold Qclt. rewrite !Qc_of_int_this. by rewrite <- Zlt_Qlt.
  - intros x Hx%Qc_dle. rewrite Qc_dle, Qc_ltb_lt.
    rewrite (Qc_to_int_pos x Hx). unfold Qcle, Qclt. rewrite !Qc_of_int_this.
    split; [apply Qfloor_le|apply Qlt_floor].
  - intros x Hx%Qc_dle. rewrite Qc_dle, Qc_ltb_lt.
    rewrite (Qc_to_int_neg x Hx). unfold Qcle, Qclt. rewrite !Qc_of_int_this.
    split; [apply Qle_ceiling|apply Qceiling_lt].
Qed.
End QcLaws.

(** ** Source injection: inside the buffer on fields that are not taller
    than wide *)

Section InflowBounds.
Context {D : Type} `{Double D}.
Local Open Scope double_scope.

(** When the height does not exceed the width, the column bound
    [min(ix1, _h)] keeps every access of [addInflow] inside the buffer. *)
Lemma addInflow_total (q : FluidQuantity.t D) (x0 y0 x1 y1 v : D) :
  wf_quantity q -> (FluidQuantity._h q <= FluidQuantity._w q)%Z ->
  exists q', FluidQuantity.addInflow q x0 y0 x1 y1 v = Some q'.
Proof.
  intros (Hw & Hh & Hlen & _) Hhw. unfold FluidQuantity.addInflow. cbv zeta.
  pose (P := fun s : list D => length s = length (FluidQuantity._src q)).
  match goal with |- context [for_range ?lo ?hi ?body ?s] =>
    destruct (for_range_succeeds P lo hi body s) as (s' & -> & _) end;
    [|done|simpl; eauto].
  intros y t Hy Ht.
  apply (for_range_succeeds P); [|done].
  intros x t1 Hx Ht1. unfold P in *. unfold FluidQuantity.addInflow_cell.
  assert (0 <= x + y * FluidQuantity._w q < Z.of_nat (length t1))%Z as Hidx.
  { rewrite Ht1, Hlen. apply cell_index_bounds; lia. }
  destruct (rd_is_Some t1 _ Hidx) as [cur ->]. simpl.
  match goal with |- context [if ?c then _ else _] => destruct c end.
  - match goal with |- context [wr t1 ?i ?vi] =>
      destruct (wr_is_Some t1 i vi Hidx) as [t2 Hwr] end.
    exists t2. split; [done|]. rewrite <- Ht1. by eapply wr_length.
  - by exists t1.
Qed.
End InflowBounds.

(** ** Source injection: the max-blend *)

Section Inflow.
Context {D : Type} `{OrderLaws D}.
Local Open Scope double_scope.

Lemma never_lowered_refl (s : list D) : never_lowered s s.
Proof. split; [done|]. intros i old Hi. exists old. by split; [|left]. Qed.

Lemma addInflow_cell_never_lowers (q : FluidQuantity.t D) (x0 y0 x1 y1 v : D)
    (y x : Z) (s0 s s' : list D) :
  never_lowered s0 s ->
  FluidQuantity.addInflow_cell q x0 y0 x1 y1 v y x s = Some s' ->
  never_lowered s0 s'.
Proof.
  intros [Hlen Hcells]. unfold FluidQuantity.addInflow_cell.
  set (vi := (Fluid.cubicPulse _ * v)).
  set (idx := (x + y * FluidQuantity._w q)%Z).
  destruct (rd s idx) as [cur|] eqn:Hcur; simpl; [|done].
  destruct (dfabs cur <? dfabs vi) eqn:Hlt; [|by intros [= <-]].
  intros Hw. split; [by rewrite (wr_length _ _ _ _ Hw)|].
  intros i old Hold. destruct (Hcells i old Hold) as (new & Hnew & Hrel).
  rewrite (rd_wr _ _ _ _ _ Hw). case_decide as Hi; [|by exists new].
  subst i. exists vi. split; [done|]. right.
  assert (new = cur) as -> by congruence.
  destruct Hrel as [->|Hrel]; [done|]. by eapply dlt_trans.
Qed.

(** C6.  When [addInflow] returns (all its accesses were inside the
    buffer), every cell of [_src] holds a value whose magnitude is not below
    the magnitude it held before: the cell is unchanged, or its magnitude
    has strictly grown. *)
Theorem addInflow_never_lowers_magnitude (q q' : FluidQuantity.t D)
    (x0 y0 x1 y1 v : D) :
  FluidQuantity.addInflow q x0 y0 x1 y1 v = Some q' ->
  length (FluidQuantity._src q') = length (FluidQuantity._src q) /\
  forall i before, rd (FluidQuantity._src q) i = Some before ->
    exists after, rd (FluidQuantity._src q') i = Some after /\
      dle (dfabs before) (dfabs after) /\
      (after = before \/ (dfabs before <? dfabs after) = true).
Proof.
  unfold FluidQuantity.addInflow. intros Ha.
  destruct (for_range _ _ _ _) as [s|] eqn:Hloop; simpl in Ha; [|done].
  injection Ha as <-. simpl.
  assert (never_lowered (FluidQuantity._src q) s) as [Hlen Hcells].
  { revert Hloop. apply for_range_preserves; [|apply never_lowered_refl].
    intros y t t' _ Ht. apply for_range_preserves; [|done].
    intros x t1 t1' _ Ht1. by apply addInflow_cell_never_lowers. }
  split; [done|]. intros i before Hb.
  destruct (Hcells i before Hb) as (after & Hafter & Hrel).
  exists after. split; [done|]. split; [|done].
  destruct Hrel as [->|Hlt]; [apply dle_refl|by apply dlt_dle].
Qed.
End Inflow.

Section OrderInstances.
Local Open Scope double_scope.

Lemma cerp_1d_no_overshoot_witness :
  let a : Qc := 0%:D in let b : Qc := 0%:D in
  let c : Qc := 0%:D in let d : Qc := 1%:D in let x : Qc := 1%/2 in
  (dle a b /\ dle b c /\ dle c d /\ dle 0%:D x /\ dle x 1%:D) /\
  let r := FluidQuantity.cerp_1d a b c d x in
  (dle (dmin a (dmin b (dmin c d))) r /\ dle r (dmax a (dmax b (dmax c d)))) /\
  (dle a r /\ dle r d).
Proof.
  intros a b c d x.
  assert (dle a b /\ dle b c /\ dle c d /\ dle 0%:D x /\ dle x 1%:D)
    as (Hab & Hbc & Hcd & Hx0 & Hx1) by (repeat split; vm_compute; reflexivity).
  split; [by repeat split|].
  exact (cerp_1d_no_overshoot a b c d x Hab Hbc Hcd Hx0 Hx1).
Defined.

(** The unclamped spline value at that input is -1/16, below every sample;
    the code returns 0. *)
Lemma cerp_1d_clamps_undershoot :
  this (FluidQuantity.cerp_1d (D:=Qc) 0%:D 0%:D 0%:D 1%:D 1%/2) = 0%Q /\
  this (1%:D * (0%:D + 0%:D * 1%/2 - 1%/2 * (1%/2 * 1%/2)
                + 1%/2 * (1%/2 * 1%/2 * 1%/2)) : Qc) = (-1 # 16)%Q.
Proof. split; vm_compute; reflexivity. Qed.

Lemma addInflow_never_lowers_magnitude_witness :
  FluidQuantity.addInflow inflow_d 0%:D 0%:D 1%:D 1%:D 1%:D = Some inflow_d' /\
  length (FluidQuantity._src inflow_d') = length (FluidQuantity._src inflow_d) /\
  forall i before, rd (FluidQuantity._src inflow_d) i = Some before ->
    exists after, rd (FluidQuantity._src inflow_d') i = Some after /\
      dle (dfabs before) (dfabs after) /\
      (after = before \/ (dfabs before <? dfabs after) = true).
Proof.
  assert (FluidQuantity.addInflow inflow_d 0%:D 0%:D 1%:D 1%:D 1%:D = Some inflow_d')
    as Ha by (vm_compute; reflexivity).
  split; [exact Ha|].
  exact (addInflow_never_lowers_magnitude inflow_d inflow_d' _ _ _ _ _ Ha).
Defined.
End OrderInstances.

(** ** Sampling the grid *)

Section ExactFacts.
Context {D : Type} `{ExactLaws D}.
Local Open Scope double_scope.

Add Ring double_ring : exact_ring.

Lemma of_int_le (a b : Z) : (a <= b)%Z -> dle a%:D b%:D.
Proof. intros Hab. unfold dle. rewrite of_int_lt. by apply Z.ltb_ge. Qed.

Lemma of_int_sub (a b : Z) : (a - b)%:D = a%:D - b%:D.
Proof.
  replace a%:D with ((a - b) + b)%:D by (f_equal; lia).
  rewrite of_int_add. ring.
Qed.

Lemma of_int_nonzero (a : Z) : a <> 0%Z -> a%:D <> 0%:D.
Proof.
  intros Ha Heq. destruct (decide (a < 0)%Z).
  - assert ((a%:D <? 0%:D) = true) as Hlt by (rewrite of_int_lt; by apply Z.ltb_lt).
    rewrite Heq, dlt_irrefl in Hlt. done.
  - assert ((0%:D <? a%:D) = true) as Hlt by (rewrite of_int_lt; apply Z.ltb_lt; lia).
    rewrite Heq, dlt_irrefl in Hlt. done.
Qed.

Lemma dlt_sub_r (a b c : D) : (a - c <? b) = (a <? b + c).
Proof. rewrite <- (dlt_add_r (a - c) b c). f_equal. ring. Qed.

Lemma dlt_sub_l (a b c : D) : (a <? b - c) = (a + c <? b).
Proof. rewrite <- (dlt_add_r a (b - c) c). f_equal. ring. Qed.

(** The decimal literal n/d, for d > 0, compares like the fraction. *)
Lemma dec_lt_int (n d m : Z) :
  (0 < d)%Z -> (n %/ d <? m%:D) = (n <? m * d)%Z.
Proof.
  intros Hd.
  assert ((0%:D <? d%:D) = true) as Hd' by (rewrite of_int_lt; by apply Z.ltb_lt).
  rewrite <- (dlt_mul_pos _ _ d%:D Hd').
  rewrite div_mul by (apply of_int_nonzero; lia).
  by rewrite <- of_int_mul, of_int_lt.
Qed.

Lemma int_lt_dec (n d m : Z) :
  (0 < d)%Z -> (m%:D <? n %/ d) = (m * d <? n)%Z.
Proof.
  intros Hd.
  assert ((0%:D <? d%:D) = true) as Hd' by (rewrite of_int_lt; by apply Z.ltb_lt).
  rewrite <- (dlt_mul_pos _ _ d%:D Hd').
  rewrite div_mul by (apply of_int_nonzero; lia).
  by rewrite <- of_int_mul, of_int_lt.
Qed.

(** [w - 1.001] lies strictly between [w - 2] and [w - 1]. *)
Lemma clamp_bound_above (w : Z) : ((w - 2)%:D <? w%:D - 1001%/1000) = true.
Proof.
  rewrite dlt_sub_l, of_int_sub.
  replace (w%:D - 2%:D + 1001 %/ 1000) with (1001 %/ 1000 + (w%:D - 2%:D)) by ring.
  replace w%:D with (2%:D + (w%:D - 2%:D)) at 2 by ring.
  rewrite dlt_add_r. by rewrite dec_lt_int.
Qed.

Lemma clamp_bound_below (w : Z) : (w%:D - 1001%/1000 <? (w - 1)%:D) = true.
Proof.
  rewrite dlt_sub_r, of_int_sub.
  replace (w%:D - 1%:D + 1001 %/ 1000) with (1001 %/ 1000 + (w%:D - 1%:D)) by ring.
  replace w%:D with (1%:D + (w%:D - 1%:D)) at 1 by ring.
  rewrite dlt_add_r. by rewrite int_lt_dec.
Qed.

(** The clamped coordinate of [lerp] and [cerp] lies in a cell that has a
    right neighbour. *)
Lemma clamped_cell (w : Z) (x o : D) :
  (2 <= w)%Z ->
  let xc := dmin (dmax (x - o) 0%:D) (w%:D - 1001%/1000) in
  (0 <= to_int xc <= w - 2)%Z.
Proof.
  intros Hw xc.
  assert (dle 0%:D (w%:D - 1001%/1000)) as Hpos.
  { eapply dle_trans; [apply (of_int_le 0 (w - 2)); lia|].
    apply dlt_dle, clamp_bound_above. }
  assert (dle 0%:D xc) as Hxc0.
  { apply dmin_lower; [apply dmax_lower_r|done]. }
  assert (dle xc (w%:D - 1001%/1000)) as Hxc1 by apply dmin_upper_r.
  destruct (to_int_trunc_pos xc Hxc0) as [Hlo Hhi].
  split.
  - destruct (decide (0 <= to_int xc)%Z) as [|Hneg]; [done|].
    assert (dle (to_int xc + 1)%:D 0%:D) as Hle by (apply of_int_le; lia).
    pose proof (dle_dlt_trans _ _ _ (dle_trans _ _ _ Hle Hxc0) Hhi) as Habs.
    rewrite dlt_irrefl in Habs. done.
  - destruct (decide (to_int xc <= w - 2)%Z) as [|Hbig]; [done|].
    assert (dle (w - 1)%:D (to_int xc)%:D) as Hle by (apply of_int_le; lia).
    pose proof (dle_dlt_trans _ _ _
      (dle_trans _ _ _ Hle (dle_trans _ _ _ Hlo Hxc1)) (clamp_bound_below w)) as Habs.
    rewrite dlt_irrefl in Habs. done.
Qed.

(** At a grid point that has a right neighbour the clamp changes nothing
    and the fractional part is 0. *)
Lemma clamped_grid_point (w i : Z) (o : D) :
  (0 <= i <= w - 2)%Z ->
  let xc := dmin (dmax (i%:D + o - o) 0%:D) (w%:D - 1001%/1000) in
  xc = i%:D /\ to_int xc = i /\ xc - (to_int xc)%:D = 0%:D.
Proof.
  intros Hi xc.
  assert (xc = i%:D) as Hxc.
  { unfold xc. replace (i%:D + o - o) with i%:D by ring.
    unfold dmax. rewrite of_int_lt.
    replace (i <? 0)%Z with false by (symmetry; apply Z.ltb_ge; lia).
    unfold dmin.
    assert (dle i%:D (w%:D - 1001%/1000)) as Hle.
    { eapply dle_trans; [apply (of_int_le i (w - 2)); lia|].
      apply dlt_dle, clamp_bound_above. }
    unfold dle in Hle. by rewrite Hle. }
  assert (to_int xc = i) as Hti.
  { rewrite Hxc.
    destruct (to_int_trunc_pos i%:D) as [Hlo Hhi]; [apply (of_int_le 0 i); lia|].
    unfold dle in Hlo. rewrite of_int_lt in Hlo, Hhi.
    apply Z.ltb_ge in Hlo. apply Z.ltb_lt in Hhi. lia. }
  split; [done|]. split; [done|]. rewrite Hti, Hxc. ring.
Qed.

Lemma at_in_range (P : D -> Prop) (q : FluidQuantity.t D) (x y : Z) :
  Z.of_nat (length (FluidQuantity._src q))
    = (FluidQuantity._w q * FluidQuantity._h q)%Z ->
  Forall P (FluidQuantity._src q) ->
  (0 <= x < FluidQuantity._w q)%Z -> (0 <= y < FluidQuantity._h q)%Z ->
  exists v, FluidQuantity.at_ q x y = Some v /\ P v.
Proof.
  intros Hlen HP Hx Hy. unfold FluidQuantity.at_, FluidQuantity.idx_of.
  destruct (rd_is_Some (FluidQuantity._src q) (x + y * FluidQuantity._w q)%Z)
    as [v Hv]; [pose proof (cell_index_bounds _ _ x y Hx Hy); lia|].
  exists v. split; [done|]. apply rd_Some in Hv as [_ Hv].
  by eapply Forall_lookup_1.
Qed.

Lemma lerp_1d_0 (a b : D) : FluidQuantity.lerp_1d a b 0%:D = a.
Proof. unfold FluidQuantity.lerp_1d. ring. Qed.

(** C7 (amended).  In exact arithmetic, for every grid point (ix, iy) that
    has a right and an upper neighbour (0 <= ix <= width-2 and
    0 <= iy <= height-2), bilinear sampling at the point's position
    (ix + offsetX, iy + offsetY) returns exactly the value stored at
    (ix, iy). *)
Theorem lerp_at_grid_point (q : FluidQuantity.t D) (ix iy : Z) :
  Z.of_nat (length (FluidQuantity._src q))
    = (FluidQuantity._w q * FluidQuantity._h q)%Z ->
  (0 <= ix <= FluidQuantity._w q - 2)%Z ->
  (0 <= iy <= FluidQuantity._h q - 2)%Z ->
  exists v, FluidQuantity.at_ q ix iy = Some v /\
    FluidQuantity.lerp q (ix%:D + FluidQuantity._ox q) (iy%:D + FluidQuantity._oy q)
      = Some v.
Proof.
  intros Hlen Hix Hiy. unfold FluidQuantity.lerp. cbv zeta.
  pose proof (clamped_grid_point (FluidQuantity._w q) ix (FluidQuantity._ox q) Hix)
    as Hx. cbv zeta in Hx. destruct Hx as (_ & Htx & Hfx).
  pose proof (clamped_grid_point (FluidQuantity._h q) iy (FluidQuantity._oy q) Hiy)
    as Hy. cbv zeta in Hy. destruct Hy as (_ & Hty & Hfy).
  rewrite Hfx, Hfy, Htx, Hty. rewrite !Z.add_0_r.
  assert (Forall (fun _ => True) (FluidQuantity._src q)) as HT
    by (apply Forall_forall; done).
  destruct (at_in_range _ q ix iy Hlen HT) as (x00 & H00 & _); [lia..|].
  destruct (at_in_range _ q (ix + 1) iy Hlen HT) as (x10 & H10 & _); [lia..|].
  destruct (at_in_range _ q ix (iy + 1) Hlen HT) as (x01 & H01 & _); [lia..|].
  destruct (at_in_range _ q (ix + 1) (iy + 1) Hlen HT) as (x11 & H11 & _); [lia..|].
  exists x00. split; [done|].
  rewrite H00, H10, H01, H11. simpl. by rewrite !lerp_1d_0.
Qed.

Lemma lerp_total (q : FluidQuantity.t D) (x y : D) :
  samplable q -> exists v, FluidQuantity.lerp q x y = Some v.
Proof.
  intros ((_ & _ & Hlen & _) & Hw & Hh). unfold FluidQuantity.lerp. cbv zeta.
  pose proof (clamped_cell (FluidQuantity._w q) x (FluidQuantity._ox q) Hw) as Hx.
  pose proof (clamped_cell (FluidQuantity._h q) y (FluidQuantity._oy q) Hh) as Hy.
  cbv zeta in Hx, Hy.
  set (ix := to_int (dmin (dmax (x - _) _) _)) in *.
  set (iy := to_int (dmin (dmax (y - _) _) _)) in *.
  assert (Forall (fun _ => True) (FluidQuantity._src q)) as HT
    by (apply Forall_forall; done).
  destruct (at_in_range _ q (ix + 0) (iy + 0) Hlen HT) as (x00 & -> & _); [lia..|].
  destruct (at_in_range _ q (ix + 1) (iy + 0) Hlen HT) as (x10 & -> & _); [lia..|].
  destruct (at_in_range _ q (ix + 0) (iy + 1) Hlen HT) as (x01 & -> & _); [lia..|].
  destruct (at_in_range _ q (ix + 1) (iy + 1) Hlen HT) as (x11 & -> & _); [lia..|].
  simpl. eauto.
Qed.

Lemma cerp_row_between (q : FluidQuantity.t D) (lo hi : D) (x0 x1 x2 x3 y : Z) (x : D) :
  Z.of_nat (length (FluidQuantity._src q))
    = (FluidQuantity._w q * FluidQuantity._h q)%Z ->
  Forall (fun v => dle lo v /\ dle v hi) (FluidQuantity._src q) ->
  (0 <= x0 < FluidQuantity._w q)%Z -> (0 <= x1 < FluidQuantity._w q)%Z ->
  (0 <= x2 < FluidQuantity._w q)%Z -> (0 <= x3 < FluidQuantity._w q)%Z ->
  (0 <= y < FluidQuantity._h q)%Z ->
  exists r, FluidQuantity.cerp_row q x0 x1 x2 x3 y x = Some r /\
            dle lo r /\ dle r hi.
Proof.
  intros Hlen Hb Hx0 Hx1 Hx2 Hx3 Hy. unfold FluidQuantity.cerp_row.
  destruct (at_in_range _ q x0 y Hlen Hb) as (a & -> & Ha & Ha'); [lia..|].
  destruct (at_in_range _ q x1 y Hlen Hb) as (b & -> & Hb1 & Hb1'); [lia..|].
  destruct (at_in_range _ q x2 y Hlen Hb) as (c & -> & Hc & Hc'); [lia..|].
  destruct (at_in_range _ q x3 y Hlen Hb) as (d & -> & Hd & Hd'); [lia..|].
  simpl. eexists. split; [done|]. by apply cerp_1d_between.
Qed.

(** The bicubic sample of a field lies between any bounds of its cells. *)
Lemma cerp_between (q : FluidQuantity.t D) (lo hi x y : D) :
  samplable q ->
  Forall (fun v => dle lo v /\ dle v hi) (FluidQuantity._src q) ->
  exists r, FluidQuantity.cerp q x y = Some r /\ dle lo r /\ dle r hi.
Proof.
  intros ((_ & _ & Hlen & _) & Hw & Hh) Hb. unfold FluidQuantity.cerp. cbv zeta.
  pose proof (clamped_cell (FluidQuantity._w q) x (FluidQuantity._ox q) Hw) as Hx.
  pose proof (clamped_cell (FluidQuantity._h q) y (FluidQuantity._oy q) Hh) as Hy.
  cbv zeta in Hx, Hy.
  set (ix := to_int (dmin (dmax (x - _) _) _)) in *.
  set (iy := to_int (dmin (dmax (y - _) _) _)) in *.
  destruct (cerp_row_between q lo hi (Z.max (ix - 1) 0) ix (ix + 1)
              (Z.min (ix + 2) (FluidQuantity._w q - 1)) (Z.max (iy - 1) 0)
              (dmin (dmax (x - FluidQuantity._ox q) 0%:D)
                 ((FluidQuantity._w q)%:D - 1001%/1000) - ix%:D) Hlen Hb)
    as (q0 & -> & Hq0 & Hq0'); [lia..|].
  destruct (cerp_row_between q lo hi (Z.max (ix - 1) 0) ix (ix + 1)
              (Z.min (ix + 2) (FluidQuantity._w q - 1)) iy
              (dmin (dmax (x - FluidQuantity._ox q) 0%:D)
                 ((FluidQuantity._w q)%:D - 1001%/1000) - ix%:D) Hlen Hb)
    as (q1 & -> & Hq1 & Hq1'); [lia..|].
  destruct (cerp_row_between q lo hi (Z.max (ix - 1) 0) ix (ix + 1)
              (Z.min (ix + 2) (FluidQuantity._w q - 1)) (iy + 1)
              (dmin (dmax (x - FluidQuantity._ox q) 0%:D)
                 ((FluidQuantity._w q)%:D - 1001%/1000) - ix%:D) Hlen Hb)
    as (q2 & -> & Hq2 & Hq2'); [lia..|].
  destruct (cerp_row_between q lo hi (Z.max (ix - 1) 0) ix (ix + 1)
              (Z.min (ix + 2) (FluidQuantity._w q - 1))
              (Z.min (iy + 2) (FluidQuantity._h q - 1))
              (dmin (dmax (x - FluidQuantity._ox q) 0%:D)
                 ((FluidQuantity._w q)%:D - 1001%/1000) - ix%:D) Hlen Hb)
    as (q3 & -> & Hq3 & Hq3'); [lia..|].
  simpl. eexists. split; [done|]. by apply cerp_1d_between.
Qed.

Lemma rungeKutta3_total (q u v : FluidQuantity.t D) (x y timestep : D) :
  samplable u -> samplable v ->
  exists p, FluidQuantity.rungeKutta3 q x y timestep u v = Some p.
Proof.
  intros Hu Hv. unfold FluidQuantity.rungeKutta3.
  destruct (lerp_total u x y Hu) as [fu ->]. simpl.
  destruct (lerp_total v x y Hv) as [fv ->]. simpl.
  match goal with |- context [FluidQuantity.lerp u ?a ?b] =>
    destruct (lerp_total u a b Hu) as [mu ->];
    destruct (lerp_total v a b Hv) as [mv ->] end. simpl.
  match goal with |- context [FluidQuantity.lerp u ?a ?b] =>
    destruct (lerp_total u a b Hu) as [lu ->];
    destruct (lerp_total v a b Hv) as [lv ->] end. simpl.
  eauto.
Qed.

End ExactFacts.

(** ** The walls through a whole step *)

Section BoundaryThroughAdvection.
Context {D : Type} `{ExactLaws D}.
Local Open Scope double_scope.

Add Ring double_ring_walls : exact_ring.

Lemma clamp_zero (lo hi : D) :
  dle lo 0%:D -> dle 0%:D hi -> dmin (dmax 0%:D lo) hi = 0%:D.
Proof.
  unfold dle, dmin, dmax. intros Hlo Hhi. rewrite Hlo. by rewrite Hhi.
Qed.

(** With the first two samples 0 the interpolation at x = 0 is 0. *)
Lemma cerp_1d_zero_left (c d : D) :
  FluidQuantity.cerp_1d 0%:D 0%:D c d 0%:D = 0%:D.
Proof.
  unfold FluidQuantity.cerp_1d. cbv zeta.
  destruct (min4_below 0%:D 0%:D c d) as (Hmin & _).
  destruct (max4_above 0%:D 0%:D c d) as (Hmax & _).
  match goal with |- dmin (dmax ?t _) _ = _ =>
    replace t with (0%:D : D) by ring end.
  by apply clamp_zero.
Qed.

(** With all four samples 0 the interpolation is 0. *)
Lemma cerp_1d_zero (x : D) :
  FluidQuantity.cerp_1d 0%:D 0%:D 0%:D 0%:D x = 0%:D.
Proof.
  unfold FluidQuantity.cerp_1d. cbv zeta.
  destruct (min4_below 0%:D 0%:D 0%:D 0%:D) as (Hmin & _).
  destruct (max4_above 0%:D 0%:D 0%:D 0%:D) as (Hmax & _).
  match goal with |- dmin (dmax ?t _) _ = _ =>
    replace t with (0%:D : D) by ring end.
  by apply clamp_zero.
Qed.

Lemma lerp_1d_zero (x : D) : FluidQuantity.lerp_1d 0%:D 0%:D x = 0%:D.
Proof. unfold FluidQuantity.lerp_1d. ring. Qed.

Lemma at_total (q : FluidQuantity.t D) (x y : Z) :
  samplable q ->
  (0 <= x < FluidQuantity._w q)%Z -> (0 <= y < FluidQuantity._h q)%Z ->
  exists v, FluidQuantity.at_ q x y = Some v.
Proof.
  intros ((_ & _ & Hlen & _) & _ & _) Hx Hy.
  destruct (at_in_range (fun _ => True) q x y Hlen) as (v & Hv & _);
    [by apply Forall_forall|done..|by exists v].
Qed.

Lemma lerp_zero_column (q : FluidQuantity.t D) (y : D) :
  samplable q -> zero_column q ->
  FluidQuantity.lerp q (0%:D + FluidQuantity._ox q) y = Some 0%:D.
Proof.
  intros Hq Hcol. pose proof Hq as (_ & Hw & Hh).
  unfold FluidQuantity.lerp. cbv zeta.
  pose proof (clamped_grid_point (FluidQuantity._w q) 0 (FluidQuantity._ox q))
    as Hx. cbv zeta in Hx. destruct Hx as (_ & Htx & Hfx); [lia|].
  pose proof (clamped_cell (FluidQuantity._h q) y (FluidQuantity._oy q) Hh) as Hy.
  cbv zeta in Hy.
  rewrite Hfx, Htx.
  set (iy := to_int (dmin (dmax (y - _) _) _)) in *.
  rewrite !Z.add_0_r. change (0 + 1)%Z with 1%Z.
  destruct (at_total q 1 iy Hq) as [x10 H10]; [lia..|].
  destruct (at_total q 1 (iy + 1) Hq) as [x11 H11]; [lia..|].
  rewrite (Hcol iy), H10, (Hcol (iy + 1)%Z), H11 by lia. simpl.
  by rewrite !lerp_1d_0, lerp_1d_zero.
Qed.

Lemma lerp_zero_row (q : FluidQuantity.t D) (x : D) :
  samplable q -> zero_row q ->
  FluidQuantity.lerp q x (0%:D + FluidQuantity._oy q) = Some 0%:D.
Proof.
  intros Hq Hrow. pose proof Hq as (_ & Hw & Hh).
  unfold FluidQuantity.lerp. cbv zeta.
  pose proof (clamped_grid_point (FluidQuantity._h q) 0 (FluidQuantity._oy q))
    as Hy. cbv zeta in Hy. destruct Hy as (_ & Hty & Hfy); [lia|].
  pose proof (clamped_cell (FluidQuantity._w q) x (FluidQuantity._ox q) Hw) as Hx.
  cbv zeta in Hx.
  rewrite Hfy, Hty.
  set (ix := to_int (dmin (dmax (x - _) _) _)) in *.
  rewrite !Z.add_0_r. change (0 + 1)%Z with 1%Z.
  destruct (at_total q ix 1 Hq) as [x01 H01]; [lia..|].
  destruct (at_total q (ix + 1) 1 Hq) as [x11 H11]; [lia..|].
  rewrite (Hrow ix), (Hrow (ix + 1)%Z), H01, H11 by lia. simpl.
  by rewrite lerp_1d_0, lerp_1d_zero.
Qed.

Lemma cerp_row_total (q : FluidQuantity.t D) (x0 x1 x2 x3 y : Z) (x : D) :
  samplable q ->
  (0 <= x0 < FluidQuantity._w q)%Z -> (0 <= x1 < FluidQuantity._w q)%Z ->
  (0 <= x2 < FluidQuantity._w q)%Z -> (0 <= x3 < FluidQuantity._w q)%Z ->
  (0 <= y < FluidQuantity._h q)%Z ->
  exists r, FluidQuantity.cerp_row q x0 x1 x2 x3 y x = Some r.
Proof.
  intros Hq Hx0 Hx1 Hx2 Hx3 Hy. unfold FluidQuantity.cerp_row.
  destruct (at_total q x0 y Hq) as [a ->]; [lia..|].
  destruct (at_total q x1 y Hq) as [b ->]; [lia..|].
  destruct (at_total q x2 y Hq) as [c ->]; [lia..|].
  destruct (at_total q x3 y Hq) as [d ->]; [lia..|].
  simpl. eauto.
Qed.

Lemma cerp_row_zero_column (q : FluidQuantity.t D) (x2 x3 y : Z) :
  samplable q -> zero_column q ->
  (0 <= x2 < FluidQuantity._w q)%Z -> (0 <= x3 < FluidQuantity._w q)%Z ->
  (0 <= y < FluidQuantity._h q)%Z ->
  FluidQuantity.cerp_row q 0 0 x2 x3 y 0%:D = Some 0%:D.
Proof.
  intros Hq Hcol Hx2 Hx3 Hy. unfold FluidQuantity.cerp_row.
  destruct (at_total q x2 y Hq) as [c Hc]; [lia..|].
  destruct (at_total q x3 y Hq) as [d Hd]; [lia..|].
  rewrite (Hcol y), Hc, Hd by lia. simpl. by rewrite cerp_1d_zero_left.
Qed.

Lemma cerp_row_zero_row (q : FluidQuantity.t D) (x0 x1 x2 x3 : Z) (x : D) :
  zero_row q ->
  (0 <= x0 < FluidQuantity._w q)%Z -> (0 <= x1 < FluidQuantity._w q)%Z ->
  (0 <= x2 < FluidQuantity._w q)%Z -> (0 <= x3 < FluidQuantity._w q)%Z ->
  FluidQuantity.cerp_row q x0 x1 x2 x3 0 x = Some 0%:D.
Proof.
  intros Hrow Hx0 Hx1 Hx2 Hx3. unfold FluidQuantity.cerp_row.
  rewrite (Hrow x0), (Hrow x1), (Hrow x2), (Hrow x3) by lia. simpl.
  by rewrite cerp_1d_zero.
Qed.

Lemma cerp_zero_column (q : FluidQuantity.t D) (y : D) :
  samplable q -> zero_column q ->
  FluidQuantity.cerp q (0%:D + FluidQuantity._ox q) y = Some 0%:D.
Proof.
  intros Hq Hcol. pose proof Hq as (_ & Hw & Hh).
  unfold FluidQuantity.cerp. cbv zeta.
  pose proof (clamped_grid_point (FluidQuantity._w q) 0 (FluidQuantity._ox q))
    as Hx. cbv zeta in Hx. destruct Hx as (_ & Htx & Hfx); [lia|].
  pose proof (clamped_cell (FluidQuantity._h q) y (FluidQuantity._oy q) Hh) as Hy.
  cbv zeta in Hy.
  rewrite Hfx, Htx.
  set (iy := to_int (dmin (dmax (y - _) _) _)) in *.
  change (Z.max (0 - 1) 0) with 0%Z. change (0 + 1)%Z with 1%Z.
  rewrite !cerp_row_zero_column by (done || lia). simpl.
  by rewrite cerp_1d_zero.
Qed.

Lemma cerp_zero_row (q : FluidQuantity.t D) (x : D) :
  samplable q -> zero_row q ->
  FluidQuantity.cerp q x (0%:D + FluidQuantity._oy q) = Some 0%:D.
Proof.
  intros Hq Hrow. pose proof Hq as (_ & Hw & Hh).
  unfold FluidQuantity.cerp. cbv zeta.
  pose proof (clamped_grid_point (FluidQuantity._h q) 0 (FluidQuantity._oy q))
    as Hy. cbv zeta in Hy. destruct Hy as (_ & Hty & Hfy); [lia|].
  pose proof (clamped_cell (FluidQuantity._w q) x (FluidQuantity._ox q) Hw) as Hx.
  cbv zeta in Hx.
  rewrite Hfy, Hty.
  set (ix := to_int (dmin (dmax (x - _) _) _)) in *.
  change (Z.max (0 - 1) 0) with 0%Z. change (0 + 1)%Z with 1%Z.
  rewrite !cerp_row_zero_row by (done || lia). simpl.
  match goal with |- context [FluidQuantity.cerp_row q ?a ?b ?c ?d 1 ?e] =>
    destruct (cerp_row_total q a b c d 1 e Hq) as [q2 ->]; [lia..|] end.
  simpl.
  match goal with |- context [FluidQuantity.cerp_row q ?a ?b ?c ?d ?y ?e] =>
    destruct (cerp_row_total q a b c d y e Hq) as [q3 ->]; [lia..|] end.
  simpl. by rewrite cerp_1d_zero_left.
Qed.

(** Along a column of zero x-velocity the trace does not leave the
    column. *)
Lemma rungeKutta3_zero_column (q u v : FluidQuantity.t D) (y timestep : D) :
  samplable u -> samplable v -> zero_column u ->
  exists y', FluidQuantity.rungeKutta3 q (0%:D + FluidQuantity._ox u) y timestep u v
             = Some (0%:D + FluidQuantity._ox u, y').
Proof.
  intros Hu Hv Hcol. unfold FluidQuantity.rungeKutta3.
  assert (forall k X : D, X - k * 0%:D = X) as Hsub by (intros; ring).
  rewrite (lerp_zero_column u y Hu Hcol). simpl.
  destruct (lerp_total v (0%:D + FluidQuantity._ox u) y Hv) as [fv ->]. simpl.
  rewrite div_0_l, Hsub.
  rewrite (lerp_zero_column u _ Hu Hcol). simpl.
  match goal with |- context [FluidQuantity.lerp v ?a ?b] =>
    destruct (lerp_total v a b Hv) as [mv ->] end. simpl.
  rewrite div_0_l, Hsub.
  rewrite (lerp_zero_column u _ Hu Hcol). simpl.
  match goal with |- context [FluidQuantity.lerp v ?a ?b] =>
    destruct (lerp_total v a b Hv) as [lv ->] end. simpl.
  eexists. f_equal. f_equal. ring.
Qed.

Lemma rungeKutta3_zero_row (q u v : FluidQuantity.t D) (x timestep : D) :
  samplable u -> samplable v -> zero_row v ->
  exists x', FluidQuantity.rungeKutta3 q x (0%:D + FluidQuantity._oy v) timestep u v
             = Some (x', 0%:D + FluidQuantity._oy v).
Proof.
  intros Hu Hv Hrow. unfold FluidQuantity.rungeKutta3.
  assert (forall k X : D, X - k * 0%:D = X) as Hsub by (intros; ring).
  destruct (lerp_total u x (0%:D + FluidQuantity._oy v) Hu) as [fu ->]. simpl.
  rewrite (lerp_zero_row v x Hv Hrow). simpl.
  rewrite div_0_l, Hsub.
  match goal with |- context [FluidQuantity.lerp u ?a ?b] =>
    destruct (lerp_total u a b Hu) as [mu ->] end. simpl.
  rewrite (lerp_zero_row v _ Hv Hrow). simpl.
  rewrite div_0_l, Hsub.
  match goal with |- context [FluidQuantity.lerp u ?a ?b] =>
    destruct (lerp_total u a b Hu) as [lu ->] end. simpl.
  rewrite (lerp_zero_row v _ Hv Hrow). simpl.
  eexists. f_equal. f_equal. ring.
Qed.

Lemma advect_zero_column (u v u' : FluidQuantity.t D) (timestep : D) :
  samplable u -> samplable v -> zero_column u ->
  FluidQuantity.advect u timestep u v = Some u' ->
  forall y, (0 <= y < FluidQuantity._h u)%Z ->
    rd (FluidQuantity._dst u') (0 + y * FluidQuantity._w u) = Some 0%:D.
Proof.
  intros Hu Hv Hcol. pose proof Hu as (_ & Hw & Hh).
  unfold FluidQuantity.advect. intros Ha.
  destruct (for_range 0 _ _ _) as [[i dst]|] eqn:Hloop; simpl in Ha; [|done].
  injection Ha as <-. simpl.
  apply (grid_loop_idx_inv (fun idx dst => forall y, (0 <= y)%Z ->
           (y * FluidQuantity._w u < idx)%Z ->
           rd dst (y * FluidQuantity._w u) = Some 0%:D)) in Hloop;
    [| lia | lia | | intros; nia].
  - destruct Hloop as [_ Hall]. simpl in Hall. intros y Hy.
    rewrite Z.add_0_l. apply Hall; nia.
  - intros y x t t' Hx Hy HI. unfold FluidQuantity.advect_cell.
    destruct (FluidQuantity.rungeKutta3 _ _ _ _ _ _) as [[x' y']|] eqn:Hrk;
      simpl; [|done].
    destruct (FluidQuantity.cerp u x' y') as [c|] eqn:Hc; simpl; [|done].
    destruct (wr t _ c) as [t1|] eqn:Hwr; simpl; [|done].
    intros [= <-]. simpl. split; [done|].
    intros y0 Hy0 Hlt. rewrite (rd_wr _ _ _ _ _ Hwr). case_decide as Hidx.
    + assert (y0 = y) as ->
        by (destruct (Z.lt_trichotomy y0 y) as [?|[?|?]]; [nia|done|nia]).
      assert (x = 0)%Z as -> by lia.
      destruct (rungeKutta3_zero_column u u v (y%:D + FluidQuantity._oy u)
                  timestep Hu Hv Hcol) as [y'' Hrk'].
      rewrite Hrk' in Hrk. injection Hrk as <- <-.
      rewrite (cerp_zero_column u _ Hu Hcol) in Hc. congruence.
    + apply HI; [done|lia].
Qed.

Lemma advect_zero_row (u v v' : FluidQuantity.t D) (timestep : D) :
  samplable u -> samplable v -> zero_row v ->
  FluidQuantity.advect v timestep u v = Some v' ->
  forall x, (0 <= x < FluidQuantity._w v)%Z ->
    rd (FluidQuantity._dst v') (x + 0 * FluidQuantity._w v) = Some 0%:D.
Proof.
  intros Hu Hv Hrow. pose proof Hv as (_ & Hw & Hh).
  unfold FluidQuantity.advect. intros Ha.
  destruct (for_range 0 _ _ _) as [[i dst]|] eqn:Hloop; simpl in Ha; [|done].
  injection Ha as <-. simpl.
  apply (grid_loop_idx_inv (fun idx dst => forall x,
           (0 <= x < FluidQuantity._w v)%Z -> (x < idx)%Z ->
           rd dst x = Some 0%:D)) in Hloop;
    [| lia | lia | | intros; lia].
  - destruct Hloop as [_ Hall]. simpl in Hall. intros x Hx.
    rewrite Z.add_0_r. apply Hall; nia.
  - intros y x t t' Hx Hy HI. unfold FluidQuantity.advect_cell.
    destruct (FluidQuantity.rungeKutta3 _ _ _ _ _ _) as [[x' y']|] eqn:Hrk;
      simpl; [|done].
    destruct (FluidQuantity.cerp v x' y') as [c|] eqn:Hc; simpl; [|done].
    destruct (wr t _ c) as [t1|] eqn:Hwr; simpl; [|done].
    intros [= <-]. simpl. split; [done|].
    intros x0 Hx0 Hlt. rewrite (rd_wr _ _ _ _ _ Hwr). case_decide as Hidx.
    + assert (y = 0)%Z as -> by nia.
      assert (x0 = x) as -> by lia.
      destruct (rungeKutta3_zero_row v u v (x%:D + FluidQuantity._ox v)
                  timestep Hu Hv Hrow) as [x'' Hrk'].
      rewrite Hrk' in Hrk. injection Hrk as <- <-.
      rewrite (cerp_zero_row v _ Hv Hrow) in Hc. congruence.
    + apply HI; [done|lia].
Qed.

Lemma same_shape_refl (q : FluidQuantity.t D) : same_shape q q.
Proof. by repeat split. Qed.

Lemma same_shape_trans (q1 q2 q3 : FluidQuantity.t D) :
  same_shape q1 q2 -> same_shape q2 q3 -> same_shape q1 q3.
Proof. unfold same_shape. intros (?&?&?&?) (?&?&?&?). repeat split; congruence. Qed.

Lemma same_shape_samplable (q q' : FluidQuantity.t D) :
  same_shape q q' -> samplable q -> samplable q'.
Proof.
  unfold same_shape, samplable, wf_quantity.
  intros (-> & -> & -> & ->). done.
Qed.

Lemma set_at_shape (q q' : FluidQuantity.t D) (x y : Z) (v : D) :
  FluidQuantity.set_at q x y v = Some q' -> same_shape q q'.
Proof.
  intros (?&?&Hd&?)%set_at_fields. unfold same_shape. rewrite Hd. done.
Qed.

Lemma at_sub_shape (q q' : FluidQuantity.t D) (x y : Z) (d : D) :
  FluidSolver.at_sub q x y d = Some q' -> same_shape q q'.
Proof.
  unfold FluidSolver.at_sub. destruct (FluidQuantity.at_ q x y); simpl; [|done].
  apply set_at_shape.
Qed.

Lemma at_add_shape (q q' : FluidQuantity.t D) (x y : Z) (d : D) :
  FluidSolver.at_add q x y d = Some q' -> same_shape q q'.
Proof.
  unfold FluidSolver.at_add. destruct (FluidQuantity.at_ q x y); simpl; [|done].
  apply set_at_shape.
Qed.

Lemma applyPressure_shape (timestep : D) (s s' : FluidSolver.t D) :
  FluidSolver.applyPressure timestep s = Some s' ->
  FluidSolver._w s' = FluidSolver._w s /\ FluidSolver._h s' = FluidSolver._h s /\
  FluidSolver._d s' = FluidSolver._d s /\
  same_shape (FluidSolver._u s) (FluidSolver._u s') /\
  same_shape (FluidSolver._v s) (FluidSolver._v s').
Proof.
  unfold FluidSolver.applyPressure. intros Ha.
  destruct (for_range 0 (FluidSolver._h s) _ _) as [[idx [u v]]|] eqn:H1;
    simpl in Ha; [|done].
  destruct (for_range 0 (FluidSolver._h s) _ u) as [u'|] eqn:H2; simpl in Ha; [|done].
  destruct (for_range 0 (FluidSolver._w s) _ v) as [v'|] eqn:H3; simpl in Ha; [|done].
  injection Ha as <-. simpl. split; [done|]. split; [done|]. split; [done|].
  assert (same_shape (FluidSolver._u s) u /\ same_shape (FluidSolver._v s) v)
    as [Hu Hv].
  { pose (P := fun st : Z * (FluidQuantity.t D * FluidQuantity.t D) =>
             same_shape (FluidSolver._u s) st.2.1 /\
             same_shape (FluidSolver._v s) st.2.2).
    revert H1. apply (for_range_preserves P); [|split; apply same_shape_refl].
    intros y t t' _ Ht. apply (for_range_preserves P); [|done].
    intros x [i [a b]] t1' _ [Ha Hb]. simpl in Ha, Hb.
    unfold FluidSolver.applyPressure_cell.
    destruct (rd (FluidSolver._p s) i) as [pi|]; simpl; [|done].
    destruct (FluidSolver.at_sub a _ _ _) as [a1|] eqn:E1; simpl; [|done].
    destruct (FluidSolver.at_add a1 _ _ _) as [a2|] eqn:E2; simpl; [|done].
    destruct (FluidSolver.at_sub b _ _ _) as [b1|] eqn:E3; simpl; [|done].
    destruct (FluidSolver.at_add b1 _ _ _) as [b2|] eqn:E4; simpl; [|done].
    intros [= <-]. simpl.
    apply at_sub_shape in E1, E3. apply at_add_shape in E2, E4.
    split; eauto using same_shape_trans. }
  split.
  - revert H2. apply (for_range_preserves (same_shape (FluidSolver._u s))); [|done].
    intros y t t' _ Ht. unfold FluidSolver.zero_u_faces.
    destruct (FluidQuantity.set_at t _ _ _) as [t1|] eqn:E1; simpl; [|done].
    intros E2. apply set_at_shape in E1, E2. eauto using same_shape_trans.
  - revert H3. apply (for_range_preserves (same_shape (FluidSolver._v s))); [|done].
    intros y t t' _ Ht. unfold FluidSolver.zero_v_faces.
    destruct (FluidQuantity.set_at t _ _ _) as [t1|] eqn:E1; simpl; [|done].
    intros E2. apply set_at_shape in E1, E2. eauto using same_shape_trans.
Qed.

Lemma advect_shape (q u v q' : FluidQuantity.t D) (timestep : D) :
  FluidQuantity.advect q timestep u v = Some q' ->
  FluidQuantity._src q' = FluidQuantity._src q /\ same_shape q q'.
Proof.
  unfold FluidQuantity.advect. intros Ha.
  destruct (for_range 0 _ _ _) as [[i dst]|] eqn:Hloop; simpl in Ha; [|done].
  injection Ha as <-. simpl. split; [done|]. unfold same_shape. simpl.
  repeat split.
  pose (P := fun st : Z * list D => length st.2 = length (FluidQuantity._dst q)).
  revert Hloop. apply (for_range_preserves P); [|done].
  intros y t t' _ Ht. apply (for_range_preserves P); [|done].
  intros x [j b] t1 _ Hb. unfold P in *. simpl in Hb.
  unfold FluidQuantity.advect_cell.
  destruct (FluidQuantity.rungeKutta3 _ _ _ _ _ _) as [[x' y']|]; simpl; [|done].
  destruct (FluidQuantity.cerp q x' y') as [c|]; simpl; [|done].
  destruct (wr b j c) as [b'|] eqn:Hwr; simpl; [|done].
  intros [= <-]. simpl. rewrite <- Hb. by eapply wr_length.
Qed.

Lemma solver_loop_fields (sweep : FluidSolver.t D -> option (FluidSolver.t D * D))
    (limit : Z) (fuel : nat) (iter : Z) (md : option D)
    (s s' : FluidSolver.t D) (rep : report D) :
  (forall a a' delta, sweep a = Some (a', delta) -> solver_fields a' = solver_fields a) ->
  FluidSolver.solver_loop sweep limit fuel iter md s = Some (s', rep) ->
  solver_fields s' = solver_fields s.
Proof.
  intros Hsweep. revert iter md s.
  induction fuel as [|fuel IH]; intros iter md s; simpl.
  - by intros [= <- <-].
  - destruct (sweep s) as [[s1 delta]|] eqn:Hs; simpl; [|done].
    apply Hsweep in Hs.
    destruct (delta <? 1%/100000); [intros [= <- <-]; done|].
    intros Hrun%IH. congruence.
Qed.

Lemma solve_fields (timestep : D) (s s' : FluidSolver.t D) (rep : report D) :
  FluidSolver.solve timestep s = Some (s', rep) -> solver_fields s' = solver_fields s.
Proof.
  unfold FluidSolver.solve, FluidSolver.project, FluidSolver.project_jacobi.
  destruct (FluidSolver.iteration_type s); apply solver_loop_fields.
  - intros a a' delta. unfold FluidSolver.project_sweep.
    destruct (for_range _ _ _ _) as [[md p]|]; simpl; [|done]. by intros [= <- <-].
  - intros a a' delta. unfold FluidSolver.project_jacobi_sweep.
    destruct (for_range _ _ _ _) as [[md p2]|]; simpl; [|done].
    destruct (memcpy _ _ _); simpl; [|done]. by intros [= <- <-].
Qed.

Lemma buildRhs_fields (s s' : FluidSolver.t D) :
  FluidSolver.buildRhs s = Some s' -> solver_fields s' = solver_fields s.
Proof.
  unfold FluidSolver.buildRhs.
  destruct (for_range _ _ _ _) as [[i r]|]; simpl; [|done]. by intros [= <-].
Qed.

(** In exact arithmetic, a full step leaves 0 on the faces of u at x = 0
    and on the faces of v at y = 0: the trace from such a face stays on the
    wall, where the samples are 0. *)
Lemma walls_stay_zero (timestep : D) (s s' : FluidSolver.t D) (rep : report D) :
  wf_solver s -> (2 <= FluidSolver._w s)%Z -> (2 <= FluidSolver._h s)%Z ->
  FluidSolver.update timestep s = Some (s', rep) ->
  (forall y, (0 <= y < FluidSolver._h s')%Z ->
     FluidQuantity.at_ (FluidSolver._u s') 0 y = Some 0%:D) /\
  (forall x, (0 <= x < FluidSolver._w s')%Z ->
     FluidQuantity.at_ (FluidSolver._v s') x 0 = Some 0%:D).
Proof.
  intros Hwf Hw Hh (s1 & s2 & s3 & s4 & H1 & H2 & H3 & H4 & ->)%update_stages.
  apply buildRhs_fields in H1. apply solve_fields in H2.
  pose proof (applyPressure_boundary _ _ _ H3) as [Hbu Hbv].
  apply applyPressure_shape in H3 as (Ew & Eh & _ & Su & Sv).
  assert (solver_fields s2 = solver_fields s) as Hf by congruence.
  unfold solver_fields in Hf. injection Hf as Ed Eu Ev Ew2 Eh2.
  rewrite Eu in Su. rewrite Ev in Sv. rewrite Ew2 in Ew. rewrite Eh2 in Eh.
  destruct Hwf as (_ & Hwu & Hwv & _ & _ & Euw & Euh & Evw & Evh & _).
  assert (samplable (FluidSolver._u s3)) as Hsu.
  { apply (same_shape_samplable _ _ Su). split; [done|]. lia. }
  assert (samplable (FluidSolver._v s3)) as Hsv.
  { apply (same_shape_samplable _ _ Sv). split; [done|]. lia. }
  destruct Su as (Suw & Suh & _). destruct Sv as (Svw & Svh & _).
  assert (zero_column (FluidSolver._u s3)) as Hcol.
  { intros j Hj. apply Hbu. lia. }
  assert (zero_row (FluidSolver._v s3)) as Hrow.
  { intros i Hi. apply Hbv. lia. }
  unfold FluidSolver.advect_all in H4.
  destruct (FluidQuantity.advect (FluidSolver._d s3) _ _ _) as [d4|];
    simpl in H4; [|done].
  destruct (FluidQuantity.advect (FluidSolver._u s3) _ _ _) as [u4|] eqn:Hu4;
    simpl in H4; [|done].
  destruct (FluidQuantity.advect (FluidSolver._v s3) _ _ _) as [v4|] eqn:Hv4;
    simpl in H4; [|done].
  injection H4 as <-. simpl.
  pose proof (advect_shape _ _ _ _ _ Hu4) as [Hsrc4 Sh4].
  assert (samplable u4) as Hsu4.
  { destruct Hsu as ((? & ? & Hl & ?) & ? & ?). destruct Sh4 as (E1 & E2 & E3 & E4).
    unfold samplable, wf_quantity. rewrite E1, E2, E3, E4. done. }
  pose proof (advect_shape _ _ _ _ _ Hv4) as [_ (Ev4w & _)].
  destruct Sh4 as (Eu4w & _).
  split.
  - intros y Hy. unfold FluidQuantity.at_, FluidQuantity.idx_of. simpl.
    rewrite Eu4w. apply (advect_zero_column _ _ _ _ Hsu Hsv Hcol Hu4). lia.
  - intros x Hx. unfold FluidQuantity.at_, FluidQuantity.idx_of. simpl.
    rewrite Ev4w. apply (advect_zero_row _ _ _ _ Hsu4 Hsv Hrow Hv4). lia.
Qed.

(** C2 (amended).  In exact arithmetic, for a solver of at least 2x2 cells,
    in every full simulation step: the state the projection
    ([applyPressure]) hands to the advection has exactly 0 on every
    domain-boundary face of both velocity fields (u at x = 0 and x = width,
    v at y = 0 and y = height); and the state the step ends with still has
    exactly 0 on the faces of u at x = 0 and of v at y = 0.  (The faces of
    u at x = width and of v at y = height end the step with resampled
    values.) *)
Theorem boundary_faces_through_step (timestep : D)
    (s s' : FluidSolver.t D) (rep : report D) :
  wf_solver s -> (2 <= FluidSolver._w s)%Z -> (2 <= FluidSolver._h s)%Z ->
  FluidSolver.update timestep s = Some (s', rep) ->
  (exists s2 s3 s4,
     (s1 ← FluidSolver.buildRhs s; FluidSolver.solve timestep s1) = Some (s2, rep) /\
     FluidSolver.applyPressure timestep s2 = Some s3 /\
     boundary_faces_zero s3 /\
     FluidSolver.advect_all timestep s3 = Some s4 /\
     s' = FluidSolver.flip_all s4) /\
  (forall y, (0 <= y < FluidSolver._h s')%Z ->
     FluidQuantity.at_ (FluidSolver._u s') 0 y = Some 0%:D) /\
  (forall x, (0 <= x < FluidSolver._w s')%Z ->
     FluidQuantity.at_ (FluidSolver._v s') x 0 = Some 0%:D).
Proof.
  intros Hwf Hw Hh Hu. split.
  - exact (projection_boundary_in_update timestep s s' rep Hu).
  - exact (walls_stay_zero timestep s s' rep Hwf Hw Hh Hu).
Qed.
End BoundaryThroughAdvection.

Section WallExamples.
Local Open Scope double_scope.

Lemma vortex_wf : wf_solver vortex.
Proof. unfold wf_solver, wf_quantity. simpl. lia. Qed.

Lemma vortex_update : FluidSolver.update 1%/10 vortex = Some vortex_next.
Proof. vm_compute. reflexivity. Qed.

Lemma boundary_faces_through_step_witness :
  (wf_solver vortex /\ (2 <= FluidSolver._w vortex)%Z /\
   (2 <= FluidSolver._h vortex)%Z /\
   FluidSolver.update 1%/10 vortex = Some (vortex_next.1, vortex_next.2)) /\
  (exists s2 s3 s4,
     (s1 ← FluidSolver.buildRhs vortex; FluidSolver.solve 1%/10 s1)
       = Some (s2, vortex_next.2) /\
     FluidSolver.applyPressure 1%/10 s2 = Some s3 /\
     boundary_faces_zero s3 /\
     FluidSolver.advect_all 1%/10 s3 = Some s4 /\
     vortex_next.1 = FluidSolver.flip_all s4) /\
  (forall y, (0 <= y < FluidSolver._h vortex_next.1)%Z ->
     FluidQuantity.at_ (FluidSolver._u vortex_next.1) 0 y = Some 0%:D) /\
  (forall x, (0 <= x < FluidSolver._w vortex_next.1)%Z ->
     FluidQuantity.at_ (FluidSolver._v vortex_next.1) x 0 = Some 0%:D).
Proof.
  assert (2 <= FluidSolver._w vortex)%Z as Hw by (simpl; lia).
  assert (2 <= FluidSolver._h vortex)%Z as Hh by (simpl; lia).
  assert (FluidSolver.update 1%/10 vortex = Some (vortex_next.1, vortex_next.2))
    as Hu by (vm_compute; reflexivity).
  split; [exact (conj vortex_wf (conj Hw (conj Hh Hu)))|].
  exact (boundary_faces_through_step 1%/10 vortex vortex_next.1 vortex_next.2
           vortex_wf Hw Hh Hu).
Defined.

(** In exact arithmetic too the faces at x = width and y = height end that
    step with values that are not 0. *)
Lemma vortex_far_faces :
  this <$> FluidQuantity.at_ (FluidSolver._u vortex_next.1) 2 0
    = Some (1003997 # 2000000000)%Q /\
  this <$> FluidQuantity.at_ (FluidSolver._v vortex_next.1) 1 2
    = Some (501494996508497 # 1000000000000000000)%Q.
Proof. split; vm_compute; reflexivity. Qed.
End WallExamples.

Section SamplingExamples.
Local Open Scope double_scope.

(** C7 (counterexample).  At the grid point (1, 0) of the last column the
    local coordinate 1 is clamped to 2 - 1.001 = 0.999: the sample is
    1*(1 - 0.999) + 2*0.999 = 1.999, not the stored value 2. *)
Lemma lerp_last_column_blends :
  let q : FluidQuantity.t Qc := sample_grid in
  ((0 <= 1 < FluidQuantity._w q)%Z /\ (0 <= 0 < FluidQuantity._h q)%Z) /\
  this <$> FluidQuantity.at_ q 1 0 = Some (2 # 1)%Q /\
  this <$> FluidQuantity.lerp q (1%:D + FluidQuantity._ox q)
                                (0%:D + FluidQuantity._oy q)
    = Some (1999 # 1000)%Q.
Proof. split; [simpl; lia|]. split; vm_compute; reflexivity. Qed.

(** The same with binary64 numbers: the sample lies between 2 - 2^-9 and
    2 - 2^-10. *)
Lemma lerp_last_column_blends_float :
  let q : FluidQuantity.t float := sample_grid in
  FluidQuantity.at_ q 1 0 = Some 2%float /\
  (x ← FluidQuantity.lerp q (1%:D + FluidQuantity._ox q)
                           (0%:D + FluidQuantity._oy q);
   Some ((0x1.ffp+0 <? x)%float && (x <? 0x1.ffcp+0)%float)) = Some true.
Proof. split; vm_compute; reflexivity. Qed.

Lemma lerp_at_grid_point_witness :
  let q : FluidQuantity.t Qc := sample_grid in
  (Z.of_nat (length (FluidQuantity._src q))
     = (FluidQuantity._w q * FluidQuantity._h q)%Z /\
   (0 <= 0 <= FluidQuantity._w q - 2)%Z /\ (0 <= 0 <= FluidQuantity._h q - 2)%Z) /\
  exists v, FluidQuantity.at_ q 0 0 = Some v /\
    FluidQuantity.lerp q (0%:D + FluidQuantity._ox q) (0%:D + FluidQuantity._oy q)
      = Some v.
Proof.
  intros q.
  assert (Z.of_nat (length (FluidQuantity._src q))
            = (FluidQuantity._w q * FluidQuantity._h q)%Z) as Hlen by reflexivity.
  assert (0 <= 0 <= FluidQuantity._w q - 2)%Z as Hx by (simpl; lia).
  assert (0 <= 0 <= FluidQuantity._h q - 2)%Z as Hy by (simpl; lia).
  split; [done|].
  exact (lerp_at_grid_point q 0 0 Hlen Hx Hy).
Defined.

Lemma sample_grid_samplable : samplable (sample_grid (D:=Qc)).
Proof. unfold samplable, wf_quantity. simpl. lia. Qed.

Lemma rk_u_samplable : samplable rk_u.
Proof. unfold samplable, wf_quantity. simpl. lia. Qed.

Lemma rk_v_samplable : samplable rk_v.
Proof. unfold samplable, wf_quantity. simpl. lia. Qed.

Lemma sample_grid_bounds :
  Forall (fun x : Qc => dle 1%:D x /\ dle x 4%:D)
    (FluidQuantity._src (sample_grid (D:=Qc))).
Proof. repeat constructor. Qed.


(** What that advection writes: the field moved by the uniform velocity
    (1, 0). *)
Lemma advect_example :
  (q' ← FluidQuantity.advect (sample_grid (D:=Qc)) 1%/10 rk_u rk_v;
   Some (fracs (FluidQuantity._dst q')))
  = Some [1; 172198 # 91125; 1499498501 # 500000000;
          1417426407229 # 364500000000]%Q.
Proof. vm_compute. reflexivity. Qed.

(** On a field with a single column the stencil of [cerp] leaves the
    buffer: [advect] has no defined result there. *)
Lemma advect_single_column :
  FluidQuantity.advect (const_quantity (D:=Qc) 1 2 1%/2 1%/2 1%/2 0%:D)
    1%/10 rk_u rk_v = None.
Proof. vm_compute. reflexivity. Qed.
End SamplingExamples.

(** * Further properties *)

(** ** Cells and loops over the grid *)

Section GridFacts.
Context {D : Type} `{Double D}.
Local Open Scope double_scope.

(** Within a row of width [w] a linear index determines the cell. *)
Lemma cell_index_inj (w a b x y : Z) :
  (0 <= a < w)%Z -> (0 <= x < w)%Z ->
  (a + b * w = x + y * w)%Z -> a = x /\ b = y.
Proof.
  intros Ha Hx He.
  assert (b = y) as -> by (destruct (Z.lt_trichotomy b y) as [?|[?|?]]; [nia|done|nia]).
  split; [lia|done].
Qed.

Lemma at_set_at (q q' : FluidQuantity.t D) (x y a b : Z) (v : D) :
  FluidQuantity.set_at q x y v = Some q' ->
  (0 <= x < FluidQuantity._w q)%Z -> (0 <= a < FluidQuantity._w q)%Z ->
  FluidQuantity.at_ q' a b =
    if decide (a = x /\ b = y) then Some v else FluidQuantity.at_ q a b.
Proof.
  unfold FluidQuantity.set_at, FluidQuantity.at_, FluidQuantity.idx_of.
  intros Hs Hx Ha.
  destruct (wr _ _ _) as [s1|] eqn:Hw; simpl in Hs; [|done].
  injection Hs as <-. simpl. rewrite (rd_wr _ _ _ _ _ Hw).
  destruct (decide (a = x /\ b = y)) as [[-> ->]|Hne].
  - by rewrite decide_True.
  - rewrite decide_False; [done|]. intros He. apply Hne.
    by apply (cell_index_inj (FluidQuantity._w q)).
Qed.

Lemma set_at_is_Some (q : FluidQuantity.t D) (x y : Z) (v : D) :
  (0 <= x + y * FluidQuantity._w q < Z.of_nat (length (FluidQuantity._src q)))%Z ->
  exists q', FluidQuantity.set_at q x y v = Some q'.
Proof.
  intros Hi. unfold FluidQuantity.set_at, FluidQuantity.idx_of.
  destruct (wr_is_Some (FluidQuantity._src q) _ v Hi) as [b ->]. simpl. eauto.
Qed.

(** A double loop over the grid: an invariant indexed by the number of
    cells already visited, in row-major order. *)
Lemma grid_loop_cells_total {St : Type} (I : Z -> St -> Prop) (w h : Z)
    (body : Z -> Z -> St -> option St) (a : St) :
  (0 <= w)%Z -> (0 <= h)%Z ->
  (forall y x t, (0 <= x < w)%Z -> (0 <= y < h)%Z -> I (x + y * w)%Z t ->
     exists t', body y x t = Some t' /\ I (x + y * w + 1)%Z t') ->
  I 0%Z a ->
  exists a', for_range 0 h (fun y st => for_range 0 w (body y) st) a = Some a' /\
             I (w * h)%Z a'.
Proof.
  intros Hw Hh Hbody Ha.
  destruct (for_range_total (fun y st => I (y * w)%Z st)
              0 h (fun y st => for_range 0 w (body y) st) a)
    as (a' & Hrun & Ha'); [done| |done|].
  - intros y b Hy Hb.
    destruct (for_range_total (fun x st => I (x + y * w)%Z st) 0 w (body y) b)
      as (b' & Hrun & Hb'); [done| |done|].
    + intros x c Hx Hc.
      destruct (Hbody y x c) as (c' & Hcell & Hc'); [done..|].
      exists c'. split; [done|].
      by replace (x + 1 + y * w)%Z with (x + y * w + 1)%Z by lia.
    + exists b'. split; [done|].
      by replace ((y + 1) * w)%Z with (w + y * w)%Z by lia.
  - exists a'. split; [done|]. by replace (w * h)%Z with (h * w)%Z by lia.
Qed.
End GridFacts.

Section CellCover.
Context {D : Type} `{Double D}.
Local Open Scope double_scope.

Lemma rd_Forall (P : D -> Prop) (b : list D) (i : Z) (v : D) :
  Forall P b -> rd b i = Some v -> P v.
Proof. intros HP [_ Hv]%rd_Some. by eapply Forall_lookup_1. Qed.

(** A property of every cell of a grid is a property of the whole
    buffer. *)
Lemma Forall_cells (P : D -> Prop) (w h : Z) (b : list D) :
  (0 <= w)%Z -> (0 <= h)%Z -> Z.of_nat (length b) = (w * h)%Z ->
  (forall x y, (0 <= x < w)%Z -> (0 <= y < h)%Z ->
     exists v, rd b (x + y * w) = Some v /\ P v) ->
  Forall P b.
Proof.
  intros Hw Hh Hlen Hcells. apply Forall_lookup_2. intros n v Hn.
  pose proof (lookup_lt_Some _ _ _ Hn) as Hlt.
  assert (0 < w)%Z as Hw' by nia.
  pose proof (Z.div_mod (Z.of_nat n) w ltac:(lia)) as Hdm.
  pose proof (Z.mod_pos_bound (Z.of_nat n) w Hw') as Hm.
  assert (0 <= Z.of_nat n / w)%Z as Hd0 by (apply Z.div_pos; lia).
  assert (Z.of_nat n / w < h)%Z as Hd1 by (apply Z.div_lt_upper_bound; lia).
  destruct (Hcells (Z.of_nat n mod w) (Z.of_nat n / w))%Z as (v' & Hv' & HP);
    [done|lia|].
  replace (Z.of_nat n `mod` w + Z.of_nat n `div` w * w)%Z with (Z.of_nat n) in Hv'
    by lia.
  apply rd_Some in Hv' as [_ Hv']. rewrite Nat2Z.id in Hv'. congruence.
Qed.
End CellCover.

(** ** The right-hand side of the pressure equation *)

Section BuildRhs.
Context {D : Type} `{Double D}.
Local Open Scope double_scope.

Lemma buildRhs_cells (s : FluidSolver.t D) :
  wf_solver s ->
  exists r,
    FluidSolver.buildRhs s = Some (FluidSolver.set_r s r) /\
    length r = length (FluidSolver._r s) /\
    forall x y, (0 <= x < FluidSolver._w s)%Z -> (0 <= y < FluidSolver._h s)%Z ->
      exists u1 u0 v1 v0,
        FluidQuantity.at_ (FluidSolver._u s) (x + 1) y = Some u1 /\
        FluidQuantity.at_ (FluidSolver._u s) x y = Some u0 /\
        FluidQuantity.at_ (FluidSolver._v s) x (y + 1) = Some v1 /\
        FluidQuantity.at_ (FluidSolver._v s) x y = Some v0 /\
        rd r (x + y * FluidSolver._w s) =
          Some (- (1%:D / FluidSolver._hx s) * (u1 - u0 + v1 - v0)).
Proof.
  intros ((Hdw & Hdh & _) & (_ & _ & Hu & _) & (_ & _ & Hv & _) &
          Edw & Edh & Euw & Euh & Evw & Evh & Hr & _).
  unfold FluidSolver.buildRhs.
  set (w := FluidSolver._w s) in *. set (h := FluidSolver._h s) in *.
  set (scale := 1%:D / FluidSolver._hx s).
  set (I := fun (idx : Z) (r : list D) =>
    length r = length (FluidSolver._r s) /\
    forall x y, (0 <= x < w)%Z -> (0 <= y < h)%Z -> (x + y * w < idx)%Z ->
      exists u1 u0 v1 v0,
        FluidQuantity.at_ (FluidSolver._u s) (x + 1) y = Some u1 /\
        FluidQuantity.at_ (FluidSolver._u s) x y = Some u0 /\
        FluidQuantity.at_ (FluidSolver._v s) x (y + 1) = Some v1 /\
        FluidQuantity.at_ (FluidSolver._v s) x y = Some v0 /\
        rd r (x + y * w) = Some (- scale * (u1 - u0 + v1 - v0))).
  destruct (grid_loop_idx_total I w h (FluidSolver.buildRhs_cell s scale)
              (FluidSolver._r s)) as (r & -> & Hlen & Hcells);
    [lia|lia| |split; [done|intros; nia]|].
  - intros y x t Hx Hy [Ht Hprev]. unfold FluidSolver.buildRhs_cell.
    unfold FluidQuantity.at_, FluidQuantity.idx_of. rewrite Euw, Evw.
    rewrite Euw, Euh in Hu. rewrite Evw, Evh in Hv. fold w h in Hu, Hv |- *.
    destruct (rd_is_Some (FluidQuantity._src (FluidSolver._u s))
                (x + 1 + y * (w + 1))%Z) as [u1 Hu1]; [nia|].
    destruct (rd_is_Some (FluidQuantity._src (FluidSolver._u s))
                (x + y * (w + 1))%Z) as [u0 Hu0]; [nia|].
    destruct (rd_is_Some (FluidQuantity._src (FluidSolver._v s))
                (x + (y + 1) * w)%Z) as [v1 Hv1]; [nia|].
    destruct (rd_is_Some (FluidQuantity._src (FluidSolver._v s))
                (x + y * w)%Z) as [v0 Hv0]; [nia|].
    rewrite Hu1, Hu0, Hv1, Hv0. simpl.
    destruct (wr_is_Some t (x + y * w)%Z (- scale * (u1 - u0 + v1 - v0)))
      as [t' Hw]; [nia|].
    rewrite Hw. simpl. exists t'. split; [done|]. split.
    + rewrite <- Ht. by eapply wr_length.
    + intros a b Ha Hb Hlt. rewrite (rd_wr _ _ _ _ _ Hw). case_decide as Hi.
      * symmetry in Hi. apply (cell_index_inj w) in Hi as [-> ->]; [|done..].
        exists u1, u0, v1, v0.
        unfold FluidQuantity.at_, FluidQuantity.idx_of. rewrite Euw, Evw.
        by rewrite Hu1, Hu0, Hv1, Hv0.
      * apply Hprev; [done..|lia].
  - simpl. exists r. split; [done|]. split; [done|].
    intros x y Hx Hy. apply Hcells; [done..|]. nia.
Qed.
(** X1.  On a well-formed solver [buildRhs] returns, changes nothing but
    [_r], and leaves in the entry of every cell (x, y) the value
    [-scale*(u(x+1, y) - u(x, y) + v(x, y+1) - v(x, y))] with
    [scale = 1/_hx], computed from the four faces of the cell in this
    order of operations. *)
Theorem buildRhs_divergence (s : FluidSolver.t D) :
  wf_solver s ->
  exists r,
    FluidSolver.buildRhs s = Some (FluidSolver.set_r s r) /\
    length r = length (FluidSolver._r s) /\
    forall x y, (0 <= x < FluidSolver._w s)%Z -> (0 <= y < FluidSolver._h s)%Z ->
      exists u1 u0 v1 v0,
        FluidQuantity.at_ (FluidSolver._u s) (x + 1) y = Some u1 /\
        FluidQuantity.at_ (FluidSolver._u s) x y = Some u0 /\
        FluidQuantity.at_ (FluidSolver._v s) x (y + 1) = Some v1 /\
        FluidQuantity.at_ (FluidSolver._v s) x y = Some v0 /\
        rd r (x + y * FluidSolver._w s) =
          Some (- (1%:D / FluidSolver._hx s) * (u1 - u0 + v1 - v0)).
Proof. exact (buildRhs_cells s). Qed.
End BuildRhs.

(** ** One sweep of the pressure solve *)

Section JacobiSweep.
Context {D : Type} `{OrderLaws D}.
Local Open Scope double_scope.

Lemma project_jacobi_sweep_run (scale : D) (s : FluidSolver.t D) :
  wf_pressure (FluidSolver._w s) (FluidSolver._h s) s ->
  exists p delta,
    FluidSolver.project_jacobi_sweep scale s
      = Some (FluidSolver.set_p (FluidSolver.set_p2 s p) p, delta) /\
    length p = length (FluidSolver._p s) /\
    (forall x y, (0 <= x < FluidSolver._w s)%Z -> (0 <= y < FluidSolver._h s)%Z ->
       exists newP old,
         FluidSolver.newP_cell s scale (FluidSolver._p s) x y = Some newP /\
         rd (FluidSolver._p s) (x + y * FluidSolver._w s) = Some old /\
         rd p (x + y * FluidSolver._w s) = Some newP /\
         dle (dfabs (old - newP)) delta) /\
    (delta = 0%:D \/
     exists x y newP old,
       (0 <= x < FluidSolver._w s)%Z /\ (0 <= y < FluidSolver._h s)%Z /\
       FluidSolver.newP_cell s scale (FluidSolver._p s) x y = Some newP /\
       rd (FluidSolver._p s) (x + y * FluidSolver._w s) = Some old /\
       delta = dfabs (old - newP)).
Proof.
  intros (_ & _ & Hw & Hh & Hr & Hp & Hp2).
  unfold FluidSolver.project_jacobi_sweep.
  set (w := FluidSolver._w s) in *. set (h := FluidSolver._h s) in *.
  set (I := fun (idx : Z) (st : D * list D) =>
    length st.2 = length (FluidSolver._p2 s) /\
    (forall x y, (0 <= x < w)%Z -> (0 <= y < h)%Z -> (x + y * w < idx)%Z ->
       exists newP old,
         FluidSolver.newP_cell s scale (FluidSolver._p s) x y = Some newP /\
         rd (FluidSolver._p s) (x + y * w) = Some old /\
         rd st.2 (x + y * w) = Some newP /\
         dle (dfabs (old - newP)) st.1) /\
    (st.1 = 0%:D \/
     exists x y newP old,
       (0 <= x < w)%Z /\ (0 <= y < h)%Z /\
       FluidSolver.newP_cell s scale (FluidSolver._p s) x y = Some newP /\
       rd (FluidSolver._p s) (x + y * w) = Some old /\
       st.1 = dfabs (old - newP))).
  destruct (grid_loop_cells_total I w h (FluidSolver.project_jacobi_cell s scale)
              (0%:D, FluidSolver._p2 s))
    as ([delta p2] & -> & Hlen & Hcells & Hmax); [done|done| | |].
  - intros y x [md p2] Hx Hy (Hl & Hprev & Hatt). simpl in Hl, Hprev, Hatt.
    unfold FluidSolver.project_jacobi_cell. fold w.
    destruct (newP_cell_total s scale (FluidSolver._p s) x y) as [newP HnewP];
      [done|done|done|done|].
    rewrite HnewP. simpl.
    destruct (rd_is_Some (FluidSolver._p s) (x + y * w)%Z) as [old Hold]; [nia|].
    rewrite Hold. simpl.
    destruct (wr_is_Some p2 (x + y * w)%Z newP) as [p2' Hwr]; [nia|].
    rewrite Hwr. simpl. eexists. split; [done|]. simpl.
    split; [rewrite <- Hl; by eapply wr_length|]. split.
    + intros a b Ha Hb Hlt. rewrite (rd_wr _ _ _ _ _ Hwr). case_decide as Hi.
      * symmetry in Hi. apply (cell_index_inj w) in Hi as [-> ->]; [|done..].
        exists newP, old. repeat (split; [done|]). apply dmax_lower_r.
      * destruct (Hprev a b) as (n' & o' & E1 & E2 & E3 & E4); [done|done|lia|].
        exists n', o'. repeat (split; [done|]).
        eapply dle_trans; [exact E4|apply dmax_lower_l].
    + unfold dmax. destruct (md <? dfabs (old - newP)).
      * right. by exists x, y, newP, old.
      * done.
  - split; [done|]. split; [intros; nia|by left].
  - simpl in *. unfold memcpy. fold w h. rewrite decide_True by lia. simpl.
    assert (take (Z.to_nat (w * h)) p2 ++ drop (Z.to_nat (w * h)) (FluidSolver._p s)
            = p2) as ->.
    { rewrite take_ge by lia. rewrite drop_ge by lia. apply app_nil_r. }
    exists p2, delta. split; [done|]. split; [lia|]. split; [|done].
    intros x y Hx Hy. apply Hcells; [done..|nia].
Qed.
(** X2.  One sweep of [project_jacobi] on buffers of the size of the
    grid returns; the new pressure of every cell is [newP] computed from
    the pressures before the sweep only (never from a value the same sweep
    produced, and never from what [_p2] held); afterwards [_p] and [_p2]
    hold the same buffer; and [maxDelta] is the largest change
    [fabs(_p[idx] - newP)] of a cell: no change exceeds it, and it is 0 or
    the change of some cell. *)
Theorem project_jacobi_sweep_cells (scale : D) (s : FluidSolver.t D) :
  wf_pressure (FluidSolver._w s) (FluidSolver._h s) s ->
  exists p delta,
    FluidSolver.project_jacobi_sweep scale s
      = Some (FluidSolver.set_p (FluidSolver.set_p2 s p) p, delta) /\
    length p = length (FluidSolver._p s) /\
    (forall x y, (0 <= x < FluidSolver._w s)%Z -> (0 <= y < FluidSolver._h s)%Z ->
       exists newP old,
         FluidSolver.newP_cell s scale (FluidSolver._p s) x y = Some newP /\
         rd (FluidSolver._p s) (x + y * FluidSolver._w s) = Some old /\
         rd p (x + y * FluidSolver._w s) = Some newP /\
         dle (dfabs (old - newP)) delta) /\
    (delta = 0%:D \/
     exists x y newP old,
       (0 <= x < FluidSolver._w s)%Z /\ (0 <= y < FluidSolver._h s)%Z /\
       FluidSolver.newP_cell s scale (FluidSolver._p s) x y = Some newP /\
       rd (FluidSolver._p s) (x + y * FluidSolver._w s) = Some old /\
       delta = dfabs (old - newP)).
Proof. exact (project_jacobi_sweep_run scale s). Qed.
End JacobiSweep.

Section GaussSeidel.
Context {D : Type} `{OrderLaws D}.
Local Open Scope double_scope.

Lemma seen_by_current (i : Z) (pc p : list D) :
  (forall j, (i <= j)%Z -> rd pc j = rd p j) -> (0 <= i)%Z ->
  seen_by i pc p = pc.
Proof.
  intros Hsame Hi. unfold seen_by.
  assert (drop (Z.to_nat i) p = drop (Z.to_nat i) pc) as ->.
  { apply list_eq. intros k. rewrite !lookup_drop.
    specialize (Hsame (Z.of_nat (Z.to_nat i + k)) ltac:(lia)).
    unfold rd in Hsame. rewrite !decide_True in Hsame by lia.
    rewrite Nat2Z.id in Hsame. done. }
  apply take_drop.
Qed.

Lemma seen_by_wr (i j : Z) (pc pc' p : list D) (v : D) :
  wr pc j v = Some pc' -> (0 <= i <= j)%Z -> seen_by i pc' p = seen_by i pc p.
Proof.
  intros [Hj ->]%wr_Some Hi. unfold seen_by. f_equal.
  apply take_insert_ge. lia.
Qed.

Lemma project_sweep_run (scale : D) (s : FluidSolver.t D) :
  wf_pressure (FluidSolver._w s) (FluidSolver._h s) s ->
  exists p delta,
    FluidSolver.project_sweep scale s = Some (FluidSolver.set_p s p, delta) /\
    length p = length (FluidSolver._p s) /\
    forall x y, (0 <= x < FluidSolver._w s)%Z -> (0 <= y < FluidSolver._h s)%Z ->
      let i := (x + y * FluidSolver._w s)%Z in
      exists newP old,
        FluidSolver.newP_cell s scale (seen_by i p (FluidSolver._p s)) x y = Some newP /\
        rd (FluidSolver._p s) i = Some old /\
        rd p i = Some newP /\
        dle (dfabs (old - newP)) delta.
Proof.
  intros (_ & _ & Hw & Hh & Hr & Hp & Hp2).
  unfold FluidSolver.project_sweep.
  set (w := FluidSolver._w s) in *. set (h := FluidSolver._h s) in *.
  set (p0 := FluidSolver._p s) in *.
  set (I := fun (idx : Z) (st : D * list D) =>
    length st.2 = length p0 /\
    (forall j, (idx <= j)%Z -> rd st.2 j = rd p0 j) /\
    (forall x y, (0 <= x < w)%Z -> (0 <= y < h)%Z -> (x + y * w < idx)%Z ->
       exists newP old,
         FluidSolver.newP_cell s scale (seen_by (x + y * w) st.2 p0) x y = Some newP /\
         rd p0 (x + y * w) = Some old /\
         rd st.2 (x + y * w) = Some newP /\
         dle (dfabs (old - newP)) st.1)).
  destruct (grid_loop_cells_total I w h (FluidSolver.project_cell s scale) (0%:D, p0))
    as ([delta p] & -> & Hlen & _ & Hcells); [done|done| | |].
  - intros y x [md pc] Hx Hy (Hl & Hsame & Hprev). simpl in Hl, Hsame, Hprev.
    unfold FluidSolver.project_cell. fold w.
    pose proof (cell_index_bounds _ _ x y Hx Hy) as Hi.
    destruct (newP_cell_total s scale pc x y) as [newP HnewP];
      [done|done|done|lia|].
    rewrite HnewP. simpl.
    destruct (rd_is_Some pc (x + y * w)%Z) as [old Hold]; [lia|].
    rewrite Hold. simpl.
    destruct (wr_is_Some pc (x + y * w)%Z newP) as [pc' Hwr]; [lia|].
    rewrite Hwr. simpl. eexists. split; [done|]. simpl.
    split; [rewrite <- Hl; by eapply wr_length|]. split.
    + intros j Hj. rewrite (rd_wr _ _ _ _ _ Hwr). rewrite decide_False by lia.
      apply Hsame. lia.
    + intros a b Ha Hb Hlt.
      pose proof (cell_index_bounds _ _ a b Ha Hb) as Hab.
      rewrite (seen_by_wr _ _ _ _ _ _ Hwr) by lia.
      rewrite (rd_wr _ _ _ _ _ Hwr). case_decide as Hidx.
      * symmetry in Hidx. apply (cell_index_inj w) in Hidx as [-> ->]; [|done..].
        exists newP, old. rewrite seen_by_current by (done || lia).
        split; [done|]. split; [rewrite <- Hsame by lia; done|].
        split; [done|]. apply dmax_lower_r.
      * destruct (Hprev a b) as (n' & o' & E1 & E2 & E3 & E4); [done|done|lia|].
        exists n', o'. repeat (split; [done|]).
        eapply dle_trans; [exact E4|apply dmax_lower_l].
  - simpl. split; [done|]. split; [done|]. intros; nia.
  - simpl in *. exists p, delta. split; [done|]. split; [done|].
    intros x y Hx Hy. apply Hcells; [done..|nia].
Qed.

(** X3.  One sweep of [project] (Gauss-Seidel) on buffers of the size of
    the grid returns; the new pressure of the cell of linear index [i] is
    [newP] computed from the pressures this sweep has already written in
    the cells before [i] and the old pressures from [i] on; and no change
    [fabs(_p[idx] - newP)] exceeds [maxDelta]. *)
Theorem project_sweep_cells (scale : D) (s : FluidSolver.t D) :
  wf_pressure (FluidSolver._w s) (FluidSolver._h s) s ->
  exists p delta,
    FluidSolver.project_sweep scale s = Some (FluidSolver.set_p s p, delta) /\
    length p = length (FluidSolver._p s) /\
    forall x y, (0 <= x < FluidSolver._w s)%Z -> (0 <= y < FluidSolver._h s)%Z ->
      let i := (x + y * FluidSolver._w s)%Z in
      exists newP old,
        FluidSolver.newP_cell s scale (seen_by i p (FluidSolver._p s)) x y = Some newP /\
        rd (FluidSolver._p s) i = Some old /\
        rd p i = Some newP /\
        dle (dfabs (old - newP)) delta.
Proof. exact (project_sweep_run scale s). Qed.
End GaussSeidel.

(** ** Projection: what [applyPressure] leaves on every face *)

Section ApplyPressure.
Context {D : Type} `{Double D}.
Local Open Scope double_scope.

Lemma src_updated_refl (q : FluidQuantity.t D) : src_updated q q.
Proof. by destruct q. Qed.

Lemma src_updated_trans (q1 q2 q3 : FluidQuantity.t D) :
  src_updated q1 q2 -> src_updated q2 q3 -> src_updated q1 q3.
Proof.
  intros [E1 L1] [E2 L2]. split; [|congruence].
  rewrite E2. rewrite E1. simpl. done.
Qed.

Lemma src_updated_shape (q q' : FluidQuantity.t D) :
  src_updated q q' -> same_shape q q'.
Proof. intros [-> L]. unfold same_shape. simpl in *. done. Qed.

Lemma set_at_src_updated (q q' : FluidQuantity.t D) (x y : Z) (v : D) :
  FluidQuantity.set_at q x y v = Some q' -> src_updated q q'.
Proof.
  unfold FluidQuantity.set_at. intros Hs.
  destruct (wr _ _ _) as [b|] eqn:Hw; simpl in Hs; [|done].
  injection Hs as <-. split; [done|]. simpl. by eapply wr_length.
Qed.

Lemma u_face_stage_left (s : FluidSolver.t D) (scale : D) (x y : Z) (pi : D) :
  (0 <= x < FluidSolver._w s)%Z ->
  rd (FluidSolver._p s) (x + y * FluidSolver._w s) = Some pi ->
  u_face_stage s scale (x + y * FluidSolver._w s + 1) x y
    = u_face_stage s scale (x + y * FluidSolver._w s) x y - scale * pi.
Proof.
  intros Hx Hp. unfold u_face_stage. cbv zeta. rewrite Hp. simpl.
  repeat case_decide; try lia; reflexivity.
Qed.

Lemma u_face_stage_right (s : FluidSolver.t D) (scale : D) (x y : Z) (pi : D) :
  (0 <= x < FluidSolver._w s)%Z ->
  rd (FluidSolver._p s) (x + y * FluidSolver._w s) = Some pi ->
  u_face_stage s scale (x + y * FluidSolver._w s + 1) (x + 1) y
    = u_face_stage s scale (x + y * FluidSolver._w s) (x + 1) y + scale * pi.
Proof.
  intros Hx Hp. unfold u_face_stage. cbv zeta.
  replace (x + 1 - 1 + y * FluidSolver._w s)%Z with (x + y * FluidSolver._w s)%Z by lia.
  rewrite Hp. simpl.
  repeat case_decide; try lia; reflexivity.
Qed.

Lemma u_face_stage_other (s : FluidSolver.t D) (scale : D) (x y a b : Z) :
  (0 <= x < FluidSolver._w s)%Z -> (0 <= a <= FluidSolver._w s)%Z ->
  ~ (a = x /\ b = y) -> ~ (a = x + 1 /\ b = y)%Z ->
  u_face_stage s scale (x + y * FluidSolver._w s + 1) a b
    = u_face_stage s scale (x + y * FluidSolver._w s) a b.
Proof.
  intros Hx Ha N1 N2. unfold u_face_stage. cbv zeta.
  assert (0 < a -> a - 1 + b * FluidSolver._w s = x + y * FluidSolver._w s ->
          False)%Z as E1.
  { intros H0 He. apply (cell_index_inj (FluidSolver._w s)) in He; [|lia..].
    apply N2. lia. }
  assert (a < FluidSolver._w s -> a + b * FluidSolver._w s = x + y * FluidSolver._w s ->
          False)%Z as E2.
  { intros H0 He. apply (cell_index_inj (FluidSolver._w s)) in He; [|lia..].
    apply N1. lia. }
  repeat case_decide; try reflexivity; exfalso; lia.
Qed.

Lemma v_face_stage_below (s : FluidSolver.t D) (scale : D) (x y : Z) (pi : D) :
  (0 <= x < FluidSolver._w s)%Z -> (0 <= y < FluidSolver._h s)%Z ->
  rd (FluidSolver._p s) (x + y * FluidSolver._w s) = Some pi ->
  v_face_stage s scale (x + y * FluidSolver._w s + 1) x y
    = v_face_stage s scale (x + y * FluidSolver._w s) x y - scale * pi.
Proof.
  intros Hx Hy Hp. unfold v_face_stage. cbv zeta. rewrite Hp. simpl.
  repeat case_decide; try lia; reflexivity.
Qed.

Lemma v_face_stage_above (s : FluidSolver.t D) (scale : D) (x y : Z) (pi : D) :
  (0 <= x < FluidSolver._w s)%Z -> (0 <= y < FluidSolver._h s)%Z ->
  rd (FluidSolver._p s) (x + y * FluidSolver._w s) = Some pi ->
  v_face_stage s scale (x + y * FluidSolver._w s + 1) x (y + 1)
    = v_face_stage s scale (x + y * FluidSolver._w s) x (y + 1) + scale * pi.
Proof.
  intros Hx Hy Hp. unfold v_face_stage. cbv zeta.
  replace (x + (y + 1 - 1) * FluidSolver._w s)%Z with (x + y * FluidSolver._w s)%Z by lia.
  rewrite Hp. simpl.
  repeat case_decide; try lia; reflexivity.
Qed.

Lemma v_face_stage_other (s : FluidSolver.t D) (scale : D) (x y a b : Z) :
  (0 <= x < FluidSolver._w s)%Z -> (0 <= a < FluidSolver._w s)%Z ->
  ~ (a = x /\ b = y) -> ~ (a = x /\ b = y + 1)%Z ->
  v_face_stage s scale (x + y * FluidSolver._w s + 1) a b
    = v_face_stage s scale (x + y * FluidSolver._w s) a b.
Proof.
  intros Hx Ha N1 N2. unfold v_face_stage. cbv zeta.
  assert (a + (b - 1) * FluidSolver._w s = x + y * FluidSolver._w s -> False)%Z as E1.
  { intros He. apply (cell_index_inj (FluidSolver._w s)) in He; [|lia..].
    apply N2. lia. }
  assert (a + b * FluidSolver._w s = x + y * FluidSolver._w s -> False)%Z as E2.
  { intros He. apply (cell_index_inj (FluidSolver._w s)) in He; [|lia..].
    apply N1. lia. }
  repeat case_decide; try reflexivity; exfalso; lia.
Qed.

Lemma at_sub_spec (q : FluidQuantity.t D) (x y : Z) (c d : D) :
  FluidQuantity.at_ q x y = Some c -> (0 <= x < FluidQuantity._w q)%Z ->
  exists q', FluidSolver.at_sub q x y d = Some q' /\ src_updated q q' /\
    forall a b, (0 <= a < FluidQuantity._w q)%Z ->
      FluidQuantity.at_ q' a b =
        if decide (a = x /\ b = y) then Some (c - d) else FluidQuantity.at_ q a b.
Proof.
  intros Hc Hx. unfold FluidSolver.at_sub. rewrite Hc. simpl.
  destruct (set_at_is_Some q x y (c - d)) as [q' Hq'].
  { apply rd_lt in Hc. done. }
  exists q'. split; [done|]. split; [by eapply set_at_src_updated|].
  intros a b Ha. by apply (at_set_at q q' x y a b).
Qed.

Lemma at_add_spec (q : FluidQuantity.t D) (x y : Z) (c d : D) :
  FluidQuantity.at_ q x y = Some c -> (0 <= x < FluidQuantity._w q)%Z ->
  exists q', FluidSolver.at_add q x y d = Some q' /\ src_updated q q' /\
    forall a b, (0 <= a < FluidQuantity._w q)%Z ->
      FluidQuantity.at_ q' a b =
        if decide (a = x /\ b = y) then Some (c + d) else FluidQuantity.at_ q a b.
Proof.
  intros Hc Hx. unfold FluidSolver.at_add. rewrite Hc. simpl.
  destruct (set_at_is_Some q x y (c + d)) as [q' Hq'].
  { apply rd_lt in Hc. done. }
  exists q'. split; [done|]. split; [by eapply set_at_src_updated|].
  intros a b Ha. by apply (at_set_at q q' x y a b).
Qed.

Lemma src_updated_w (q q' : FluidQuantity.t D) :
  src_updated q q' -> FluidQuantity._w q' = FluidQuantity._w q.
Proof. by intros [-> _]. Qed.

(** The first loops of [applyPressure]: every access is inside the
    buffers, and every face ends with the value [u_face_stage] and
    [v_face_stage] give. *)
Lemma applyPressure_cells (s : FluidSolver.t D) (scale : D) :
  wf_solver s ->
  exists u v,
    for_range 0 (FluidSolver._h s) (fun y st =>
      for_range 0 (FluidSolver._w s) (FluidSolver.applyPressure_cell s scale y) st)
      (0%Z, (FluidSolver._u s, FluidSolver._v s))
    = Some ((FluidSolver._w s * FluidSolver._h s)%Z, (u, v)) /\
    src_updated (FluidSolver._u s) u /\ src_updated (FluidSolver._v s) v /\
    (forall a b, (0 <= a <= FluidSolver._w s)%Z -> (0 <= b < FluidSolver._h s)%Z ->
       FluidQuantity.at_ u a b =
         Some (u_face_stage s scale (FluidSolver._w s * FluidSolver._h s) a b)) /\
    (forall a b, (0 <= a < FluidSolver._w s)%Z -> (0 <= b <= FluidSolver._h s)%Z ->
       FluidQuantity.at_ v a b =
         Some (v_face_stage s scale (FluidSolver._w s * FluidSolver._h s) a b)).
Proof.
  intros ((Hdw & Hdh & _) & (_ & _ & Hu & _) & (_ & _ & Hv & _) &
          Edw & Edh & Euw & Euh & Evw & Evh & Hr & Hp & _).
  rewrite Edw in Hdw. rewrite Edh in Hdh.
  rewrite Euw, Euh in Hu. rewrite Evw, Evh in Hv.
  set (I := fun (idx : Z) (uv : FluidQuantity.t D * FluidQuantity.t D) =>
    src_updated (FluidSolver._u s) uv.1 /\ src_updated (FluidSolver._v s) uv.2 /\
    (forall a b, (0 <= a <= FluidSolver._w s)%Z -> (0 <= b < FluidSolver._h s)%Z ->
       FluidQuantity.at_ uv.1 a b = Some (u_face_stage s scale idx a b)) /\
    (forall a b, (0 <= a < FluidSolver._w s)%Z -> (0 <= b <= FluidSolver._h s)%Z ->
       FluidQuantity.at_ uv.2 a b = Some (v_face_stage s scale idx a b))).
  destruct (grid_loop_idx_total I (FluidSolver._w s) (FluidSolver._h s)
              (FluidSolver.applyPressure_cell s scale)
              (FluidSolver._u s, FluidSolver._v s))
    as ([u v] & Hrun & Su & Sv & HU & HV); [done|done| | |].
  - intros y x [u v] Hx Hy (Su & Sv & HU & HV). simpl in Su, Sv, HU, HV.
    unfold FluidSolver.applyPressure_cell.
    destruct (rd_is_Some (FluidSolver._p s) (x + y * FluidSolver._w s)%Z)
      as [pi Hpi]; [nia|].
    rewrite Hpi. simpl.
    pose proof (src_updated_w _ _ Su) as Wu. rewrite Euw in Wu.
    pose proof (src_updated_w _ _ Sv) as Wv. rewrite Evw in Wv.
    destruct (at_sub_spec u x y _ (scale * pi) (HU x y ltac:(lia) ltac:(lia)))
      as (u1 & -> & Su1 & Hu1); [lia|]. simpl.
    pose proof (src_updated_w _ _ Su1) as Wu1. rewrite Wu in Wu1.
    assert (FluidQuantity.at_ u1 (x + 1) y
            = Some (u_face_stage s scale (x + y * FluidSolver._w s) (x + 1) y)) as Hr1.
    { rewrite Hu1 by lia. rewrite decide_False by lia. apply HU; lia. }
    destruct (at_add_spec u1 (x + 1) y _ (scale * pi) Hr1)
      as (u2 & -> & Su2 & Hu2); [lia|]. simpl.
    destruct (at_sub_spec v x y _ (scale * pi) (HV x y ltac:(lia) ltac:(lia)))
      as (v1 & -> & Sv1 & Hv1); [lia|]. simpl.
    pose proof (src_updated_w _ _ Sv1) as Wv1. rewrite Wv in Wv1.
    assert (FluidQuantity.at_ v1 x (y + 1)
            = Some (v_face_stage s scale (x + y * FluidSolver._w s) x (y + 1))) as Hr2.
    { rewrite Hv1 by lia. rewrite decide_False by lia. apply HV; lia. }
    destruct (at_add_spec v1 x (y + 1) _ (scale * pi) Hr2)
      as (v2 & -> & Sv2 & Hv2); [lia|]. simpl.
    exists (u2, v2). split; [done|]. simpl.
    split; [eauto using src_updated_trans|].
    split; [eauto using src_updated_trans|]. split.
    + intros a b Ha Hb. rewrite Hu2 by lia. case_decide as C1.
      * destruct C1 as [-> ->]. by rewrite (u_face_stage_right s scale x y pi).
      * rewrite Hu1 by lia. case_decide as C2.
        -- destruct C2 as [-> ->]. by rewrite (u_face_stage_left s scale x y pi).
        -- rewrite u_face_stage_other by (done || lia). apply HU; lia.
    + intros a b Ha Hb. rewrite Hv2 by lia. case_decide as C1.
      * destruct C1 as [-> ->]. by rewrite (v_face_stage_above s scale x y pi).
      * rewrite Hv1 by lia. case_decide as C2.
        -- destruct C2 as [-> ->]. by rewrite (v_face_stage_below s scale x y pi).
        -- rewrite v_face_stage_other by (done || lia). apply HV; lia.
  - split; [apply src_updated_refl|]. split; [apply src_updated_refl|]. simpl.
    split.
    + intros a b Ha Hb. unfold u_face_stage. cbv zeta.
      rewrite !decide_False by nia.
      unfold FluidQuantity.at_, FluidQuantity.idx_of. rewrite Euw.
      destruct (rd_is_Some (FluidQuantity._src (FluidSolver._u s))
                  (a + b * (FluidSolver._w s + 1))%Z) as [c ->]; [nia|]. done.
    + intros a b Ha Hb. unfold v_face_stage. cbv zeta.
      rewrite !decide_False by nia.
      unfold FluidQuantity.at_, FluidQuantity.idx_of. rewrite Evw.
      destruct (rd_is_Some (FluidQuantity._src (FluidSolver._v s))
                  (a + b * FluidSolver._w s)%Z) as [c ->]; [nia|]. done.
  - exists u, v. split; [done|]. done.
Qed.

Lemma src_updated_dims (q q' : FluidQuantity.t D) :
  src_updated q q' ->
  FluidQuantity._w q' = FluidQuantity._w q /\ FluidQuantity._h q' = FluidQuantity._h q /\
  length (FluidQuantity._src q') = length (FluidQuantity._src q).
Proof. intros [E L]. rewrite E. simpl. done. Qed.

(** The second loop of [applyPressure]: the faces of [_u] on the left and
    right walls are set to 0.0, the others are left alone. *)
Lemma zero_u_faces_run (s : FluidSolver.t D) (u : FluidQuantity.t D) :
  (0 <= FluidSolver._w s)%Z -> (0 <= FluidSolver._h s)%Z ->
  FluidQuantity._w u = (FluidSolver._w s + 1)%Z ->
  Z.of_nat (length (FluidQuantity._src u))
    = ((FluidSolver._w s + 1) * FluidSolver._h s)%Z ->
  exists u', for_range 0 (FluidSolver._h s) (FluidSolver.zero_u_faces s) u = Some u' /\
    src_updated u u' /\
    forall a b, (0 <= a <= FluidSolver._w s)%Z ->
      FluidQuantity.at_ u' a b =
        if decide ((a = 0 \/ a = FluidSolver._w s) /\ 0 <= b < FluidSolver._h s)%Z
        then Some 0%:D else FluidQuantity.at_ u a b.
Proof.
  intros Hw Hh Wu Lu.
  set (J := fun (j : Z) (u' : FluidQuantity.t D) =>
    src_updated u u' /\
    forall a b, (0 <= a <= FluidSolver._w s)%Z ->
      FluidQuantity.at_ u' a b =
        if decide ((a = 0 \/ a = FluidSolver._w s) /\ 0 <= b < j)%Z
        then Some 0%:D else FluidQuantity.at_ u a b).
  apply (for_range_total J); [done| |].
  - intros j t Hj [St Ht]. unfold FluidSolver.zero_u_faces.
    destruct (src_updated_dims _ _ St) as (Wt & _ & Lt). rewrite Wu in Wt.
    destruct (set_at_is_Some t (FluidSolver._w s) j 0%:D) as [t1 H1].
    { rewrite Wt, Lt, Lu. nia. }
    rewrite H1. simpl.
    pose proof (set_at_src_updated _ _ _ _ _ H1) as S1.
    destruct (src_updated_dims _ _ S1) as (W1 & _ & L1). rewrite Wt in W1.
    destruct (set_at_is_Some t1 0 j 0%:D) as [t2 H2].
    { rewrite W1, L1, Lt, Lu. nia. }
    exists t2. split; [done|].
    pose proof (set_at_src_updated _ _ _ _ _ H2) as S2.
    split; [eauto using src_updated_trans|].
    intros a b Ha. rewrite (at_set_at _ _ _ _ a b _ H2) by lia.
    rewrite (at_set_at _ _ _ _ a b _ H1) by lia. rewrite Ht by done.
    repeat case_decide; try reflexivity; exfalso; lia.
  - split; [apply src_updated_refl|]. intros a b Ha.
    rewrite decide_False by lia. done.
Qed.

(** The third loop: the faces of [_v] on the bottom and top walls. *)
Lemma zero_v_faces_run (s : FluidSolver.t D) (v : FluidQuantity.t D) :
  (0 <= FluidSolver._w s)%Z -> (0 <= FluidSolver._h s)%Z ->
  FluidQuantity._w v = FluidSolver._w s ->
  Z.of_nat (length (FluidQuantity._src v))
    = (FluidSolver._w s * (FluidSolver._h s + 1))%Z ->
  exists v', for_range 0 (FluidSolver._w s) (FluidSolver.zero_v_faces s) v = Some v' /\
    src_updated v v' /\
    forall a b, (0 <= a < FluidSolver._w s)%Z ->
      FluidQuantity.at_ v' a b =
        if decide (b = 0 \/ b = FluidSolver._h s)%Z
        then Some 0%:D else FluidQuantity.at_ v a b.
Proof.
  intros Hw Hh Wv Lv.
  set (J := fun (j : Z) (v' : FluidQuantity.t D) =>
    src_updated v v' /\
    forall a b, (0 <= a < FluidSolver._w s)%Z ->
      FluidQuantity.at_ v' a b =
        if decide ((b = 0 \/ b = FluidSolver._h s) /\ a < j)%Z
        then Some 0%:D else FluidQuantity.at_ v a b).
  destruct (for_range_total J 0 (FluidSolver._w s) (FluidSolver.zero_v_faces s) v)
    as (v' & Hrun & Sv & Hv'); [done| | |].
  - intros j t Hj [St Ht]. unfold FluidSolver.zero_v_faces.
    destruct (src_updated_dims _ _ St) as (Wt & _ & Lt). rewrite Wv in Wt.
    destruct (set_at_is_Some t j (FluidSolver._h s) 0%:D) as [t1 H1].
    { rewrite Wt, Lt, Lv. nia. }
    rewrite H1. simpl.
    pose proof (set_at_src_updated _ _ _ _ _ H1) as S1.
    destruct (src_updated_dims _ _ S1) as (W1 & _ & L1). rewrite Wt in W1.
    destruct (set_at_is_Some t1 j 0 0%:D) as [t2 H2].
    { rewrite W1, L1, Lt, Lv. nia. }
    exists t2. split; [done|].
    pose proof (set_at_src_updated _ _ _ _ _ H2) as S2.
    split; [eauto using src_updated_trans|].
    intros a b Ha. rewrite (at_set_at _ _ _ _ a b _ H2) by lia.
    rewrite (at_set_at _ _ _ _ a b _ H1) by lia. rewrite Ht by done.
    repeat case_decide; try reflexivity; exfalso; lia.
  - split; [apply src_updated_refl|]. intros a b Ha.
    rewrite decide_False by lia. done.
  - exists v'. split; [done|]. split; [done|]. intros a b Ha.
    rewrite Hv' by done. repeat case_decide; try reflexivity; exfalso; lia.
Qed.

(** [applyPressure] on a well-formed solver: it returns, changes only cells
    of the current buffers of [_u] and [_v], and leaves 0 on the wall faces
    and the staged value on every other face. *)
Lemma applyPressure_run (timestep : D) (s : FluidSolver.t D) :
  wf_solver s ->
  let scale := timestep / (FluidSolver._density s * FluidSolver._hx s) in
  let n := (FluidSolver._w s * FluidSolver._h s)%Z in
  exists u v,
    FluidSolver.applyPressure timestep s
      = Some (FluidSolver.set_duv s (FluidSolver._d s) u v) /\
    src_updated (FluidSolver._u s) u /\ src_updated (FluidSolver._v s) v /\
    (forall a b, (0 <= a <= FluidSolver._w s)%Z -> (0 <= b < FluidSolver._h s)%Z ->
       FluidQuantity.at_ u a b =
         if decide (a = 0 \/ a = FluidSolver._w s)%Z then Some 0%:D
         else Some (u_face_stage s scale n a b)) /\
    (forall a b, (0 <= a < FluidSolver._w s)%Z -> (0 <= b <= FluidSolver._h s)%Z ->
       FluidQuantity.at_ v a b =
         if decide (b = 0 \/ b = FluidSolver._h s)%Z then Some 0%:D
         else Some (v_face_stage s scale n a b)).
Proof.
  intros Hwf scale n. unfold FluidSolver.applyPressure. fold scale.
  destruct (applyPressure_cells s scale Hwf) as (u & v & -> & Su & Sv & HU & HV).
  simpl.
  destruct Hwf as ((Hdw & Hdh & _) & (_ & _ & Hu & _) & (_ & _ & Hv & _) &
          Edw & Edh & Euw & Euh & Evw & Evh & _).
  rewrite Edw in Hdw. rewrite Edh in Hdh.
  rewrite Euw, Euh in Hu. rewrite Evw, Evh in Hv.
  destruct (src_updated_dims _ _ Su) as (Wu & _ & Lu). rewrite Euw in Wu.
  destruct (src_updated_dims _ _ Sv) as (Wv & _ & Lv). rewrite Evw in Wv.
  destruct (zero_u_faces_run s u) as (u' & -> & Su' & HU'); [done|done|done|lia|].
  simpl.
  destruct (zero_v_faces_run s v) as (v' & -> & Sv' & HV'); [done|done|done|lia|].
  simpl. exists u', v'. split; [done|].
  split; [eauto using src_updated_trans|].
  split; [eauto using src_updated_trans|]. split.
  - intros a b Ha Hb. rewrite HU' by done. rewrite HU by done.
    repeat case_decide; try reflexivity; exfalso; lia.
  - intros a b Ha Hb. rewrite HV' by done. rewrite HV by done.
    repeat case_decide; try reflexivity; exfalso; lia.
Qed.

(** X4.  On a well-formed solver [applyPressure] returns; it changes only
    cells of the current buffers of [_u] and [_v]; every face of [_u]
    between two cells ends with [(u + scale*p_left) - scale*p_right] and
    every face of [_v] between two cells with
    [(v + scale*p_below) - scale*p_above], where
    [scale = timestep/(_density*_hx)], in this order of operations; the
    faces on the four walls end with 0. *)
Theorem applyPressure_gradient (timestep : D) (s : FluidSolver.t D) :
  wf_solver s ->
  let scale := timestep / (FluidSolver._density s * FluidSolver._hx s) in
  exists u v,
    FluidSolver.applyPressure timestep s
      = Some (FluidSolver.set_duv s (FluidSolver._d s) u v) /\
    src_updated (FluidSolver._u s) u /\ src_updated (FluidSolver._v s) v /\
    (forall x y, (0 < x < FluidSolver._w s)%Z -> (0 <= y < FluidSolver._h s)%Z ->
       exists u0 pl pr,
         FluidQuantity.at_ (FluidSolver._u s) x y = Some u0 /\
         rd (FluidSolver._p s) (x - 1 + y * FluidSolver._w s) = Some pl /\
         rd (FluidSolver._p s) (x + y * FluidSolver._w s) = Some pr /\
         FluidQuantity.at_ u x y = Some (u0 + scale * pl - scale * pr)) /\
    (forall x y, (0 <= x < FluidSolver._w s)%Z -> (0 < y < FluidSolver._h s)%Z ->
       exists v0 pb pa,
         FluidQuantity.at_ (FluidSolver._v s) x y = Some v0 /\
         rd (FluidSolver._p s) (x + (y - 1) * FluidSolver._w s) = Some pb /\
         rd (FluidSolver._p s) (x + y * FluidSolver._w s) = Some pa /\
         FluidQuantity.at_ v x y = Some (v0 + scale * pb - scale * pa)) /\
    (forall y, (0 <= y < FluidSolver._h s)%Z ->
       FluidQuantity.at_ u 0 y = Some 0%:D /\
       FluidQuantity.at_ u (FluidSolver._w s) y = Some 0%:D) /\
    (forall x, (0 <= x < FluidSolver._w s)%Z ->
       FluidQuantity.at_ v x 0 = Some 0%:D /\
       FluidQuantity.at_ v x (FluidSolver._h s) = Some 0%:D).
Proof.
  intros Hwf scale.
  destruct (applyPressure_run timestep s Hwf) as (u & v & Hrun & Su & Sv & HU & HV).
  fold scale in HU, HV.
  destruct Hwf as ((Hdw & Hdh & _) & (_ & _ & Hu & _) & (_ & _ & Hv & _) &
          Edw & Edh & Euw & Euh & Evw & Evh & _ & Hp & _).
  rewrite Edw in Hdw. rewrite Edh in Hdh.
  rewrite Euw, Euh in Hu. rewrite Evw, Evh in Hv.
  exists u, v. split; [done|]. split; [done|]. split; [done|].
  split; [|split; [|split]].
  - intros x y Hx Hy.
    destruct (rd_is_Some (FluidQuantity._src (FluidSolver._u s))
                (x + y * (FluidSolver._w s + 1))%Z) as [u0 Hu0]; [nia|].
    destruct (rd_is_Some (FluidSolver._p s) (x - 1 + y * FluidSolver._w s)%Z)
      as [pl Hpl]; [nia|].
    destruct (rd_is_Some (FluidSolver._p s) (x + y * FluidSolver._w s)%Z)
      as [pr Hpr]; [nia|].
    exists u0, pl, pr.
    assert (FluidQuantity.at_ (FluidSolver._u s) x y = Some u0) as Hat.
    { unfold FluidQuantity.at_, FluidQuantity.idx_of. by rewrite Euw. }
    split; [done|]. split; [done|]. split; [done|].
    rewrite HU by lia. rewrite decide_False by lia.
    unfold u_face_stage. cbv zeta. rewrite Hat, Hpl, Hpr. simpl.
    rewrite !decide_True by nia. done.
  - intros x y Hx Hy.
    destruct (rd_is_Some (FluidQuantity._src (FluidSolver._v s))
                (x + y * FluidSolver._w s)%Z) as [v0 Hv0]; [nia|].
    destruct (rd_is_Some (FluidSolver._p s) (x + (y - 1) * FluidSolver._w s)%Z)
      as [pb Hpb]; [nia|].
    destruct (rd_is_Some (FluidSolver._p s) (x + y * FluidSolver._w s)%Z)
      as [pa Hpa]; [nia|].
    exists v0, pb, pa.
    assert (FluidQuantity.at_ (FluidSolver._v s) x y = Some v0) as Hat.
    { unfold FluidQuantity.at_, FluidQuantity.idx_of. by rewrite Evw. }
    split; [done|]. split; [done|]. split; [done|].
    rewrite HV by lia. rewrite decide_False by lia.
    unfold v_face_stage. cbv zeta. rewrite Hat, Hpb, Hpa. simpl.
    rewrite !decide_True by nia. done.
  - intros y Hy. rewrite !HU by lia. by rewrite !decide_True by lia.
  - intros x Hx. rewrite !HV by lia. by rewrite !decide_True by lia.
Qed.
End ApplyPressure.

(** ** The layout of the solver is an invariant *)

Section LayoutInvariant.
Context {D : Type} `{Double D}.
Local Open Scope double_scope.

Lemma wf_quantity_shape (q q' : FluidQuantity.t D) :
  same_shape q q' -> wf_quantity q -> wf_quantity q'.
Proof.
  unfold same_shape, wf_quantity. intros (-> & -> & -> & ->). done.
Qed.

Lemma wf_quantity_flip (q : FluidQuantity.t D) :
  wf_quantity q -> wf_quantity (FluidQuantity.flip q).
Proof. unfold wf_quantity. simpl. tauto. Qed.

(** The solve assigns [_p] and [_p2] only. *)
Lemma solver_loop_frame (sweep : FluidSolver.t D -> option (FluidSolver.t D * D))
    (limit : Z) (fuel : nat) (iter : Z) (md : option D)
    (s s' : FluidSolver.t D) (rep : report D) :
  (forall a a' delta, sweep a = Some (a', delta) ->
     a' = FluidSolver.set_p (FluidSolver.set_p2 a (FluidSolver._p2 a')) (FluidSolver._p a')) ->
  FluidSolver.solver_loop sweep limit fuel iter md s = Some (s', rep) ->
  s' = FluidSolver.set_p (FluidSolver.set_p2 s (FluidSolver._p2 s')) (FluidSolver._p s').
Proof.
  intros Hsweep. revert iter md s.
  induction fuel as [|fuel IH]; intros iter md s; simpl.
  - intros [= <- <-]. by destruct s.
  - destruct (sweep s) as [[s1 delta]|] eqn:Hs; simpl; [|done].
    apply Hsweep in Hs.
    destruct (delta <? 1%/100000); [intros [= <- <-]; done|].
    intros Hrun%IH. rewrite Hrun. rewrite Hs. done.
Qed.

Lemma solve_frame (timestep : D) (s s' : FluidSolver.t D) (rep : report D) :
  FluidSolver.solve timestep s = Some (s', rep) ->
  s' = FluidSolver.set_p (FluidSolver.set_p2 s (FluidSolver._p2 s')) (FluidSolver._p s').
Proof.
  unfold FluidSolver.solve, FluidSolver.project, FluidSolver.project_jacobi.
  destruct (FluidSolver.iteration_type s); apply solver_loop_frame.
  - intros a a' delta. unfold FluidSolver.project_sweep.
    destruct (for_range _ _ _ _) as [[md p]|]; simpl; [|done].
    intros [= <- <-]. by destruct a.
  - intros a a' delta. unfold FluidSolver.project_jacobi_sweep.
    destruct (for_range _ _ _ _) as [[md p2]|]; simpl; [|done].
    destruct (memcpy _ _ _); simpl; [|done]. intros [= <- <-]. by destruct a.
Qed.

Lemma buildRhs_wf (s s' : FluidSolver.t D) :
  wf_solver s -> FluidSolver.buildRhs s = Some s' ->
  wf_solver s' /\ solver_params s' = solver_params s.
Proof.
  intros Hwf Hb. destruct (buildRhs_total s Hwf) as (r & Hb' & Hlen).
  assert (s' = FluidSolver.set_r s r) as -> by congruence.
  split; [|done]. unfold wf_solver in *. simpl. rewrite Hlen. done.
Qed.

Lemma solve_wf (timestep : D) (s s' : FluidSolver.t D) (rep : report D) :
  wf_solver s -> FluidSolver.solve timestep s = Some (s', rep) ->
  wf_solver s' /\ solver_params s' = solver_params s.
Proof.
  intros Hwf Hs.
  destruct (solve_total _ _ timestep s (wf_solver_pressure s Hwf))
    as (s2 & rep2 & Hs2 & Hp).
  assert (s2 = s') as -> by congruence.
  apply solve_frame in Hs.
  destruct Hp as (_ & _ & _ & _ & _ & Lp & Lp2).
  set (p := FluidSolver._p s') in *. set (p2 := FluidSolver._p2 s') in *.
  clearbody p p2. subst s'. split; [|done].
  unfold wf_solver in *. simpl. tauto.
Qed.

Lemma applyPressure_wf (timestep : D) (s s' : FluidSolver.t D) :
  wf_solver s -> FluidSolver.applyPressure timestep s = Some s' ->
  wf_solver s' /\ solver_params s' = solver_params s.
Proof.
  intros Hwf Ha.
  destruct (applyPressure_run timestep s Hwf) as (u & v & Hrun & Su & Sv & _).
  assert (s' = FluidSolver.set_duv s (FluidSolver._d s) u v) as -> by congruence.
  split; [|done].
  apply src_updated_shape in Su, Sv.
  destruct Hwf as (Hd & Hu & Hv & Hrest).
  pose proof (wf_quantity_shape _ _ Su Hu) as Hu'.
  pose proof (wf_quantity_shape _ _ Sv Hv) as Hv'.
  destruct Su as (Eu1 & Eu2 & _). destruct Sv as (Ev1 & Ev2 & _).
  unfold wf_solver. simpl. rewrite Eu1, Eu2, Ev1, Ev2. tauto.
Qed.

Lemma advect_all_wf (timestep : D) (s s' : FluidSolver.t D) :
  wf_solver s -> FluidSolver.advect_all timestep s = Some s' ->
  wf_solver s' /\ solver_params s' = solver_params s.
Proof.
  intros Hwf. unfold FluidSolver.advect_all. intros Ha.
  destruct (FluidQuantity.advect (FluidSolver._d s) _ _ _) as [d|] eqn:Hd;
    simpl in Ha; [|done].
  destruct (FluidQuantity.advect (FluidSolver._u s) _ _ _) as [u|] eqn:Hu;
    simpl in Ha; [|done].
  destruct (FluidQuantity.advect (FluidSolver._v s) _ _ _) as [v|] eqn:Hv;
    simpl in Ha; [|done].
  injection Ha as <-. split; [|done].
  apply advect_shape in Hd as [_ Sd], Hu as [_ Su], Hv as [_ Sv].
  destruct Hwf as (Wd & Wu & Wv & Hrest).
  pose proof (wf_quantity_shape _ _ Sd Wd) as Wd'.
  pose proof (wf_quantity_shape _ _ Su Wu) as Wu'.
  pose proof (wf_quantity_shape _ _ Sv Wv) as Wv'.
  destruct Sd as (Ed1 & Ed2 & _). destruct Su as (Eu1 & Eu2 & _).
  destruct Sv as (Ev1 & Ev2 & _).
  unfold wf_solver. simpl. rewrite Ed1, Ed2, Eu1, Eu2, Ev1, Ev2. tauto.
Qed.

Lemma flip_all_wf (s : FluidSolver.t D) :
  wf_solver s -> wf_solver (FluidSolver.flip_all s).
Proof.
  intros (Wd & Wu & Wv & Hrest). unfold wf_solver. simpl.
  split; [by apply wf_quantity_flip|]. split; [by apply wf_quantity_flip|].
  split; [by apply wf_quantity_flip|]. done.
Qed.

(** X5.  When [update] returns on a well-formed solver, the solver it
    returns is well-formed, with the same width, height, cell size, density
    and iteration type: the layout is an invariant of the step. *)
Theorem update_preserves_wf (timestep : D) (s s' : FluidSolver.t D) (rep : report D) :
  wf_solver s -> FluidSolver.update timestep s = Some (s', rep) ->
  wf_solver s' /\ solver_params s' = solver_params s.
Proof.
  intros Hwf (s1 & s2 & s3 & s4 & H1 & H2 & H3 & H4 & ->)%update_stages.
  destruct (buildRhs_wf _ _ Hwf H1) as [W1 P1].
  destruct (solve_wf _ _ _ _ W1 H2) as [W2 P2].
  destruct (applyPressure_wf _ _ _ W2 H3) as [W3 P3].
  destruct (advect_all_wf _ _ _ W3 H4) as [W4 P4].
  split; [by apply flip_all_wf|].
  transitivity (solver_params s4); [done|]. congruence.
Qed.

Lemma addInflow_quantity_shape (q q' : FluidQuantity.t D) (x0 y0 x1 y1 v : D) :
  FluidQuantity.addInflow q x0 y0 x1 y1 v = Some q' -> src_updated q q'.
Proof.
  unfold FluidQuantity.addInflow. intros Ha.
  destruct (for_range _ _ _ _) as [b|] eqn:Hloop; simpl in Ha; [|done].
  injection Ha as <-. split; [done|]. simpl.
  pose (P := fun t : list D => length t = length (FluidQuantity._src q)).
  revert Hloop. apply (for_range_preserves P); [|done].
  intros y t t' _ Ht. apply (for_range_preserves P); [|done].
  intros x t1 t1' _ Ht1. unfold P in *. unfold FluidQuantity.addInflow_cell.
  destruct (rd t1 _) as [cur|]; simpl; [|done].
  match goal with |- context [if ?c then _ else _] => destruct c end.
  - intros Hw. rewrite <- Ht1. by eapply wr_length.
  - by intros [= <-].
Qed.

Lemma addInflow_wf (s s' : FluidSolver.t D) (x y w h d u v : D) :
  wf_solver s -> FluidSolver.addInflow s x y w h d u v = Some s' ->
  wf_solver s' /\ solver_params s' = solver_params s /\
  src_updated (FluidSolver._d s) (FluidSolver._d s') /\
  src_updated (FluidSolver._u s) (FluidSolver._u s') /\
  src_updated (FluidSolver._v s) (FluidSolver._v s') /\
  FluidSolver._r s' = FluidSolver._r s /\ FluidSolver._p s' = FluidSolver._p s /\
  FluidSolver._p2 s' = FluidSolver._p2 s.
Proof.
  intros Hwf. unfold FluidSolver.addInflow. intros Ha.
  destruct (FluidQuantity.addInflow (FluidSolver._d s) _ _ _ _ _) as [qd|] eqn:Hd;
    simpl in Ha; [|done].
  destruct (FluidQuantity.addInflow (FluidSolver._u s) _ _ _ _ _) as [qu|] eqn:Hu;
    simpl in Ha; [|done].
  destruct (FluidQuantity.addInflow (FluidSolver._v s) _ _ _ _ _) as [qv|] eqn:Hv;
    simpl in Ha; [|done].
  injection Ha as <-. simpl.
  apply addInflow_quantity_shape in Hd, Hu, Hv.
  repeat (split; [|done]).
  pose proof (src_updated_shape _ _ Hd) as Sd.
  pose proof (src_updated_shape _ _ Hu) as Su.
  pose proof (src_updated_shape _ _ Hv) as Sv.
  destruct Hwf as (Wd & Wu & Wv & Hrest).
  pose proof (wf_quantity_shape _ _ Sd Wd) as Wd'.
  pose proof (wf_quantity_shape _ _ Su Wu) as Wu'.
  pose proof (wf_quantity_shape _ _ Sv Wv) as Wv'.
  destruct Sd as (Ed1 & Ed2 & _). destruct Su as (Eu1 & Eu2 & _).
  destruct Sv as (Ev1 & Ev2 & _).
  unfold wf_solver. simpl. rewrite Ed1, Ed2, Eu1, Eu2, Ev1, Ev2. tauto.
Qed.

(** X6.  When [FluidSolver::addInflow] returns on a well-formed solver,
    the solver it returns is well-formed with the same parameters; only
    cells of the current buffers of the three fields can differ; [_r],
    [_p] and [_p2] are untouched. *)
Theorem addInflow_preserves_wf (s s' : FluidSolver.t D) (x y w h d u v : D) :
  wf_solver s -> FluidSolver.addInflow s x y w h d u v = Some s' ->
  wf_solver s' /\ solver_params s' = solver_params s /\
  src_updated (FluidSolver._d s) (FluidSolver._d s') /\
  src_updated (FluidSolver._u s) (FluidSolver._u s') /\
  src_updated (FluidSolver._v s) (FluidSolver._v s') /\
  FluidSolver._r s' = FluidSolver._r s /\ FluidSolver._p s' = FluidSolver._p s /\
  FluidSolver._p2 s' = FluidSolver._p2 s.
Proof. exact (addInflow_wf s s' x y w h d u v). Qed.
End LayoutInvariant.

(** ** Construction and source injection *)

Section ConstructionAndInflow.
Context {D : Type} `{Double D}.
Local Open Scope double_scope.


(** X8.  On a well-formed solver that is strictly wider than tall,
    [FluidSolver::addInflow] returns for every rectangle and every value:
    no access of the three injections leaves a buffer. *)
Theorem addInflow_inside (s : FluidSolver.t D) (x y w h d u v : D) :
  wf_solver s -> (FluidSolver._h s < FluidSolver._w s)%Z ->
  exists s', FluidSolver.addInflow s x y w h d u v = Some s'.
Proof.
  intros (Wd & Wu & Wv & Edw & Edh & Euw & Euh & Evw & Evh & _) Hhw.
  unfold FluidSolver.addInflow.
  destruct (addInflow_total (FluidSolver._d s) x y (x + w) (y + h) d Wd) as [qd ->];
    [lia|]. simpl.
  destruct (addInflow_total (FluidSolver._u s) x y (x + w) (y + h) u Wu) as [qu ->];
    [lia|]. simpl.
  destruct (addInflow_total (FluidSolver._v s) x y (x + w) (y + h) v Wv) as [qv ->];
    [lia|]. simpl. eauto.
Qed.

Lemma addInflow_cells (q q' : FluidQuantity.t D) (x0 y0 x1 y1 v : D) :
  FluidQuantity.addInflow q x0 y0 x1 y1 v = Some q' ->
  src_updated q q' /\
  forall i, rd (FluidQuantity._src q') i = rd (FluidQuantity._src q) i \/
    exists x y, inflow_visits q x0 y0 x1 y1 x y /\
      i = (x + y * FluidQuantity._w q)%Z /\
      rd (FluidQuantity._src q') i = Some (inflow_value q x0 y0 x1 y1 v x y).
Proof.
  intros Ha. split; [by eapply addInflow_quantity_shape|].
  revert Ha. unfold FluidQuantity.addInflow. cbv zeta. intros Ha.
  destruct (for_range _ _ _ _) as [b|] eqn:Hloop; simpl in Ha; [|done].
  injection Ha as <-. simpl.
  pose (P := fun t : list D =>
    forall i, rd t i = rd (FluidQuantity._src q) i \/
      exists x y, inflow_visits q x0 y0 x1 y1 x y /\
        i = (x + y * FluidQuantity._w q)%Z /\
        rd t i = Some (inflow_value q x0 y0 x1 y1 v x y)).
  revert Hloop. apply (for_range_preserves P); [|by left].
  intros y t t' Hy Ht. apply (for_range_preserves P); [|done].
  intros x t1 t1' Hx Ht1. unfold FluidQuantity.addInflow_cell.
  destruct (rd t1 _) as [cur|]; simpl; [|done].
  match goal with |- context [if ?c then _ else _] => destruct c end.
  - intros Hw i. rewrite (rd_wr _ _ _ _ _ Hw). case_decide as Hi; [|apply Ht1].
    right. exists x, y. split; [by split|]. split; [done|]. done.
  - by intros [= <-].
Qed.

(** X9.  When [FluidQuantity::addInflow] returns, it has changed nothing
    but cells of the current buffer, and every cell of that buffer either
    holds what it held, or is a cell (x, y) the loops visit and holds the
    value [cubicPulse(l)*v] offered to that cell. *)
Theorem addInflow_writes (q q' : FluidQuantity.t D) (x0 y0 x1 y1 v : D) :
  FluidQuantity.addInflow q x0 y0 x1 y1 v = Some q' ->
  src_updated q q' /\
  forall i, rd (FluidQuantity._src q') i = rd (FluidQuantity._src q) i \/
    exists x y, inflow_visits q x0 y0 x1 y1 x y /\
      i = (x + y * FluidQuantity._w q)%Z /\
      rd (FluidQuantity._src q') i = Some (inflow_value q x0 y0 x1 y1 v x y).
Proof. exact (addInflow_cells q q' x0 y0 x1 y1 v). Qed.
End ConstructionAndInflow.

(** ** Rendering *)

Section Image.
Context {D : Type} `{Double D}.
Local Open Scope double_scope.

Lemma toImage_shade_range (d : D) : (0 <= FluidSolver.toImage_shade d <= 255)%Z.
Proof. unfold FluidSolver.toImage_shade. cbv zeta. lia. Qed.

Lemma to_uchar_small (z : Z) : (0 <= z <= 255)%Z -> FluidSolver.to_uchar z = z.
Proof. intros Hz. unfold FluidSolver.to_uchar. apply Z.mod_small. lia. Qed.

(** What one pass of the loop body of [toImage] does to the image. *)
Lemma toImage_cell_spec (s : FluidSolver.t D) (i : Z) (d : D) (rgba : list Z) :
  rd (FluidQuantity._src (FluidSolver._d s)) i = Some d ->
  (0 <= i)%Z -> (i * 4 + 3 < Z.of_nat (length rgba))%Z ->
  exists rgba', FluidSolver.toImage_cell s i rgba = Some rgba' /\
    length rgba' = length rgba /\
    forall j, rd rgba' j =
      if decide (i * 4 <= j <= i * 4 + 2)%Z then Some (FluidSolver.toImage_shade d)
      else if decide (j = i * 4 + 3)%Z then Some 255%Z else rd rgba j.
Proof.
  intros Hd Hi Hlen. unfold FluidSolver.toImage_cell, FluidQuantity.src.
  rewrite Hd. simpl. rewrite (to_uchar_small _ (toImage_shade_range d)).
  change (FluidSolver.to_uchar 255) with 255%Z.
  set (g := FluidSolver.toImage_shade d).
  destruct (wr_is_Some rgba (i * 4 + 0) g) as [t1 H1]; [lia|].
  pose proof (wr_length _ _ _ _ H1) as L1.
  destruct (wr_is_Some t1 (i * 4 + 1) g) as [t2 H2]; [lia|].
  pose proof (wr_length _ _ _ _ H2) as L2.
  destruct (wr_is_Some t2 (i * 4 + 2) g) as [t3 H3]; [lia|].
  pose proof (wr_length _ _ _ _ H3) as L3.
  destruct (wr_is_Some t3 (i * 4 + 3) 255%Z) as [t4 H4]; [lia|].
  pose proof (wr_length _ _ _ _ H4) as L4.
  rewrite H1. simpl. rewrite H2. simpl. rewrite H3. simpl. rewrite H4.
  exists t4. split; [done|]. split; [congruence|].
  intros j. rewrite (rd_wr _ _ _ j _ H4), (rd_wr _ _ _ j _ H3),
    (rd_wr _ _ _ j _ H2), (rd_wr _ _ _ j _ H1).
  repeat case_decide; try reflexivity; exfalso; lia.
Qed.

Lemma toImage_run (s : FluidSolver.t D) (rgba : list Z) :
  wf_solver s ->
  (4 * (FluidSolver._w s * FluidSolver._h s) <= Z.of_nat (length rgba))%Z ->
  exists rgba',
    FluidSolver.toImage s rgba = Some rgba' /\ length rgba' = length rgba /\
    (forall i, (0 <= i < FluidSolver._w s * FluidSolver._h s)%Z ->
       exists d, rd (FluidQuantity._src (FluidSolver._d s)) i = Some d /\
         rd rgba' (i * 4) = Some (FluidSolver.toImage_shade d) /\
         rd rgba' (i * 4 + 1) = Some (FluidSolver.toImage_shade d) /\
         rd rgba' (i * 4 + 2) = Some (FluidSolver.toImage_shade d) /\
         rd rgba' (i * 4 + 3) = Some 255%Z) /\
    (forall j, (4 * (FluidSolver._w s * FluidSolver._h s) <= j)%Z ->
       rd rgba' j = rd rgba j).
Proof.
  intros ((Hdw & Hdh & Ld & _) & _ & _ & Edw & Edh & _) Hlen.
  rewrite Edw, Edh in Ld. rewrite Edw in Hdw. rewrite Edh in Hdh.
  unfold FluidSolver.toImage.
  set (n := (FluidSolver._w s * FluidSolver._h s)%Z) in *.
  set (I := fun (i : Z) (t : list Z) =>
    length t = length rgba /\
    (forall k, (0 <= k < i)%Z ->
       exists d, rd (FluidQuantity._src (FluidSolver._d s)) k = Some d /\
         rd t (k * 4) = Some (FluidSolver.toImage_shade d) /\
         rd t (k * 4 + 1) = Some (FluidSolver.toImage_shade d) /\
         rd t (k * 4 + 2) = Some (FluidSolver.toImage_shade d) /\
         rd t (k * 4 + 3) = Some 255%Z) /\
    (forall j, (4 * i <= j)%Z -> rd t j = rd rgba j)).
  assert (0 <= n)%Z as Hn by (unfold n; nia).
  destruct (for_range_total I 0 n (FluidSolver.toImage_cell s) rgba)
    as (rgba' & Hrun & HI); [done| | |by exists rgba'].
  - intros i t Hi (Lt & Hprev & Hrest).
    destruct (rd_is_Some (FluidQuantity._src (FluidSolver._d s)) i) as [d Hd]; [lia|].
    destruct (toImage_cell_spec s i d t Hd) as (t' & -> & Lt' & Ht'); [lia|lia|].
    exists t'. split; [done|]. split; [congruence|]. split.
    + intros k Hk. destruct (decide (k = i)) as [->|Hne].
      * exists d. split; [done|]. rewrite !Ht'.
        repeat case_decide; try lia. done.
      * destruct (Hprev k) as (d' & E0 & E1 & E2 & E3 & E4); [lia|].
        exists d'. split; [done|]. rewrite !Ht'.
        repeat case_decide; try lia. done.
    + intros j Hj. rewrite Ht'. repeat case_decide; try lia. apply Hrest. lia.
  - split; [done|]. split; [intros; lia|done].
Qed.

(** [toImage] fails when the image is too short for the grid. *)
Lemma toImage_short (s : FluidSolver.t D) (rgba : list Z) :
  (Z.of_nat (length rgba) < 4 * (FluidSolver._w s * FluidSolver._h s))%Z ->
  FluidSolver.toImage s rgba = None.
Proof.
  intros Hlen. destruct (FluidSolver.toImage s rgba) as [rgba'|] eqn:Hrun; [|done].
  exfalso. unfold FluidSolver.toImage in Hrun.
  set (n := (FluidSolver._w s * FluidSolver._h s)%Z) in *.
  apply (for_range_inv (fun i t => length t = length rgba /\
           (4 * i <= Z.max 0 (Z.of_nat (length rgba)))%Z)) in Hrun; [lia|lia| |split; [done|lia]].
  intros i t t' Hi [Lt Hle]. unfold FluidSolver.toImage_cell.
  destruct (rd _ i) as [d|]; simpl; [|done].
  destruct (wr t _ _) as [t1|] eqn:H1; simpl; [|done].
  destruct (wr t1 _ _) as [t2|] eqn:H2; simpl; [|done].
  destruct (wr t2 _ _) as [t3|] eqn:H3; simpl; [|done].
  intros H4.
  pose proof (wr_length _ _ _ _ H1). pose proof (wr_length _ _ _ _ H2).
  pose proof (wr_length _ _ _ _ H3). pose proof (wr_length _ _ _ _ H4).
  apply wr_Some in H4 as [Hb _]. split; [congruence|]. lia.
Qed.

(** X10.  For a well-formed solver of n = width*height cells: when the
    image has at least 4n bytes, [toImage] returns an image of the same
    length in which the bytes 4i .. 4i+3 of every cell i are (g, g, g, 255)
    with g the grey level of the cell's density, 0 <= g <= 255, and the
    bytes from 4n on are untouched; when the image has fewer than 4n
    bytes, [toImage] has no defined result (it writes past the end). *)
Theorem toImage_pixels (s : FluidSolver.t D) (rgba : list Z) :
  wf_solver s ->
  let n := (FluidSolver._w s * FluidSolver._h s)%Z in
  ((4 * n <= Z.of_nat (length rgba))%Z ->
   exists rgba',
     FluidSolver.toImage s rgba = Some rgba' /\ length rgba' = length rgba /\
     (forall i, (0 <= i < n)%Z ->
        exists d g, rd (FluidQuantity._src (FluidSolver._d s)) i = Some d /\
          g = FluidSolver.toImage_shade d /\ (0 <= g <= 255)%Z /\
          rd rgba' (i * 4) = Some g /\ rd rgba' (i * 4 + 1) = Some g /\
          rd rgba' (i * 4 + 2) = Some g /\ rd rgba' (i * 4 + 3) = Some 255%Z) /\
     (forall j, (4 * n <= j)%Z -> rd rgba' j = rd rgba j)) /\
  ((Z.of_nat (length rgba) < 4 * n)%Z -> FluidSolver.toImage s rgba = None).
Proof.
  intros Hwf n. split; [|apply toImage_short].
  intros Hlen. destruct (toImage_run s rgba Hwf Hlen) as (rgba' & Hrun & Hl & Hpix & Hrest).
  exists rgba'. split; [done|]. split; [done|]. split; [|done].
  intros i Hi. destruct (Hpix i Hi) as (d & E0 & E1 & E2 & E3 & E4).
  exists d, (FluidSolver.toImage_shade d). split; [done|]. split; [done|].
  split; [apply toImage_shade_range|done].
Qed.
End Image.

(** ** More exact arithmetic *)

Section ExactOrder.
Context {D : Type} `{ExactLaws D}.
Local Open Scope double_scope.

Add Ring double_ring_order : exact_ring.

Lemma dle_total (a b : D) : dle a b \/ dle b a.
Proof.
  destruct (b <? a) eqn:E; [right; by apply dlt_dle|by left].
Qed.

Lemma dle_add_r (a b c : D) : dle a b -> dle (a + c) (b + c).
Proof. unfold dle. by rewrite dlt_add_r. Qed.

Lemma dle_add (a b c d : D) : dle a b -> dle c d -> dle (a + c) (b + d).
Proof.
  intros Hab Hcd. apply (dle_trans _ (b + c)); [by apply dle_add_r|].
  replace (b + c) with (c + b) by ring. replace (b + d) with (d + b) by ring.
  by apply dle_add_r.
Qed.

Lemma dle_0_sub (a b : D) : dle a b <-> dle 0%:D (b - a).
Proof.
  unfold dle. rewrite dlt_sub_r. by replace (0%:D + a) with a by ring.
Qed.

Lemma dle_0_add (a b : D) : dle 0%:D a -> dle 0%:D b -> dle 0%:D (a + b).
Proof.
  intros Ha Hb. replace 0%:D with (0%:D + 0%:D : D) by ring. by apply dle_add.
Qed.

Lemma dle_mul_pos_r (a b c : D) : (0%:D <? c) = true -> dle a b -> dle (a * c) (b * c).
Proof. intros Hc. unfold dle. by rewrite dlt_mul_pos. Qed.

Lemma dlt_0_1 : ((0%:D : D) <? 1%:D) = true.
Proof. by rewrite of_int_lt. Qed.

Lemma dle_neg (a b : D) : dle a b -> dle (- b) (- a).
Proof.
  intros Hab. apply dle_0_sub. replace (- a - - b) with (b - a) by ring.
  by apply -> dle_0_sub.
Qed.

(** The cast to [int] of an [int] is that [int]. *)
Lemma to_int_of_int (n : Z) : to_int (n%:D : D) = n.
Proof.
  destruct (dle_total 0%:D (n%:D : D)) as [Hpos|Hneg].
  - destruct (to_int_trunc_pos _ Hpos) as [Hlo Hhi].
    unfold dle in Hlo. rewrite of_int_lt in Hlo, Hhi.
    apply Z.ltb_ge in Hlo. apply Z.ltb_lt in Hhi. lia.
  - destruct (to_int_trunc_neg _ Hneg) as [Hlo Hhi].
    unfold dle in Hlo. rewrite of_int_lt in Hlo, Hhi.
    apply Z.ltb_ge in Hlo. apply Z.ltb_lt in Hhi. lia.
Qed.

Lemma of_int_lt_inv (a b : Z) : ((a%:D : D) <? b%:D) = true -> (a < b)%Z.
Proof. rewrite of_int_lt. apply Z.ltb_lt. Qed.

(** The cast to [int] is monotone. *)
Lemma to_int_mono (x y : D) : dle x y -> (to_int x <= to_int y)%Z.
Proof.
  intros Hxy.
  assert (forall a b : Z, ((a%:D : D) <? (b + 1)%:D) = true -> (a <= b)%Z) as Hint.
  { intros a b Hab%of_int_lt_inv. lia. }
  destruct (dle_total 0%:D y) as [Hy|Hy].
  - destruct (to_int_trunc_pos y Hy) as [_ Hyhi].
    destruct (dle_total 0%:D x) as [Hx|Hx].
    + destruct (to_int_trunc_pos x Hx) as [Hxlo _].
      apply Hint. eapply dle_dlt_trans; [|exact Hyhi].
      exact (dle_trans _ _ _ Hxlo Hxy).
    + destruct (to_int_trunc_neg x Hx) as [_ Hxhi].
      assert ((((to_int x - 1)%:D : D) <? (to_int y + 1)%:D) = true) as Hlt.
      { eapply dlt_trans; [exact Hxhi|]. eapply dle_dlt_trans; [exact Hxy|done]. }
      apply of_int_lt_inv in Hlt.
      assert ((((to_int x - 1)%:D : D) <? 0%:D) = true) as Hlt0
        by (eapply dlt_dle_trans; [exact Hxhi|done]).
      apply of_int_lt_inv in Hlt0.
      assert (((0%:D : D) <? (to_int y + 1)%:D) = true) as Hlt1
        by (eapply dle_dlt_trans; [exact Hy|done]).
      apply of_int_lt_inv in Hlt1. lia.
  - assert (dle x 0%:D) as Hx by exact (dle_trans _ _ _ Hxy Hy).
    destruct (to_int_trunc_neg x Hx) as [_ Hxhi].
    destruct (to_int_trunc_neg y Hy) as [Hylo _].
    assert ((((to_int x - 1)%:D : D) <? (to_int y)%:D) = true) as Hlt.
    { eapply dlt_dle_trans; [exact Hxhi|]. exact (dle_trans _ _ _ Hxy Hylo). }
    apply of_int_lt_inv in Hlt. lia.
Qed.

(** Small [int] constants as sums of 1. *)
Lemma of_int_2 : (2%:D : D) = 1%:D + 1%:D.
Proof. by rewrite <- of_int_add. Qed.

Lemma of_int_3 : (3%:D : D) = 1%:D + 1%:D + 1%:D.
Proof. by rewrite <- !of_int_add. Qed.
End ExactOrder.

Section Shade.
Context {D : Type} `{ExactLaws D}.
Local Open Scope double_scope.

Add Ring double_ring_shade : exact_ring.

End Shade.

(** ** A full step never leaves the buffers *)

Section StepTotal.
Context {D : Type} `{ExactLaws D}.
Local Open Scope double_scope.

Lemma cerp_total (q : FluidQuantity.t D) (x y : D) :
  samplable q -> exists r, FluidQuantity.cerp q x y = Some r.
Proof.
  intros Hq. pose proof Hq as (_ & Hw & Hh). unfold FluidQuantity.cerp. cbv zeta.
  pose proof (clamped_cell (FluidQuantity._w q) x (FluidQuantity._ox q) Hw) as Hx.
  pose proof (clamped_cell (FluidQuantity._h q) y (FluidQuantity._oy q) Hh) as Hy.
  cbv zeta in Hx, Hy.
  set (ix := to_int (dmin (dmax (x - _) _) _)) in *.
  set (iy := to_int (dmin (dmax (y - _) _) _)) in *.
  repeat match goal with |- context [FluidQuantity.cerp_row q ?a ?b ?c ?d ?r ?e] =>
    destruct (cerp_row_total q a b c d r e Hq) as [? ->]; [lia..|]; simpl end.
  eauto.
Qed.

Lemma advect_total (q u v : FluidQuantity.t D) (timestep : D) :
  samplable q -> samplable u -> samplable v ->
  exists q', FluidQuantity.advect q timestep u v = Some q'.
Proof.
  intros Hq Hu Hv. unfold FluidQuantity.advect.
  pose proof Hq as ((Hw0 & Hh0 & Hlen & Hdst) & Hw & Hh).
  destruct (grid_loop_idx_total
              (fun _ dst => length dst = length (FluidQuantity._dst q))
              (FluidQuantity._w q) (FluidQuantity._h q)
              (FluidQuantity.advect_cell q timestep u v) (FluidQuantity._dst q))
    as (dst & -> & _); [done|done| |done|simpl; eauto].
  intros iy ix t Hix Hiy Ht. unfold FluidQuantity.advect_cell.
  destruct (rungeKutta3_total q u v (ix%:D + FluidQuantity._ox q)
              (iy%:D + FluidQuantity._oy q) timestep Hu Hv) as [[x y] ->].
  simpl. destruct (cerp_total q x y Hq) as [c ->]. simpl.
  pose proof (cell_index_bounds _ _ ix iy Hix Hiy) as Hidx.
  destruct (wr_is_Some t (ix + iy * FluidQuantity._w q)%Z c) as [t' Hwr]; [lia|].
  rewrite Hwr. simpl. exists t'. split; [done|].
  rewrite <- Ht. by eapply wr_length.
Qed.

Lemma advect_all_total (timestep : D) (s : FluidSolver.t D) :
  wf_solver s -> (2 <= FluidSolver._w s)%Z -> (2 <= FluidSolver._h s)%Z ->
  exists s', FluidSolver.advect_all timestep s = Some s'.
Proof.
  intros (Wd & Wu & Wv & Edw & Edh & Euw & Euh & Evw & Evh & _) Hw Hh.
  assert (samplable (FluidSolver._d s)) as Sd by (split; [done|lia]).
  assert (samplable (FluidSolver._u s)) as Su by (split; [done|lia]).
  assert (samplable (FluidSolver._v s)) as Sv by (split; [done|lia]).
  unfold FluidSolver.advect_all.
  destruct (advect_total (FluidSolver._d s) _ _ timestep Sd Su Sv) as [d ->].
  simpl.
  destruct (advect_total (FluidSolver._u s) _ _ timestep Su Su Sv) as [u Hu].
  rewrite Hu. simpl.
  assert (samplable u) as Su'.
  { apply advect_shape in Hu as [_ Sh]. by eapply same_shape_samplable. }
  destruct (advect_total (FluidSolver._v s) _ _ timestep Sv Su' Sv) as [v ->].
  simpl. eauto.
Qed.

Lemma update_runs (timestep : D) (s : FluidSolver.t D) :
  wf_solver s -> (2 <= FluidSolver._w s)%Z -> (2 <= FluidSolver._h s)%Z ->
  exists s' rep,
    FluidSolver.update timestep s = Some (s', rep) /\
    wf_solver s' /\ solver_params s' = solver_params s.
Proof.
  intros Hwf Hw Hh.
  destruct (buildRhs_total s Hwf) as (r & H1 & _).
  destruct (buildRhs_wf _ _ Hwf H1) as [W1 P1].
  destruct (solve_total _ _ timestep _ (wf_solver_pressure _ W1))
    as (s2 & rep & H2 & _).
  destruct (solve_wf _ _ _ _ W1 H2) as [W2 P2].
  destruct (applyPressure_run timestep s2 W2) as (u & v & H3 & _).
  destruct (applyPressure_wf _ _ _ W2 H3) as [W3 P3].
  assert (solver_params (FluidSolver.set_duv s2 (FluidSolver._d s2) u v)
          = solver_params s) as P by congruence.
  destruct (advect_all_total timestep _ W3) as [s4 H4].
  { unfold solver_params in P. simpl in *. injection P; intros; lia. }
  { unfold solver_params in P. simpl in *. injection P; intros; lia. }
  destruct (advect_all_wf _ _ _ W3 H4) as [W4 P4].
  exists (FluidSolver.flip_all s4), rep. split.
  - apply update_stages. by eexists _, _, _, _.
  - split; [by apply flip_all_wf|].
    transitivity (solver_params s4); [done|]. congruence.
Qed.

End StepTotal.

(** ** Cubic sampling at grid points *)

Section CubicAtGridPoints.
Context {D : Type} `{ExactLaws D}.
Local Open Scope double_scope.

Add Ring double_ring_cubic : exact_ring.

(** At x = 0 the spline is its second sample, which the clamp keeps. *)
Lemma cerp_1d_0 (a b c d : D) : FluidQuantity.cerp_1d a b c d 0%:D = b.
Proof.
  unfold FluidQuantity.cerp_1d. cbv zeta.
  destruct (min4_below a b c d) as (_ & Hmin & _).
  destruct (max4_above a b c d) as (_ & Hmax & _).
  cbv zeta in Hmin, Hmax.
  match goal with |- dmin (dmax ?t _) _ = _ => replace t with b by ring end.
  unfold dle in Hmin, Hmax. unfold dmax at 1. rewrite Hmin.
  unfold dmin at 1. by rewrite Hmax.
Qed.

Lemma cerp_row_0 (q : FluidQuantity.t D) (x0 x1 x2 x3 y : Z) :
  samplable q ->
  (0 <= x0 < FluidQuantity._w q)%Z -> (0 <= x1 < FluidQuantity._w q)%Z ->
  (0 <= x2 < FluidQuantity._w q)%Z -> (0 <= x3 < FluidQuantity._w q)%Z ->
  (0 <= y < FluidQuantity._h q)%Z ->
  exists v, FluidQuantity.at_ q x1 y = Some v /\
            FluidQuantity.cerp_row q x0 x1 x2 x3 y 0%:D = Some v.
Proof.
  intros Hq Hx0 Hx1 Hx2 Hx3 Hy. unfold FluidQuantity.cerp_row.
  destruct (at_total q x0 y Hq) as [a ->]; [lia..|].
  destruct (at_total q x1 y Hq) as [b ->]; [lia..|].
  destruct (at_total q x2 y Hq) as [c ->]; [lia..|].
  destruct (at_total q x3 y Hq) as [d ->]; [lia..|].
  simpl. exists b. by rewrite cerp_1d_0.
Qed.

Lemma cerp_grid_point_value (q : FluidQuantity.t D) (ix iy : Z) :
  samplable q ->
  (0 <= ix <= FluidQuantity._w q - 2)%Z ->
  (0 <= iy <= FluidQuantity._h q - 2)%Z ->
  exists v, FluidQuantity.at_ q ix iy = Some v /\
    FluidQuantity.cerp q (ix%:D + FluidQuantity._ox q) (iy%:D + FluidQuantity._oy q)
      = Some v.
Proof.
  intros Hq Hix Hiy. unfold FluidQuantity.cerp. cbv zeta.
  pose proof (clamped_grid_point (FluidQuantity._w q) ix (FluidQuantity._ox q) Hix)
    as Hx. cbv zeta in Hx. destruct Hx as (_ & Htx & Hfx).
  pose proof (clamped_grid_point (FluidQuantity._h q) iy (FluidQuantity._oy q) Hiy)
    as Hy. cbv zeta in Hy. destruct Hy as (_ & Hty & Hfy).
  rewrite Hfx, Hfy, Htx, Hty.
  destruct (cerp_row_0 q (Z.max (ix - 1) 0) ix (ix + 1)
              (Z.min (ix + 2) (FluidQuantity._w q - 1)) (Z.max (iy - 1) 0) Hq)
    as (q0 & _ & ->); [lia..|].
  destruct (cerp_row_0 q (Z.max (ix - 1) 0) ix (ix + 1)
              (Z.min (ix + 2) (FluidQuantity._w q - 1)) iy Hq)
    as (q1 & Hq1 & ->); [lia..|].
  destruct (cerp_row_0 q (Z.max (ix - 1) 0) ix (ix + 1)
              (Z.min (ix + 2) (FluidQuantity._w q - 1)) (iy + 1) Hq)
    as (q2 & _ & ->); [lia..|].
  destruct (cerp_row_0 q (Z.max (ix - 1) 0) ix (ix + 1)
              (Z.min (ix + 2) (FluidQuantity._w q - 1))
              (Z.min (iy + 2) (FluidQuantity._h q - 1)) Hq)
    as (q3 & _ & ->); [lia..|].
  simpl. exists q1. by rewrite cerp_1d_0.
Qed.

(** X13.  In exact arithmetic, for every grid point (ix, iy) that has a
    right and an upper neighbour, cubic sampling at the point's position
    returns exactly the value stored at (ix, iy). *)
Theorem cerp_at_grid_point (q : FluidQuantity.t D) (ix iy : Z) :
  samplable q ->
  (0 <= ix <= FluidQuantity._w q - 2)%Z ->
  (0 <= iy <= FluidQuantity._h q - 2)%Z ->
  exists v, FluidQuantity.at_ q ix iy = Some v /\
    FluidQuantity.cerp q (ix%:D + FluidQuantity._ox q) (iy%:D + FluidQuantity._oy q)
      = Some v.
Proof. exact (cerp_grid_point_value q ix iy). Qed.

(** Every bilinear sample of an all-zero field is 0. *)
Lemma lerp_zero_field (q : FluidQuantity.t D) (x y : D) :
  samplable q -> Forall (fun c => c = 0%:D) (FluidQuantity._src q) ->
  FluidQuantity.lerp q x y = Some 0%:D.
Proof.
  intros ((_ & _ & Hlen & _) & Hw & Hh) Hz. unfold FluidQuantity.lerp. cbv zeta.
  pose proof (clamped_cell (FluidQuantity._w q) x (FluidQuantity._ox q) Hw) as Hx.
  pose proof (clamped_cell (FluidQuantity._h q) y (FluidQuantity._oy q) Hh) as Hy.
  cbv zeta in Hx, Hy.
  set (xc := dmin (dmax (x - _) _) _) in *.
  set (yc := dmin (dmax (y - _) _) _) in *.
  destruct (at_in_range _ q (to_int xc + 0) (to_int yc + 0) Hlen Hz)
    as (x00 & -> & ->); [lia..|].
  destruct (at_in_range _ q (to_int xc + 1) (to_int yc + 0) Hlen Hz)
    as (x10 & -> & ->); [lia..|].
  destruct (at_in_range _ q (to_int xc + 0) (to_int yc + 1) Hlen Hz)
    as (x01 & -> & ->); [lia..|].
  destruct (at_in_range _ q (to_int xc + 1) (to_int yc + 1) Hlen Hz)
    as (x11 & -> & ->); [lia..|].
  simpl. by rewrite !lerp_1d_zero.
Qed.

(** In a velocity field that is 0 everywhere the trace ends where it
    starts. *)
Lemma rungeKutta3_zero_velocity (q u v : FluidQuantity.t D) (x y timestep : D) :
  samplable u -> samplable v ->
  Forall (fun c => c = 0%:D) (FluidQuantity._src u) ->
  Forall (fun c => c = 0%:D) (FluidQuantity._src v) ->
  FluidQuantity.rungeKutta3 q x y timestep u v = Some (x, y).
Proof.
  intros Hu Hv Zu Zv. unfold FluidQuantity.rungeKutta3.
  rewrite !(lerp_zero_field u) by done. simpl.
  rewrite !(lerp_zero_field v) by done. simpl.
  rewrite !(lerp_zero_field u) by done. simpl.
  rewrite !(lerp_zero_field v) by done. simpl.
  rewrite !(lerp_zero_field u) by done. simpl.
  rewrite !(lerp_zero_field v) by done. simpl.
  rewrite div_0_l. f_equal. f_equal; ring.
Qed.

(** X14.  In exact arithmetic, advecting a field in a velocity field
    that is 0 everywhere returns, leaves the current buffer as it is, and
    writes to the next buffer, in every cell that has a right and an upper
    neighbour, the value the current buffer holds there.  (The cells of
    the last column and the last row are resampled at the clamped
    position.) *)
Theorem advect_zero_velocity (q u v : FluidQuantity.t D) (timestep : D) :
  samplable q -> samplable u -> samplable v ->
  Forall (fun c => c = 0%:D) (FluidQuantity._src u) ->
  Forall (fun c => c = 0%:D) (FluidQuantity._src v) ->
  exists q',
    FluidQuantity.advect q timestep u v = Some q' /\
    FluidQuantity._src q' = FluidQuantity._src q /\
    forall ix iy, (0 <= ix <= FluidQuantity._w q - 2)%Z ->
      (0 <= iy <= FluidQuantity._h q - 2)%Z ->
      exists c, FluidQuantity.at_ q ix iy = Some c /\
        rd (FluidQuantity._dst q') (ix + iy * FluidQuantity._w q) = Some c.
Proof.
  intros Hq Hu Hv Zu Zv. unfold FluidQuantity.advect.
  pose proof Hq as ((Hw0 & Hh0 & Hlen & Hdst) & Hw & Hh).
  set (I := fun (idx : Z) (dst : list D) =>
    length dst = length (FluidQuantity._dst q) /\
    forall ix iy, (0 <= ix <= FluidQuantity._w q - 2)%Z ->
      (0 <= iy <= FluidQuantity._h q - 2)%Z ->
      (ix + iy * FluidQuantity._w q < idx)%Z ->
      exists c, FluidQuantity.at_ q ix iy = Some c /\
        rd dst (ix + iy * FluidQuantity._w q) = Some c).
  destruct (grid_loop_idx_total I (FluidQuantity._w q) (FluidQuantity._h q)
              (FluidQuantity.advect_cell q timestep u v) (FluidQuantity._dst q))
    as (dst & -> & Hlen' & Hall); [done|done| |split; [done|intros; nia]|].
  - intros iy ix t Hix Hiy [Ht Hprev]. unfold FluidQuantity.advect_cell.
    rewrite (rungeKutta3_zero_velocity q u v) by done. simpl.
    destruct (cerp_total q (ix%:D + FluidQuantity._ox q)
                (iy%:D + FluidQuantity._oy q) Hq) as [c Hc].
    rewrite Hc. simpl.
    pose proof (cell_index_bounds _ _ ix iy Hix Hiy) as Hidx.
    destruct (wr_is_Some t (ix + iy * FluidQuantity._w q)%Z c) as [t' Hwr]; [lia|].
    rewrite Hwr. simpl. exists t'. split; [done|]. split.
    + rewrite <- Ht. by eapply wr_length.
    + intros a b Ha Hb Hlt. rewrite (rd_wr _ _ _ _ _ Hwr). case_decide as Hi.
      * symmetry in Hi.
        apply (cell_index_inj (FluidQuantity._w q)) in Hi as [-> ->]; [|lia..].
        destruct (cerp_grid_point_value q ix iy Hq Ha Hb) as (c' & Hat & Hc').
        exists c'. split; [done|]. congruence.
      * apply Hprev; [done..|lia].
  - simpl. eexists. split; [done|]. simpl. split; [done|].
    intros ix iy Hx Hy. apply Hall; [done..|]. nia.
Qed.
End CubicAtGridPoints.

(** ** Numbers on a linear order *)

Section QcLinear.
Local Open Scope Qc_scope.
#[export] Instance Qc_LinearLaws : LinearLaws Qc.
Proof.
  split; simpl.
  - exact Qc_ExactLaws.
  - intros a b Hab%Qc_ltb_ge Hba%Qc_ltb_ge. by apply Qcle_antisym.
  - reflexivity.
Qed.
End QcLinear.

Section LinearOrder.
Context {D : Type} `{LinearLaws D}.
Local Open Scope double_scope.

Add Ring double_ring_linear : exact_ring.

Lemma dle_antisym (a b : D) : dle a b -> dle b a -> a = b.
Proof. unfold dle. intros Hab Hba. by apply dlt_antisym. Qed.

Lemma dle_mul_nonneg (a b : D) : dle 0%:D a -> dle 0%:D b -> dle 0%:D (a * b).
Proof.
  intros Ha Hb. destruct (0%:D <? b) eqn:Hpos.
  - replace 0%:D with (0%:D * b) by ring. by apply dle_mul_pos_r.
  - assert (b = 0%:D) as -> by (by apply dlt_antisym).
    replace (a * 0%:D) with (0%:D : D) by ring. apply dle_refl.
Qed.

Lemma dfabs_nonneg (x : D) : dle 0%:D (dfabs x).
Proof.
  rewrite dfabs_spec. destruct (x <? 0%:D) eqn:E; [|done].
  replace 0%:D with (- 0%:D : D) by ring. apply dle_neg. by apply dlt_dle.
Qed.

Lemma dfabs_0 : dfabs (0%:D : D) = 0%:D.
Proof. rewrite dfabs_spec. by rewrite dlt_irrefl. Qed.

(** The linear interpolation of two values stays between any bounds of
    the two, for a weight in [0, 1]. *)
Lemma lerp_1d_between (a b x lo hi : D) :
  dle 0%:D x -> dle x 1%:D ->
  dle lo a -> dle a hi -> dle lo b -> dle b hi ->
  dle lo (FluidQuantity.lerp_1d a b x) /\ dle (FluidQuantity.lerp_1d a b x) hi.
Proof.
  intros Hx0 Hx1 Ha Ha' Hb Hb'. unfold FluidQuantity.lerp_1d.
  apply dle_0_sub in Hx1, Ha, Ha', Hb, Hb'.
  split; apply dle_0_sub.
  - replace (a * (1%:D - x) + b * x - lo)
      with ((a - lo) * (1%:D - x) + (b - lo) * x) by ring.
    apply dle_0_add; by apply dle_mul_nonneg.
  - replace (hi - (a * (1%:D - x) + b * x))
      with ((hi - a) * (1%:D - x) + (hi - b) * x) by ring.
    apply dle_0_add; by apply dle_mul_nonneg.
Qed.

(** The fractional part the samplers compute lies in [0, 1]. *)
Lemma clamped_frac (w : Z) (x o : D) :
  (2 <= w)%Z ->
  let xc := dmin (dmax (x - o) 0%:D) (w%:D - 1001%/1000) in
  dle 0%:D (xc - (to_int xc)%:D) /\ dle (xc - (to_int xc)%:D) 1%:D.
Proof.
  intros Hw xc.
  assert (dle 0%:D (w%:D - 1001%/1000)) as Hpos.
  { eapply dle_trans; [apply (of_int_le 0 (w - 2)); lia|].
    apply dlt_dle, clamp_bound_above. }
  assert (dle 0%:D xc) as Hxc0.
  { apply dmin_lower; [apply dmax_lower_r|done]. }
  destruct (to_int_trunc_pos xc Hxc0) as [Hlo Hhi]. split.
  - by apply -> dle_0_sub.
  - apply dlt_dle. rewrite dlt_sub_r.
    replace (1%:D + (to_int xc)%:D) with ((to_int xc + 1)%:D : D); [done|].
    rewrite of_int_add. ring.
Qed.


(** The pulse stays in [0, 1]. *)
Lemma cubicPulse_bounds (x : D) :
  dle 0%:D (Fluid.cubicPulse x) /\ dle (Fluid.cubicPulse x) 1%:D.
Proof.
  assert (forall m : D, 1%:D - m * m * (3%:D - 2%:D * m)
            = (1%:D - m) * (1%:D - m) * (1%:D + m + m)) as Hfac.
  { intros m. rewrite of_int_3, of_int_2. ring. }
  assert (forall m : D, 1%:D - (1%:D - m * m * (3%:D - 2%:D * m))
            = m * m * (1%:D + (1%:D - m) + (1%:D - m))) as Hfac'.
  { intros m. rewrite of_int_3, of_int_2. ring. }
  assert (dle (0%:D : D) 1%:D) as H01 by apply dlt_dle, dlt_0_1.
  unfold Fluid.cubicPulse. cbv zeta.
  set (m := dmin (dfabs x) 1%:D).
  assert (dle 0%:D m) as Hm0 by (apply dmin_lower; [apply dfabs_nonneg|done]).
  assert (dle 0%:D (1%:D - m)) as Hm1 by (apply -> dle_0_sub; apply dmin_upper_r).
  split.
  - rewrite Hfac. apply dle_mul_nonneg; [by apply dle_mul_nonneg|].
    by repeat apply dle_0_add.
  - apply dle_0_sub. rewrite Hfac'.
    apply dle_mul_nonneg; [by apply dle_mul_nonneg|].
    by repeat apply dle_0_add.
Qed.

(** X16.  In exact arithmetic [cubicPulse] returns a value in [0, 1]; it
    is 1 at 0; it is 0 for x <= -1 and for x >= 1. *)
Theorem cubicPulse_range :
  (forall x : D, dle 0%:D (Fluid.cubicPulse x) /\ dle (Fluid.cubicPulse x) 1%:D) /\
  Fluid.cubicPulse (0%:D : D) = 1%:D /\
  (forall x : D, dle x (- 1%:D) \/ dle 1%:D x -> Fluid.cubicPulse x = 0%:D).
Proof.
  assert (dle (0%:D : D) 1%:D) as H01 by apply dlt_dle, dlt_0_1.
  split; [exact cubicPulse_bounds|split].
  - unfold Fluid.cubicPulse. cbv zeta. rewrite dfabs_0.
    unfold dmin. rewrite of_int_lt. simpl. ring.
  - intros x Hx. unfold Fluid.cubicPulse. cbv zeta.
    assert (dle 1%:D (dfabs x)) as Habs.
    { rewrite dfabs_spec. destruct Hx as [Hx|Hx].
      - assert ((x <? 0%:D) = true) as ->.
        { eapply dle_dlt_trans; [exact Hx|].
          replace 0%:D with (- 0%:D : D) by ring.
          destruct (- 1%:D <? - 0%:D) eqn:E; [done|].
          apply dle_neg in E. revert E.
          replace (- - 0%:D) with (0%:D : D) by ring.
          replace (- - 1%:D) with (1%:D : D) by ring.
          unfold dle. by rewrite dlt_0_1. }
        apply dle_neg in Hx. revert Hx. by replace (- - 1%:D) with (1%:D : D) by ring.
      - assert ((x <? 0%:D) = false) as ->; [|done].
        apply (dle_trans _ 1%:D); done. }
    assert (dmin (dfabs x) 1%:D = 1%:D) as ->.
    { apply dle_antisym; [apply dmin_upper_r|]. apply dmin_lower; [done|apply dle_refl]. }
    rewrite of_int_3, of_int_2. ring.
Qed.
End LinearOrder.

Section InflowMagnitude.
Context {D : Type} `{LinearLaws D}.
Local Open Scope double_scope.

Add Ring double_ring_inflow : exact_ring.

(** Scaling by a factor in [0, 1] does not raise the magnitude. *)
Lemma dfabs_scale_le (c v : D) :
  dle 0%:D c -> dle c 1%:D -> dle (dfabs (c * v)) (dfabs v).
Proof.
  intros Hc0 Hc1. apply dle_0_sub in Hc1.
  rewrite (dfabs_spec v). destruct (v <? 0%:D) eqn:Hv.
  - assert (dle 0%:D (- v)) as Hnv.
    { replace 0%:D with (- 0%:D : D) by ring. apply dle_neg. by apply dlt_dle. }
    rewrite dfabs_spec. destruct (c * v <? 0%:D) eqn:Hcv.
    + apply dle_0_sub. replace (- v - - (c * v)) with ((1%:D - c) * - v) by ring.
      by apply dle_mul_nonneg.
    + apply (dle_trans _ 0%:D); [|done].
      apply dle_0_sub. replace (0%:D - c * v) with (c * - v) by ring.
      by apply dle_mul_nonneg.
  - assert (dle 0%:D (c * v)) as Hcv by (by apply dle_mul_nonneg).
    rewrite dfabs_spec. unfold dle in Hcv. rewrite Hcv.
    apply dle_0_sub. replace (v - c * v) with ((1%:D - c) * v) by ring.
    by apply dle_mul_nonneg.
Qed.

(** X17.  In exact arithmetic, when [FluidQuantity::addInflow] returns,
    every cell holds what it held before or a value whose magnitude is at
    most that of the injected value [v]. *)
Theorem addInflow_bounded (q q' : FluidQuantity.t D) (x0 y0 x1 y1 v : D) :
  FluidQuantity.addInflow q x0 y0 x1 y1 v = Some q' ->
  forall i after, rd (FluidQuantity._src q') i = Some after ->
    rd (FluidQuantity._src q) i = Some after \/ dle (dfabs after) (dfabs v).
Proof.
  intros Ha i after Hafter. destruct (addInflow_cells _ _ _ _ _ _ _ Ha) as [_ Hcells].
  destruct (Hcells i) as [Hsame|(x & y & _ & _ & Hval)]; [left; congruence|].
  right. rewrite Hval in Hafter. injection Hafter as <-. unfold inflow_value.
  apply dfabs_scale_le; apply cubicPulse_bounds.
Qed.
End InflowMagnitude.

(** ** A fluid at rest *)

Section AtRest.
Context {D : Type} `{LinearLaws D}.
Local Open Scope double_scope.

Add Ring double_ring_rest : exact_ring.

Lemma dmax_0_0 : dmax (0%:D : D) 0%:D = 0%:D.
Proof. unfold dmax. by rewrite dlt_irrefl. Qed.

Lemma converged_0 : ((0%:D : D) <? 1%/100000) = true.
Proof. by rewrite int_lt_dec. Qed.

(** With no velocity the right-hand side is 0. *)
Lemma buildRhs_rest (s : FluidSolver.t D) :
  wf_solver s ->
  uniform 0%:D (FluidQuantity._src (FluidSolver._u s)) ->
  uniform 0%:D (FluidQuantity._src (FluidSolver._v s)) ->
  exists r, FluidSolver.buildRhs s = Some (FluidSolver.set_r s r) /\
            length r = length (FluidSolver._r s) /\ uniform 0%:D r.
Proof.
  intros Hwf Zu Zv. destruct (buildRhs_cells s Hwf) as (r & Hrun & Hlen & Hcells).
  exists r. split; [done|]. split; [done|].
  destruct Hwf as ((Hdw & Hdh & _) & _ & _ & Edw & Edh & _ & _ & _ & _ & Hr & _).
  apply (Forall_cells _ (FluidSolver._w s) (FluidSolver._h s)); [lia|lia|lia|].
  intros x y Hx Hy.
  destruct (Hcells x y Hx Hy) as (u1 & u0 & v1 & v0 & E1 & E2 & E3 & E4 & ->).
  eexists. split; [done|].
  apply (rd_Forall _ _ _ _ Zu) in E1, E2. apply (rd_Forall _ _ _ _ Zv) in E3, E4.
  subst. ring.
Qed.

Lemma newP_cell_rest (s : FluidSolver.t D) (scale : D) (p : list D) (x y : Z) :
  (0 <= x < FluidSolver._w s)%Z -> (0 <= y < FluidSolver._h s)%Z ->
  Z.of_nat (length (FluidSolver._r s)) = (FluidSolver._w s * FluidSolver._h s)%Z ->
  Z.of_nat (length p) = (FluidSolver._w s * FluidSolver._h s)%Z ->
  uniform 0%:D (FluidSolver._r s) -> uniform 0%:D p ->
  FluidSolver.newP_cell s scale p x y = Some 0%:D.
Proof.
  intros Hx Hy Hr Hp Zr Zp. unfold FluidSolver.newP_cell.
  pose proof (cell_index_bounds _ _ x y Hx Hy) as Hi.
  assert (forall i, (0 <= i < FluidSolver._w s * FluidSolver._h s)%Z ->
                    rd p i = Some 0%:D) as Hrd.
  { intros i Hi'. destruct (rd_is_Some p i) as [v Hv]; [lia|].
    rewrite Hv. f_equal. by apply (rd_Forall _ _ _ _ Zp) in Hv. }
  assert (rd (FluidSolver._r s) (x + y * FluidSolver._w s)%Z = Some 0%:D) as Hri.
  { destruct (rd_is_Some (FluidSolver._r s) (x + y * FluidSolver._w s)%Z)
      as [v Hv]; [lia|].
    rewrite Hv. f_equal. by apply (rd_Forall _ _ _ _ Zr) in Hv. }
  repeat match goal with
  | |- context [decide ?c] => destruct (decide c)
  | |- context [rd p ?i] => rewrite (Hrd i) by nia
  | _ => progress simpl
  end.
  all: rewrite Hri; simpl; f_equal.
  all: match goal with |- ?n / ?d = _ => replace n with (0%:D : D) by ring end.
  all: apply div_0_l.
Qed.

Lemma project_jacobi_sweep_rest (scale : D) (s : FluidSolver.t D) :
  wf_pressure (FluidSolver._w s) (FluidSolver._h s) s ->
  uniform 0%:D (FluidSolver._r s) -> uniform 0%:D (FluidSolver._p s) ->
  exists p, FluidSolver.project_jacobi_sweep scale s
              = Some (FluidSolver.set_p (FluidSolver.set_p2 s p) p, 0%:D) /\
            length p = length (FluidSolver._p s) /\ uniform 0%:D p.
Proof.
  intros Hwf Zr Zp.
  destruct (project_jacobi_sweep_run scale s Hwf)
    as (p & delta & Hrun & Hlen & Hcells & Hmax).
  destruct Hwf as (_ & _ & Hw & Hh & Hr & Hp & Hp2).
  assert (forall x y, (0 <= x < FluidSolver._w s)%Z -> (0 <= y < FluidSolver._h s)%Z ->
            FluidSolver.newP_cell s scale (FluidSolver._p s) x y = Some 0%:D) as Hnew.
  { intros x y Hx Hy. by apply newP_cell_rest. }
  assert (delta = 0%:D) as ->.
  { destruct Hmax as [->|(x & y & newP & old & Hx & Hy & E1 & E2 & ->)]; [done|].
    rewrite Hnew in E1 by done. injection E1 as <-.
    apply (rd_Forall _ _ _ _ Zp) in E2. subst old.
    replace (0%:D - 0%:D) with (0%:D : D) by ring. apply dfabs_0. }
  exists p. split; [done|]. split; [done|].
  apply (Forall_cells _ (FluidSolver._w s) (FluidSolver._h s)); [lia|lia|lia|].
  intros x y Hx Hy. destruct (Hcells x y Hx Hy) as (newP & old & E1 & _ & E3 & _).
  rewrite Hnew in E1 by done. injection E1 as <-. by exists 0%:D.
Qed.

Lemma project_sweep_rest (scale : D) (s : FluidSolver.t D) :
  wf_pressure (FluidSolver._w s) (FluidSolver._h s) s ->
  uniform 0%:D (FluidSolver._r s) -> uniform 0%:D (FluidSolver._p s) ->
  exists p, FluidSolver.project_sweep scale s = Some (FluidSolver.set_p s p, 0%:D) /\
            length p = length (FluidSolver._p s) /\ uniform 0%:D p.
Proof.
  intros (_ & _ & Hw & Hh & Hr & Hp & Hp2) Zr Zp.
  unfold FluidSolver.project_sweep.
  set (I := fun (_ : Z) (st : D * list D) =>
    st.1 = 0%:D /\ length st.2 = length (FluidSolver._p s) /\ uniform 0%:D st.2).
  destruct (grid_loop_cells_total I (FluidSolver._w s) (FluidSolver._h s)
              (FluidSolver.project_cell s scale) (0%:D, FluidSolver._p s))
    as ([md p] & -> & Hmd & Hlen & Zp'); [done|done| |done|].
  - intros y x [md p] Hx Hy (Hmd & Hl & Zp1). simpl in Hmd, Hl, Zp1. subst md.
    unfold FluidSolver.project_cell.
    rewrite newP_cell_rest by (done || lia). simpl.
    pose proof (cell_index_bounds _ _ x y Hx Hy) as Hi.
    destruct (rd_is_Some p (x + y * FluidSolver._w s)%Z) as [pi Hpi]; [lia|].
    rewrite Hpi. simpl. apply (rd_Forall _ _ _ _ Zp1) in Hpi. subst pi.
    destruct (wr_is_Some p (x + y * FluidSolver._w s)%Z 0%:D) as [p' Hwr]; [lia|].
    rewrite Hwr. simpl. eexists. split; [done|]. simpl.
    replace (0%:D - 0%:D) with (0%:D : D) by ring. rewrite dfabs_0, dmax_0_0.
    split; [done|]. split; [rewrite <- Hl; by eapply wr_length|].
    apply wr_Some in Hwr as [_ ->]. by apply Forall_insert.
  - simpl in *. subst md. by exists p.
Qed.

(** A first sweep that passes the test ends the solve. *)
Lemma solver_loop_first (sweep : FluidSolver.t D -> option (FluidSolver.t D * D))
    (limit : Z) (fuel : nat) (iter : Z) (md : option D)
    (s s' : FluidSolver.t D) (delta : D) :
  sweep s = Some (s', delta) -> (delta <? 1%/100000) = true ->
  FluidSolver.solver_loop sweep limit (S fuel) iter md s = Some (s', Exiting iter delta).
Proof. intros Hs Hc. simpl. rewrite Hs. simpl. by rewrite Hc. Qed.

Lemma solve_rest (timestep : D) (s : FluidSolver.t D) :
  wf_pressure (FluidSolver._w s) (FluidSolver._h s) s ->
  uniform 0%:D (FluidSolver._r s) -> uniform 0%:D (FluidSolver._p s) ->
  exists s', FluidSolver.solve timestep s = Some (s', Exiting 0 0%:D) /\
             uniform 0%:D (FluidSolver._p s').
Proof.
  intros Hwf Zr Zp.
  unfold FluidSolver.solve, FluidSolver.project, FluidSolver.project_jacobi.
  change (Z.to_nat 600) with (S 599).
  set (scale := timestep / (FluidSolver._density s * FluidSolver._hx s * FluidSolver._hx s)).
  destruct (FluidSolver.iteration_type s).
  - destruct (project_sweep_rest scale s Hwf Zr Zp) as (p & Hsw & _ & Zp').
    eexists. split; [exact (solver_loop_first _ _ _ _ _ _ _ _ Hsw converged_0)|done].
  - destruct (project_jacobi_sweep_rest scale s Hwf Zr Zp) as (p & Hsw & _ & Zp').
    eexists. split; [exact (solver_loop_first _ _ _ _ _ _ _ _ Hsw converged_0)|done].
Qed.

(** With no pressure and no velocity [applyPressure] leaves no velocity. *)
Lemma applyPressure_rest (timestep : D) (s : FluidSolver.t D) :
  wf_solver s ->
  uniform 0%:D (FluidQuantity._src (FluidSolver._u s)) ->
  uniform 0%:D (FluidQuantity._src (FluidSolver._v s)) ->
  uniform 0%:D (FluidSolver._p s) ->
  exists u v,
    FluidSolver.applyPressure timestep s
      = Some (FluidSolver.set_duv s (FluidSolver._d s) u v) /\
    uniform 0%:D (FluidQuantity._src u) /\ uniform 0%:D (FluidQuantity._src v).
Proof.
  intros Hwf Zu Zv Zp.
  destruct (applyPressure_run timestep s Hwf) as (u & v & Hrun & Su & Sv & HU & HV).
  cbv zeta in HU, HV.
  exists u, v. split; [done|].
  destruct Hwf as ((Hdw & Hdh & _) & (_ & _ & Hu & _) & (_ & _ & Hv & _) &
          Edw & Edh & Euw & Euh & Evw & Evh & _ & Hp & _).
  rewrite Edw in Hdw. rewrite Edh in Hdh.
  rewrite Euw, Euh in Hu. rewrite Evw, Evh in Hv.
  destruct (src_updated_dims _ _ Su) as (Wu & _ & Lu). rewrite Euw in Wu.
  destruct (src_updated_dims _ _ Sv) as (Wv & _ & Lv). rewrite Evw in Wv.
  assert (forall i, default 0%:D (rd (FluidSolver._p s) i) = 0%:D) as Hp0.
  { intros i. destruct (rd (FluidSolver._p s) i) as [c|] eqn:E; [|done].
    simpl. by apply (rd_Forall _ _ _ _ Zp) in E. }
  assert (forall a b, default 0%:D (FluidQuantity.at_ (FluidSolver._u s) a b) = 0%:D)
    as Hu0.
  { intros a b. unfold FluidQuantity.at_.
    destruct (rd _ _) as [c|] eqn:E; [|done].
    simpl. by apply (rd_Forall _ _ _ _ Zu) in E. }
  assert (forall a b, default 0%:D (FluidQuantity.at_ (FluidSolver._v s) a b) = 0%:D)
    as Hv0.
  { intros a b. unfold FluidQuantity.at_.
    destruct (rd _ _) as [c|] eqn:E; [|done].
    simpl. by apply (rd_Forall _ _ _ _ Zv) in E. }
  split.
  - apply (Forall_cells _ (FluidSolver._w s + 1) (FluidSolver._h s)); [lia|lia|lia|].
    intros x y Hx Hy. exists 0%:D. split; [|done].
    specialize (HU x y ltac:(lia) Hy).
    unfold FluidQuantity.at_, FluidQuantity.idx_of in HU. rewrite Wu in HU.
    rewrite HU. case_decide; [done|]. f_equal.
    unfold u_face_stage. cbv zeta. rewrite Hu0, !Hp0.
    repeat case_decide; ring.
  - apply (Forall_cells _ (FluidSolver._w s) (FluidSolver._h s + 1)); [lia|lia|lia|].
    intros x y Hx Hy. exists 0%:D. split; [|done].
    specialize (HV x y Hx ltac:(lia)).
    unfold FluidQuantity.at_, FluidQuantity.idx_of in HV. rewrite Wv in HV.
    rewrite HV. case_decide; [done|]. f_equal.
    unfold v_face_stage. cbv zeta. rewrite Hv0, !Hp0.
    repeat case_decide; ring.
Qed.

(** Every bicubic sample of a field that holds [c] everywhere is [c]. *)
Lemma cerp_uniform (q : FluidQuantity.t D) (c x y : D) :
  samplable q -> uniform c (FluidQuantity._src q) ->
  FluidQuantity.cerp q x y = Some c.
Proof.
  intros Hq Hc.
  destruct (cerp_between q c c x y Hq) as (r & -> & Hlo & Hhi).
  - eapply Forall_impl; [exact Hc|]. intros v ->. split; apply dle_refl.
  - f_equal. by apply dle_antisym.
Qed.

Lemma advect_uniform (q u v : FluidQuantity.t D) (timestep c : D) :
  samplable q -> samplable u -> samplable v ->
  uniform c (FluidQuantity._src q) ->
  exists q', FluidQuantity.advect q timestep u v = Some q' /\
             uniform c (FluidQuantity._dst q').
Proof.
  intros Hq Hu Hv Hc. unfold FluidQuantity.advect.
  pose proof Hq as ((Hw0 & Hh0 & Hlen & Hdst) & Hw & Hh).
  set (I := fun (idx : Z) (dst : list D) =>
    length dst = length (FluidQuantity._dst q) /\
    forall i x, (0 <= i < idx)%Z -> rd dst i = Some x -> x = c).
  destruct (grid_loop_idx_total I (FluidQuantity._w q) (FluidQuantity._h q)
              (FluidQuantity.advect_cell q timestep u v) (FluidQuantity._dst q))
    as (dst & -> & Hlen' & Hall); [done|done| |split; [done|intros; lia]|].
  - intros iy ix t Hix Hiy [Ht Hprev]. unfold FluidQuantity.advect_cell.
    destruct (rungeKutta3_total q u v (ix%:D + FluidQuantity._ox q)
                (iy%:D + FluidQuantity._oy q) timestep Hu Hv) as [[x y] ->].
    simpl. rewrite (cerp_uniform q c x y Hq Hc). simpl.
    pose proof (cell_index_bounds _ _ ix iy Hix Hiy) as Hidx.
    destruct (wr_is_Some t (ix + iy * FluidQuantity._w q)%Z c) as [t' Hwr]; [lia|].
    rewrite Hwr. simpl. exists t'. split; [done|]. split.
    + rewrite <- Ht. by eapply wr_length.
    + intros i x0 Hi. rewrite (rd_wr _ _ _ _ _ Hwr). case_decide; [congruence|].
      apply Hprev. lia.
  - simpl. eexists. split; [done|]. simpl.
    apply Forall_lookup_2. intros n x Hn.
    apply (Hall (Z.of_nat n)).
    + apply lookup_lt_Some in Hn. lia.
    + apply rd_Some. split; [lia|]. by rewrite Nat2Z.id.
Qed.

End AtRest.

(** ** The projection with an exact pressure *)

Section ExactProjection.
Context {D : Type} `{LinearLaws D}.
Local Open Scope double_scope.

Add Ring double_ring_projection : exact_ring.

Lemma dlt_0_mul (a b : D) :
  (0%:D <? a) = true -> (0%:D <? b) = true -> (0%:D <? a * b) = true.
Proof.
  intros Ha Hb. rewrite <- (dlt_mul_pos 0%:D a b Hb) in Ha.
  by replace (0%:D * b) with (0%:D : D) in Ha by ring.
Qed.

Lemma dlt_0_div (a b : D) :
  (0%:D <? a) = true -> (0%:D <? b) = true -> (0%:D <? a / b) = true.
Proof.
  intros Ha Hb. rewrite <- (dlt_mul_pos 0%:D (a / b) b Hb).
  rewrite div_mul. { by replace (0%:D * b) with (0%:D : D) by ring. }
  intros ->. by rewrite dlt_irrefl in Hb.
Qed.

Lemma dlt_0_add (a b : D) :
  dle 0%:D a -> (0%:D <? b) = true -> (0%:D <? a + b) = true.
Proof.
  intros Ha Hb. eapply dlt_dle_trans; [exact Hb|].
  replace b with (0%:D + b) at 1 by ring. by apply dle_add_r.
Qed.

Lemma dlt_nonzero (a : D) : (0%:D <? a) = true -> a <> 0%:D.
Proof. intros Ha ->. by rewrite dlt_irrefl in Ha. Qed.

Lemma dmul_cancel_r (a b c : D) :
  (0%:D <? c) = true -> a * c = b * c -> a = b.
Proof.
  intros Hc He. apply dlt_antisym.
  - rewrite <- (dlt_mul_pos a b c Hc), He. apply dlt_irrefl.
  - rewrite <- (dlt_mul_pos b a c Hc), He. apply dlt_irrefl.
Qed.

(** The factor of [applyPressure] is the cell size times the factor of
    the solve. *)
Lemma scale_relation (timestep density hx : D) :
  (0%:D <? density) = true -> (0%:D <? hx) = true ->
  timestep / (density * hx) = hx * (timestep / (density * hx * hx)).
Proof.
  intros Hd Hh.
  assert ((0%:D <? density * hx) = true) as Hc by (by apply dlt_0_mul).
  assert ((0%:D <? density * hx * hx) = true) as Hc2 by (by apply dlt_0_mul).
  apply (dmul_cancel_r _ _ (density * hx) Hc).
  rewrite div_mul by (by apply dlt_nonzero).
  replace (hx * (timestep / (density * hx * hx)) * (density * hx))
    with (timestep / (density * hx * hx) * (density * hx * hx)) by ring.
  by rewrite div_mul by (by apply dlt_nonzero).
Qed.

Ltac diag_pos Hsp :=
  repeat first [ exact Hsp | apply dle_refl | apply dlt_dle | apply dlt_0_add ].

(** A pressure that a sweep leaves unchanged in a cell satisfies the
    equation of the cell: [scale] times the Laplacian is the right-hand
    side. *)
Lemma newP_cell_equation (s : FluidSolver.t D) (sp : D) (x y : Z) (pc r : D) :
  (2 <= FluidSolver._w s)%Z -> (2 <= FluidSolver._h s)%Z ->
  (0 <= x < FluidSolver._w s)%Z -> (0 <= y < FluidSolver._h s)%Z ->
  Z.of_nat (length (FluidSolver._p s)) = (FluidSolver._w s * FluidSolver._h s)%Z ->
  (0%:D <? sp) = true ->
  rd (FluidSolver._r s) (x + y * FluidSolver._w s) = Some r ->
  rd (FluidSolver._p s) (x + y * FluidSolver._w s) = Some pc ->
  FluidSolver.newP_cell s sp (FluidSolver._p s) x y = Some pc ->
  sp * pressure_laplacian s x y = r.
Proof.
  intros Hw Hh Hx Hy Hp Hsp Hr Hpc. unfold FluidSolver.newP_cell, pressure_laplacian.
  cbv zeta. rewrite Hr, Hpc.
  pose proof (cell_index_bounds _ _ x y Hx Hy) as Hi.
  assert (forall i, (0 <= i < FluidSolver._w s * FluidSolver._h s)%Z ->
                    exists v, rd (FluidSolver._p s) i = Some v) as Hrd.
  { intros i Hi'. apply rd_is_Some. lia. }
  destruct (decide (x > 0)%Z); destruct (decide (y > 0)%Z);
    destruct (decide (x < FluidSolver._w s - 1)%Z);
    destruct (decide (y < FluidSolver._h s - 1)%Z); try lia;
  repeat match goal with
  | |- context [rd (FluidSolver._p s) ?i] =>
      let v := fresh "pn" in let Hv := fresh "Hpn" in
      destruct (Hrd i) as [v Hv]; [nia|]; rewrite Hv
  end;
  simpl; intros [= He];
  match type of He with ?n / ?d = _ =>
    assert (pc * d = n) as F3
      by (rewrite <- He; apply div_mul, dlt_nonzero; diag_pos Hsp)
  end;
  match type of F3 with _ * ?d = _ - ?off =>
    replace r with (pc * d + off) by (rewrite F3; ring) end;
  ring.
Qed.

(** The value [applyPressure] leaves on a face between two cells. *)
Lemma u_face_stage_final (s : FluidSolver.t D) (sa : D) (a b : Z) (u0 : D) :
  (0 < a < FluidSolver._w s)%Z -> (0 <= b < FluidSolver._h s)%Z ->
  FluidQuantity.at_ (FluidSolver._u s) a b = Some u0 ->
  u_face_stage s sa (FluidSolver._w s * FluidSolver._h s) a b
    = u0 + sa * default 0%:D (rd (FluidSolver._p s) (a - 1 + b * FluidSolver._w s))
         - sa * default 0%:D (rd (FluidSolver._p s) (a + b * FluidSolver._w s)).
Proof.
  intros Ha Hb Hu0. unfold u_face_stage. cbv zeta. rewrite Hu0. simpl.
  by rewrite !decide_True by nia.
Qed.

Lemma v_face_stage_final (s : FluidSolver.t D) (sa : D) (a b : Z) (v0 : D) :
  (0 <= a < FluidSolver._w s)%Z -> (0 < b < FluidSolver._h s)%Z ->
  FluidQuantity.at_ (FluidSolver._v s) a b = Some v0 ->
  v_face_stage s sa (FluidSolver._w s * FluidSolver._h s) a b
    = v0 + sa * default 0%:D (rd (FluidSolver._p s) (a + (b - 1) * FluidSolver._w s))
         - sa * default 0%:D (rd (FluidSolver._p s) (a + b * FluidSolver._w s)).
Proof.
  intros Ha Hb Hv0. unfold v_face_stage. cbv zeta. rewrite Hv0. simpl.
  by rewrite !decide_True by nia.
Qed.

(** What [applyPressure] does to the divergence of a cell, when the walls
    hold 0: it adds its factor times the Laplacian of the pressure. *)
Lemma applyPressure_divergence (timestep : D) (s : FluidSolver.t D) :
  wf_solver s -> boundary_faces_zero s ->
  let sa := timestep / (FluidSolver._density s * FluidSolver._hx s) in
  exists u v,
    FluidSolver.applyPressure timestep s
      = Some (FluidSolver.set_duv s (FluidSolver._d s) u v) /\
    forall x y, (0 <= x < FluidSolver._w s)%Z -> (0 <= y < FluidSolver._h s)%Z ->
      exists u1 u0 v1 v0 u1' u0' v1' v0',
        FluidQuantity.at_ (FluidSolver._u s) (x + 1) y = Some u1 /\
        FluidQuantity.at_ (FluidSolver._u s) x y = Some u0 /\
        FluidQuantity.at_ (FluidSolver._v s) x (y + 1) = Some v1 /\
        FluidQuantity.at_ (FluidSolver._v s) x y = Some v0 /\
        FluidQuantity.at_ u (x + 1) y = Some u1' /\
        FluidQuantity.at_ u x y = Some u0' /\
        FluidQuantity.at_ v x (y + 1) = Some v1' /\
        FluidQuantity.at_ v x y = Some v0' /\
        u1' - u0' + v1' - v0'
          = (u1 - u0 + v1 - v0) + sa * pressure_laplacian s x y.
Proof.
  intros Hwf [Hbu Hbv] sa.
  destruct (applyPressure_run timestep s Hwf) as (u & v & Hrun & _ & _ & HU & HV).
  cbv zeta in HU, HV. fold sa in HU, HV.
  exists u, v. split; [done|]. intros x y Hx Hy.
  destruct Hwf as ((Hdw & Hdh & _) & (_ & _ & Hu & _) & (_ & _ & Hv & _) &
          Edw & Edh & Euw & Euh & Evw & Evh & _ & Hp & _).
  rewrite Euw, Euh in Hu. rewrite Evw, Evh in Hv.
  assert (forall a b, (0 <= a <= FluidSolver._w s)%Z -> (0 <= b < FluidSolver._h s)%Z ->
            exists c, FluidQuantity.at_ (FluidSolver._u s) a b = Some c) as Ru.
  { intros a b Ha Hb'. unfold FluidQuantity.at_, FluidQuantity.idx_of. rewrite Euw.
    apply rd_is_Some. nia. }
  assert (forall a b, (0 <= a < FluidSolver._w s)%Z -> (0 <= b <= FluidSolver._h s)%Z ->
            exists c, FluidQuantity.at_ (FluidSolver._v s) a b = Some c) as Rv.
  { intros a b Ha Hb'. unfold FluidQuantity.at_, FluidQuantity.idx_of. rewrite Evw.
    apply rd_is_Some. nia. }
  destruct (Ru (x + 1)%Z y) as [u1 Hu1]; [lia|lia|].
  destruct (Ru x y) as [u0 Hu0]; [lia|lia|].
  destruct (Rv x (y + 1)%Z) as [v1 Hv1]; [lia|lia|].
  destruct (Rv x y) as [v0 Hv0]; [lia|lia|].
  pose proof (HU (x + 1)%Z y ltac:(lia) Hy) as E1.
  pose proof (HU x y ltac:(lia) Hy) as E0.
  pose proof (HV x (y + 1)%Z Hx ltac:(lia)) as F1.
  pose proof (HV x y Hx ltac:(lia)) as F0.
  exists u1, u0, v1, v0.
  assert (x = 0 -> u0 = 0%:D)%Z as Wl.
  { intros ->. destruct (Hbu y Hy) as [Hz _]. congruence. }
  assert (x + 1 = FluidSolver._w s -> u1 = 0%:D)%Z as Wr.
  { intros Hxw. rewrite Hxw in Hu1. destruct (Hbu y Hy) as [_ Hz]. congruence. }
  assert (y = 0 -> v0 = 0%:D)%Z as Wb.
  { intros ->. destruct (Hbv x Hx) as [Hz _]. congruence. }
  assert (y + 1 = FluidSolver._h s -> v1 = 0%:D)%Z as Wt.
  { intros Hyh. rewrite Hyh in Hv1. destruct (Hbv x Hx) as [_ Hz]. congruence. }
  unfold pressure_laplacian. cbv zeta.
  destruct (decide (x = 0)) as [Cl|Cl]; destruct (decide (x + 1 = FluidSolver._w s)%Z) as [Cr|Cr];
    destruct (decide (y = 0)) as [Cb|Cb]; destruct (decide (y + 1 = FluidSolver._h s)%Z) as [Ct|Ct];
  first [ rewrite decide_True in E1 by lia
        | rewrite decide_False, (u_face_stage_final s sa (x + 1) y u1) in E1 by (done || lia) ];
  first [ rewrite decide_True in E0 by lia
        | rewrite decide_False, (u_face_stage_final s sa x y u0) in E0 by (done || lia) ];
  first [ rewrite decide_True in F1 by lia
        | rewrite decide_False, (v_face_stage_final s sa x (y + 1) v1) in F1 by (done || lia) ];
  first [ rewrite decide_True in F0 by lia
        | rewrite decide_False, (v_face_stage_final s sa x y v0) in F0 by (done || lia) ];
  eexists _, _, _, _;
  (split; [exact Hu1|]); (split; [exact Hu0|]); (split; [exact Hv1|]);
  (split; [exact Hv0|]); (split; [exact E1|]); (split; [exact E0|]);
  (split; [exact F1|]); (split; [exact F0|]);
  try (specialize (Wl Cl); subst u0); try (specialize (Wr Cr); subst u1);
  try (specialize (Wb Cb); subst v0); try (specialize (Wt Ct); subst v1);
  repeat (first [rewrite decide_True by lia | rewrite decide_False by lia]);
  try replace (x + 1 - 1 + y * FluidSolver._w s)%Z
    with (x + y * FluidSolver._w s)%Z by lia;
  try replace (x + 1 + y * FluidSolver._w s)%Z
    with (x + y * FluidSolver._w s + 1)%Z by lia;
  try replace (x - 1 + y * FluidSolver._w s)%Z
    with (x + y * FluidSolver._w s - 1)%Z by lia;
  try replace (x + (y + 1 - 1) * FluidSolver._w s)%Z
    with (x + y * FluidSolver._w s)%Z by lia;
  try replace (x + (y + 1) * FluidSolver._w s)%Z
    with (x + y * FluidSolver._w s + FluidSolver._w s)%Z by lia;
  try replace (x + (y - 1) * FluidSolver._w s)%Z
    with (x + y * FluidSolver._w s - FluidSolver._w s)%Z by lia;
  ring.
Qed.

(** Two buffers of the size of the grid that agree on every cell are the
    same buffer. *)
Lemma cells_eq (w h : Z) (b b' : list D) :
  (0 <= w)%Z -> (0 <= h)%Z ->
  Z.of_nat (length b) = (w * h)%Z -> length b' = length b ->
  (forall x y, (0 <= x < w)%Z -> (0 <= y < h)%Z ->
     rd b' (x + y * w) = rd b (x + y * w)) ->
  b' = b.
Proof.
  intros Hw Hh Hlen Hlen' Hcells. apply list_eq. intros n.
  destruct (decide (n < length b)%nat) as [Hn|Hn].
  - assert (0 < w)%Z as Hw' by nia.
    pose proof (Z.div_mod (Z.of_nat n) w ltac:(lia)) as Hdm.
    pose proof (Z.mod_pos_bound (Z.of_nat n) w Hw') as Hm.
    assert (0 <= Z.of_nat n / w)%Z as Hd0 by (apply Z.div_pos; lia).
    assert (Z.of_nat n / w < h)%Z as Hd1 by (apply Z.div_lt_upper_bound; lia).
    specialize (Hcells (Z.of_nat n mod w) (Z.of_nat n / w) Hm ltac:(lia))%Z.
    replace (Z.of_nat n `mod` w + Z.of_nat n `div` w * w)%Z with (Z.of_nat n)
      in Hcells by lia.
    unfold rd in Hcells. rewrite !decide_True in Hcells by lia.
    by rewrite Nat2Z.id in Hcells.
  - rewrite !lookup_ge_None_2 by lia. done.
Qed.

(** A pressure that solves the equation is left as it is by a Jacobi
    sweep, which measures no change. *)
Lemma project_jacobi_sweep_solved (scale : D) (s : FluidSolver.t D) :
  wf_pressure (FluidSolver._w s) (FluidSolver._h s) s ->
  pressure_solved scale s ->
  FluidSolver.project_jacobi_sweep scale s
    = Some (FluidSolver.set_p (FluidSolver.set_p2 s (FluidSolver._p s))
              (FluidSolver._p s), 0%:D).
Proof.
  intros Hwf Hsol.
  destruct (project_jacobi_sweep_run scale s Hwf)
    as (p & delta & Hrun & Hlen & Hcells & Hmax).
  destruct Hwf as (_ & _ & Hw & Hh & Hr & Hp & Hp2).
  assert (p = FluidSolver._p s) as ->.
  { apply (cells_eq (FluidSolver._w s) (FluidSolver._h s)); [done..|].
    intros x y Hx Hy.
    destruct (Hcells x y Hx Hy) as (newP & old & E1 & E2 & E3 & _).
    destruct (Hsol x y Hx Hy) as (pc & E4 & E5). congruence. }
  assert (delta = 0%:D) as ->; [|done].
  destruct Hmax as [->|(x & y & newP & old & Hx & Hy & E1 & E2 & ->)]; [done|].
  destruct (Hsol x y Hx Hy) as (pc & E4 & E5).
  assert (newP = pc) as -> by congruence. assert (old = pc) as -> by congruence.
  replace (pc - pc) with (0%:D : D) by ring. apply dfabs_0.
Qed.

End ExactProjection.

(** ** The backward trace in a uniform flow *)

Section UniformFlow.
Context {D : Type} `{ExactLaws D}.
Local Open Scope double_scope.

Add Ring double_ring_uniform : exact_ring.

(** Every bilinear sample of a field that holds [c] everywhere is [c]. *)
Lemma lerp_uniform (q : FluidQuantity.t D) (c x y : D) :
  samplable q -> uniform c (FluidQuantity._src q) ->
  FluidQuantity.lerp q x y = Some c.
Proof.
  intros ((_ & _ & Hlen & _) & Hw & Hh) Hc. unfold FluidQuantity.lerp. cbv zeta.
  pose proof (clamped_cell (FluidQuantity._w q) x (FluidQuantity._ox q) Hw) as Hx.
  pose proof (clamped_cell (FluidQuantity._h q) y (FluidQuantity._oy q) Hh) as Hy.
  cbv zeta in Hx, Hy.
  set (xc := dmin (dmax (x - _) _) _) in *.
  set (yc := dmin (dmax (y - _) _) _) in *.
  destruct (at_in_range _ q (to_int xc + 0) (to_int yc + 0) Hlen Hc)
    as (x00 & -> & ->); [lia..|].
  destruct (at_in_range _ q (to_int xc + 1) (to_int yc + 0) Hlen Hc)
    as (x10 & -> & ->); [lia..|].
  destruct (at_in_range _ q (to_int xc + 0) (to_int yc + 1) Hlen Hc)
    as (x01 & -> & ->); [lia..|].
  destruct (at_in_range _ q (to_int xc + 1) (to_int yc + 1) Hlen Hc)
    as (x11 & -> & ->); [lia..|].
  simpl. f_equal. unfold FluidQuantity.lerp_1d. ring.
Qed.

End UniformFlow.

(** ** The geometry of the fields *)

Section FieldGeometry.
Context {D : Type} `{Double D}.
Local Open Scope double_scope.

Lemma src_updated_geometry (q q' : FluidQuantity.t D) :
  src_updated q q' -> geometry q' = geometry q.
Proof. intros [-> _]. done. Qed.

Lemma advect_geometry (q u v q' : FluidQuantity.t D) (timestep : D) :
  FluidQuantity.advect q timestep u v = Some q' -> geometry q' = geometry q.
Proof.
  unfold FluidQuantity.advect. intros Ha.
  destruct (for_range 0 _ _ _) as [[i dst]|]; simpl in Ha; [|done].
  by injection Ha as <-.
Qed.

(** A step moves values, never the sample offsets or the cell size of a
    field. *)
Lemma update_geometry (timestep : D) (s s' : FluidSolver.t D) (rep : report D) :
  wf_solver s -> FluidSolver.update timestep s = Some (s', rep) ->
  solver_geometry s' = solver_geometry s.
Proof.
  intros Hwf (s1 & s2 & s3 & s4 & H1 & H2 & H3 & H4 & ->)%update_stages.
  destruct (buildRhs_wf _ _ Hwf H1) as [W1 _].
  destruct (solve_wf _ _ _ _ W1 H2) as [W2 _].
  destruct (buildRhs_total s Hwf) as (r & H1' & _).
  assert (s1 = FluidSolver.set_r s r) as E1 by congruence.
  apply solve_frame in H2.
  destruct (applyPressure_run timestep s2 W2) as (u & v & H3' & Su & Sv & _).
  assert (s3 = FluidSolver.set_duv s2 (FluidSolver._d s2) u v) as E3 by congruence.
  apply src_updated_geometry in Su, Sv.
  unfold FluidSolver.advect_all in H4.
  destruct (FluidQuantity.advect (FluidSolver._d s3) _ _ _) as [d4|] eqn:Hd;
    simpl in H4; [|done].
  destruct (FluidQuantity.advect (FluidSolver._u s3) _ _ _) as [u4|] eqn:Hu;
    simpl in H4; [|done].
  destruct (FluidQuantity.advect (FluidSolver._v s3) _ _ _) as [v4|] eqn:Hv;
    simpl in H4; [|done].
  injection H4 as <-.
  apply advect_geometry in Hd, Hu, Hv.
  unfold solver_geometry. simpl.
  change (geometry (FluidQuantity.flip d4)) with (geometry d4).
  change (geometry (FluidQuantity.flip u4)) with (geometry u4).
  change (geometry (FluidQuantity.flip v4)) with (geometry v4).
  rewrite Hd, Hu, Hv, E3. simpl. rewrite Su, Sv, H2. simpl. by rewrite E1.
Qed.

(** In [addInflow] the columns visited are bounded by [min(ix1, _h)]: when
    that bound does not exceed the width, every access is inside the
    buffer. *)
Lemma addInflow_total_cols (q : FluidQuantity.t D) (x0 y0 x1 y1 v : D) :
  wf_quantity q ->
  (Z.min (to_int (x1 / FluidQuantity._hx q - FluidQuantity._ox q)%D)
         (FluidQuantity._h q) <= FluidQuantity._w q)%Z ->
  exists q', FluidQuantity.addInflow q x0 y0 x1 y1 v = Some q'.
Proof.
  intros (Hw & Hh & Hlen & _) Hcols. unfold FluidQuantity.addInflow. cbv zeta.
  pose (P := fun s : list D => length s = length (FluidQuantity._src q)).
  match goal with |- context [for_range ?lo ?hi ?body ?s] =>
    destruct (for_range_succeeds P lo hi body s) as (s' & -> & _) end;
    [|done|simpl; eauto].
  intros y t Hy Ht.
  apply (for_range_succeeds P); [|done].
  intros x t1 Hx Ht1. unfold P in *. unfold FluidQuantity.addInflow_cell.
  assert (0 <= x + y * FluidQuantity._w q < Z.of_nat (length t1))%Z as Hidx.
  { rewrite Ht1, Hlen. apply cell_index_bounds; lia. }
  destruct (rd_is_Some t1 _ Hidx) as [cur ->]. simpl.
  match goal with |- context [if ?c then _ else _] => destruct c end.
  - match goal with |- context [wr t1 ?i ?vi] =>
      destruct (wr_is_Some t1 i vi Hidx) as [t2 Hwr] end.
    exists t2. split; [done|]. rewrite <- Ht1. by eapply wr_length.
  - by exists t1.
Qed.

(** [FluidSolver::addInflow] returns on a well-formed solver whose [_v]
    satisfies the column bound: the fields [_d] and [_u] are at least as
    wide as high. *)
Lemma solver_addInflow_total (s : FluidSolver.t D) (x y w h d u v : D) :
  wf_solver s -> (FluidSolver._h s <= FluidSolver._w s)%Z ->
  (to_int ((x + w) / FluidQuantity._hx (FluidSolver._v s)
           - FluidQuantity._ox (FluidSolver._v s))%D <= FluidSolver._w s)%Z ->
  exists s', FluidSolver.addInflow s x y w h d u v = Some s' /\
    wf_solver s' /\ solver_params s' = solver_params s /\
    solver_geometry s' = solver_geometry s.
Proof.
  intros Hwf Hhw Hcols.
  pose proof Hwf as (Wd & Wu & Wv & Edw & Edh & Euw & Euh & Evw & Evh & _).
  destruct (FluidSolver.addInflow s x y w h d u v) as [s'|] eqn:Hrun.
  - exists s'. split; [done|].
    destruct (addInflow_wf _ _ _ _ _ _ _ _ _ Hwf Hrun)
      as (W' & P' & Sd & Su & Sv & _).
    split; [done|]. split; [done|].
    apply src_updated_geometry in Sd, Su, Sv.
    unfold solver_geometry. by rewrite Sd, Su, Sv.
  - exfalso. unfold FluidSolver.addInflow in Hrun.
    destruct (addInflow_total (FluidSolver._d s) x y (x + w) (y + h) d Wd)
      as [qd Hd]; [lia|].
    destruct (addInflow_total (FluidSolver._u s) x y (x + w) (y + h) u Wu)
      as [qu Hu]; [lia|].
    destruct (addInflow_total_cols (FluidSolver._v s) x y (x + w) (y + h) v Wv)
      as [qv Hv]; [lia|].
    rewrite Hd, Hu, Hv in Hrun. done.
Qed.

End FieldGeometry.

(** ** The driver *)

Section DriverLoop.
Context {D : Type} `{ExactLaws D}.
Local Open Scope double_scope.

Add Ring double_ring_driver : exact_ring.

Lemma constructed_wf (garbage : Z -> D) (w h : Z) (density : D) :
  (0 <= w)%Z -> (0 <= h)%Z -> wf_solver (constructed garbage w h density).
Proof.
  intros Hw Hh. unfold wf_solver, wf_quantity, constructed. simpl.
  rewrite !length_replicate, !length_map, !length_seqZ. nia.
Qed.

Lemma same_layout_refl (s : FluidSolver.t D) : wf_solver s -> same_layout s s.
Proof. intros Hwf. split; [exact Hwf|]. split; reflexivity. Qed.

Lemma same_layout_dims (s0 s : FluidSolver.t D) :
  same_layout s0 s ->
  FluidSolver._w s = FluidSolver._w s0 /\ FluidSolver._h s = FluidSolver._h s0 /\
  geometry (FluidSolver._v s) = geometry (FluidSolver._v s0).
Proof.
  intros (_ & P & G). unfold solver_params in P. unfold solver_geometry in G.
  split; [congruence|]. split; congruence.
Qed.

(** One pass of the [for] loop of [main] on a solver laid out as a grid
    that is at least 2x2, not taller than wide, and on which the inflow
    rectangle ends at a column inside the grid. *)
Lemma main_substep_runs (s0 s : FluidSolver.t D) (timestep time : D) (i : Z)
    (out : list (output D)) :
  (2 <= FluidSolver._h s0 <= FluidSolver._w s0)%Z ->
  (to_int ((45%/100 + 15%/100) / FluidQuantity._hx (FluidSolver._v s0)
           - FluidQuantity._ox (FluidSolver._v s0))%D <= FluidSolver._w s0)%Z ->
  same_layout s0 s ->
  exists s' line,
    main_substep timestep i (s, time, out)
      = Some (s', time + timestep, out ++ [printed line]) /\
    same_layout s0 s'.
Proof.
  intros Hdims Hcols Hs. pose proof (same_layout_dims _ _ Hs) as (Ew & Eh & Eg).
  destruct Hs as (Hwf & P & G).
  assert (FluidQuantity._hx (FluidSolver._v s) = FluidQuantity._hx (FluidSolver._v s0)
          /\ FluidQuantity._ox (FluidSolver._v s) = FluidQuantity._ox (FluidSolver._v s0))
    as [Ehx Eox].
  { unfold geometry in Eg. split; congruence. }
  destruct (solver_addInflow_total s 45%/100 2%/10 15%/100 3%/100 1%:D 0%:D 3%:D Hwf)
    as (s1 & H1 & W1 & P1 & G1); [lia|rewrite Ehx, Eox, Ew; done|].
  destruct (update_runs timestep s1 W1) as (s2 & line & H2 & W2 & P2).
  { replace (FluidSolver._w s1) with (FluidSolver._w s); [lia|].
    unfold solver_params in P1. congruence. }
  { replace (FluidSolver._h s1) with (FluidSolver._h s); [lia|].
    unfold solver_params in P1. congruence. }
  pose proof (update_geometry _ _ _ _ W1 H2) as G2.
  exists s2, line. split.
  - unfold main_substep. rewrite H1. simpl. rewrite H2. done.
  - split; [done|]. split; congruence.
Qed.

Lemma main_substeps_run (s0 s : FluidSolver.t D) (timestep time : D)
    (out : list (output D)) :
  (2 <= FluidSolver._h s0 <= FluidSolver._w s0)%Z ->
  (to_int ((45%/100 + 15%/100) / FluidQuantity._hx (FluidSolver._v s0)
           - FluidQuantity._ox (FluidSolver._v s0))%D <= FluidSolver._w s0)%Z ->
  same_layout s0 s ->
  exists s' l1 l2 l3 l4,
    for_range 0 4 (main_substep timestep) (s, time, out)
      = Some (s', time + timestep + timestep + timestep + timestep,
              out ++ [printed l1; printed l2; printed l3; printed l4]) /\
    same_layout s0 s'.
Proof.
  intros Hdims Hcols Hs.
  destruct (main_substep_runs s0 s timestep time 0 out Hdims Hcols Hs)
    as (s1 & l1 & H1 & L1).
  destruct (main_substep_runs s0 s1 timestep (time + timestep) (0 + 1)
              (out ++ [printed l1]) Hdims Hcols L1) as (s2 & l2 & H2 & L2).
  destruct (main_substep_runs s0 s2 timestep (time + timestep + timestep)
              (0 + 1 + 1) ((out ++ [printed l1]) ++ [printed l2]) Hdims Hcols L2)
    as (s3 & l3 & H3 & L3).
  destruct (main_substep_runs s0 s3 timestep (time + timestep + timestep + timestep)
              (0 + 1 + 1 + 1)
              (((out ++ [printed l1]) ++ [printed l2]) ++ [printed l3]) Hdims Hcols L3)
    as (s4 & l4 & H4 & L4).
  exists s4, l1, l2, l3, l4. split; [|done].
  unfold for_range. change (Z.to_nat (4 - 0)) with 4%nat. cbn [for_loop].
  rewrite H1. cbn [mbind option_bind]. rewrite H2. cbn [mbind option_bind].
  rewrite H3. cbn [mbind option_bind]. rewrite H4. cbn [mbind option_bind].
  by rewrite <- !app_assoc.
Qed.

(** The clock in closed form. *)
Lemma main_clock_linear (timestep : D) (k : nat) :
  main_clock timestep k
    = (Z.of_nat k)%:D * (timestep + timestep + timestep + timestep).
Proof.
  induction k as [|k IH].
  - cbn [main_clock]. change (Z.of_nat 0) with 0%Z. ring.
  - cbn [main_clock]. rewrite IH.
    replace (Z.of_nat (S k)) with (Z.of_nat k + 1)%Z by lia.
    rewrite of_int_add. ring.
Qed.

(** The guard of the [while] loop after [k] passes, when [limit] passes
    bring the clock to 8.0 exactly. *)
Lemma main_guard (timestep : D) (limit : Z) (k : nat) :
  (0%:D <? timestep + timestep + timestep + timestep) = true ->
  limit%:D * (timestep + timestep + timestep + timestep) = 8%:D ->
  (main_clock timestep k <? 8%:D) = (Z.of_nat k <? limit)%Z.
Proof.
  intros Hpos <-. rewrite main_clock_linear, dlt_mul_pos by done. apply of_int_lt.
Qed.
End DriverLoop.

Section DriverFrames.
Context {D : Type} `{Double D}.
Local Open Scope double_scope.

(** [toImage] on an image of 4 bytes a cell: every pixel of the result is
    written by [toImage], none is left as allocated. *)
Lemma toImage_frame (s : FluidSolver.t D) (rgba : list Z) (path : string) :
  wf_solver s ->
  Z.of_nat (length rgba) = (4 * (FluidSolver._w s * FluidSolver._h s))%Z ->
  exists rgba',
    FluidSolver.toImage s rgba = Some rgba' /\
    frame_ok (FluidSolver._w s) (FluidSolver._h s)
      (path, rgba', FluidSolver._w s, FluidSolver._h s).
Proof.
  intros Hwf Hlen.
  destruct (toImage_run s rgba Hwf) as (rgba' & Hrun & Hl & Hpix & _); [lia|].
  exists rgba'. split; [done|]. unfold frame_ok.
  split; [done|]. split; [done|]. split; [lia|].
  intros i Hi. destruct (Hpix i Hi) as (d & _ & E0 & E1 & E2 & E3).
  exists (FluidSolver.toImage_shade d). split; [apply toImage_shade_range|done].
Qed.

Lemma encoded_files_printed (out : list (output D)) (lines : list (report D)) :
  encoded_files (out ++ (printed <$> lines)) = encoded_files out.
Proof.
  unfold encoded_files. rewrite omap_app.
  replace (omap _ (printed <$> lines)) with (@nil (string * list Z * Z * Z)).
  - apply app_nil_r.
  - induction lines as [|l lines IH]; [done|]. simpl. apply IH.
Qed.

Lemma printed_lines_printed (out : list (output D)) (lines : list (report D)) :
  printed_lines (out ++ (printed <$> lines)) = printed_lines out ++ lines.
Proof.
  unfold printed_lines. rewrite omap_app. f_equal.
  induction lines as [|l lines IH]; [done|]. simpl. f_equal. apply IH.
Qed.

Lemma encoded_files_encoded (out : list (output D)) (path : string)
    (image : list Z) (w h : Z) :
  encoded_files (out ++ [encoded path image w h])
    = encoded_files out ++ [(path, image, w, h)].
Proof. unfold encoded_files. by rewrite omap_app. Qed.

Lemma printed_lines_encoded (out : list (output D)) (path : string)
    (image : list Z) (w h : Z) :
  printed_lines (out ++ [encoded path image w h]) = printed_lines out.
Proof. unfold printed_lines. rewrite omap_app. apply app_nil_r. Qed.
End DriverFrames.

Section DriverWhile.
Context {D : Type} `{ExactLaws D}.
Local Open Scope double_scope.

(** The [while] loop of [main] from pass [k] on, when the guard holds
    exactly for the passes below [limit]: with fuel for the passes left and
    the final test, it returns, having written one frame a pass and printed
    four lines a pass. *)
Lemma main_while_runs (s0 : FluidSolver.t D) (timestep : D) (limit : nat) :
  (2 <= FluidSolver._h s0 <= FluidSolver._w s0)%Z ->
  (to_int ((45%/100 + 15%/100) / FluidQuantity._hx (FluidSolver._v s0)
           - FluidQuantity._ox (FluidSolver._v s0))%D <= FluidSolver._w s0)%Z ->
  (forall k, (main_clock timestep k <? 8%:D) = (Z.of_nat k <? Z.of_nat limit)%Z) ->
  forall (n fuel k : nat) (s : FluidSolver.t D) (image : list Z)
         (out : list (output D)),
    (k + n = limit)%nat -> (n < fuel)%nat -> same_layout s0 s ->
    Z.of_nat (length image) = (4 * (FluidSolver._w s0 * FluidSolver._h s0))%Z ->
    exists out',
      main_while fuel (FluidSolver._w s0) (FluidSolver._h s0) timestep s
        (main_clock timestep k) (Z.of_nat k) image out = Some out' /\
      encoded_paths out'
        = encoded_paths out ++ (frame_path <$> seqZ (Z.of_nat k) (Z.of_nat n)) /\
      (Forall (frame_ok (FluidSolver._w s0) (FluidSolver._h s0)) (encoded_files out) ->
       Forall (frame_ok (FluidSolver._w s0) (FluidSolver._h s0)) (encoded_files out')) /\
      length (printed_lines out') = (length (printed_lines out) + 4 * n)%nat.
Proof.
  intros Hdims Hcols Hguard n.
  induction n as [|n IH]; intros fuel k s image out Hk Hfuel Hs Himage;
    (destruct fuel as [|fuel]; [lia|]); cbn [main_while]; rewrite Hguard.
  - rewrite (proj2 (Z.ltb_ge _ _)) by lia. exists out. split; [done|].
    split; [by rewrite app_nil_r|]. split; [done|lia].
  - rewrite (proj2 (Z.ltb_lt _ _)) by lia.
    destruct (main_substeps_run s0 s timestep (main_clock timestep k) out
                Hdims Hcols Hs) as (s' & l1 & l2 & l3 & l4 & -> & Hs').
    cbn [mbind option_bind].
    pose proof (same_layout_dims _ _ Hs') as (Ew & Eh & _).
    destruct (toImage_frame s' image (frame_path (Z.of_nat k)) (proj1 Hs'))
      as (image' & -> & Hframe); [by rewrite Ew, Eh|].
    cbn [mbind option_bind]. rewrite Ew, Eh in Hframe.
    change (main_clock timestep k + timestep + timestep + timestep + timestep)
      with (main_clock timestep (S k)).
    replace (Z.of_nat k + 1)%Z with (Z.of_nat (S k)) by lia.
    pose proof Hframe as (_ & _ & Himage' & _).
    destruct (IH fuel (S k) s' image'
                ((out ++ [printed l1; printed l2; printed l3; printed l4])
                 ++ [encoded (frame_path (Z.of_nat k)) image'
                       (FluidSolver._w s0) (FluidSolver._h s0)]))
      as (out' & Hrun & Hpaths & Hframes & Hlines); [lia|lia|done|done|].
    exists out'. split; [done|].
    change [printed l1; printed l2; printed l3; printed l4]
      with (printed <$> [l1; l2; l3; l4]) in *.
    unfold encoded_paths in *.
    rewrite encoded_files_encoded, encoded_files_printed in Hpaths, Hframes.
    rewrite printed_lines_encoded, printed_lines_printed in Hlines.
    split; [|split].
    + rewrite Hpaths, fmap_app, <- app_assoc. f_equal.
      rewrite (seqZ_cons (Z.of_nat k) (Z.of_nat (S n))) by lia.
      simpl. do 3 f_equal; lia.
    + intros Hout. apply Hframes. apply Forall_app. split; [done|].
      by apply Forall_singleton.
    + rewrite Hlines, length_app. simpl. lia.
Qed.
End DriverWhile.

(** ** Instances of the further properties *)

Section FurtherInstances.
Local Open Scope double_scope.

Lemma inflow_state_next_wf : wf_solver inflow_state_next.1.
Proof. unfold wf_solver, wf_quantity. simpl. lia. Qed.

Lemma fresh_solver_wf : wf_solver fresh_solver.
Proof. unfold wf_solver, wf_quantity. simpl. lia. Qed.

Lemma wide_solver_wf : wf_solver wide_solver.
Proof. unfold wf_solver, wf_quantity. simpl. lia. Qed.

Lemma still_water_wf : wf_solver still_water.
Proof. unfold wf_solver, wf_quantity. simpl. lia. Qed.

Lemma still_water_at_rest : at_rest 1%/2 still_water.
Proof. unfold at_rest, uniform. simpl. repeat split; repeat constructor. Qed.

Lemma still_u_samplable : samplable (FluidSolver._u still_water).
Proof. unfold samplable, wf_quantity. simpl. lia. Qed.

Lemma still_v_samplable : samplable (FluidSolver._v still_water).
Proof. unfold samplable, wf_quantity. simpl. lia. Qed.

Lemma swirl_wf : wf_solver swirl.
Proof. unfold wf_solver, wf_quantity. simpl. lia. Qed.

Lemma swirl_buildRhs : FluidSolver.buildRhs swirl = Some swirl_rhs.
Proof. vm_compute. reflexivity. Qed.

Lemma swirl_walls : boundary_faces_zero swirl.
Proof.
  split.
  - intros y Hy. simpl in Hy.
    assert (y = 0 \/ y = 1)%Z as [-> | ->] by lia; split; vm_compute; reflexivity.
  - intros x Hx. simpl in Hx.
    assert (x = 0 \/ x = 1)%Z as [-> | ->] by lia; split; vm_compute; reflexivity.
Qed.

(** Two rationals with the same fraction are equal. *)
Lemma Qc_option_eq (o : option Qc) (q : Qc) :
  this <$> o = Some (this q) -> o = Some q.
Proof.
  destruct o as [q'|]; simpl; [|done]. intros [= Hq]. f_equal.
  apply Qc_is_canon. by rewrite Hq.
Qed.

Lemma swirl_solved (s1 : FluidSolver.t Qc) :
  FluidSolver.buildRhs swirl = Some s1 ->
  pressure_solved
    ((1%:D : Qc) / (FluidSolver._density swirl * FluidSolver._hx swirl
                    * FluidSolver._hx swirl)) s1.
Proof.
  rewrite swirl_buildRhs. intros [= <-] x y Hx Hy. simpl in Hx, Hy.
  assert (x = 0 \/ x = 1)%Z as [-> | ->] by lia;
    assert (y = 0 \/ y = 1)%Z as [-> | ->] by lia;
    eexists; (split; [vm_compute; reflexivity|]);
    apply Qc_option_eq; vm_compute; reflexivity.
Qed.

Lemma buildRhs_divergence_witness :
  (wf_solver inflow_state) /\
  (exists r,
       FluidSolver.buildRhs inflow_state = Some (FluidSolver.set_r inflow_state r) /\
       length r = length (FluidSolver._r inflow_state) /\
       forall x y, (0 <= x < FluidSolver._w inflow_state)%Z -> (0 <= y < FluidSolver._h inflow_state)%Z ->
         exists u1 u0 v1 v0,
           FluidQuantity.at_ (FluidSolver._u inflow_state) (x + 1) y = Some u1 /\
           FluidQuantity.at_ (FluidSolver._u inflow_state) x y = Some u0 /\
           FluidQuantity.at_ (FluidSolver._v inflow_state) x (y + 1) = Some v1 /\
           FluidQuantity.at_ (FluidSolver._v inflow_state) x y = Some v0 /\
           rd r (x + y * FluidSolver._w inflow_state) =
             Some (- (1%:D / FluidSolver._hx inflow_state) * (u1 - u0 + v1 - v0))).
Proof.
  assert (wf_solver inflow_state) as Hyp1
    by (exact inflow_state_wf).
  split; [exact (Hyp1)|].
  exact (buildRhs_divergence inflow_state Hyp1).
Defined.

Lemma project_jacobi_sweep_cells_witness :
  (wf_pressure (FluidSolver._w vortex) (FluidSolver._h vortex) vortex) /\
  (exists p delta,
       FluidSolver.project_jacobi_sweep 1%:D vortex
         = Some (FluidSolver.set_p (FluidSolver.set_p2 vortex p) p, delta) /\
       length p = length (FluidSolver._p vortex) /\
       (forall x y, (0 <= x < FluidSolver._w vortex)%Z -> (0 <= y < FluidSolver._h vortex)%Z ->
          exists newP old,
            FluidSolver.newP_cell vortex 1%:D (FluidSolver._p vortex) x y = Some newP /\
            rd (FluidSolver._p vortex) (x + y * FluidSolver._w vortex) = Some old /\
            rd p (x + y * FluidSolver._w vortex) = Some newP /\
            dle (dfabs (old - newP)) delta) /\
       (delta = 0%:D \/
        exists x y newP old,
          (0 <= x < FluidSolver._w vortex)%Z /\ (0 <= y < FluidSolver._h vortex)%Z /\
          FluidSolver.newP_cell vortex 1%:D (FluidSolver._p vortex) x y = Some newP /\
          rd (FluidSolver._p vortex) (x + y * FluidSolver._w vortex) = Some old /\
          delta = dfabs (old - newP))).
Proof.
  assert (wf_pressure (FluidSolver._w vortex) (FluidSolver._h vortex) vortex) as Hyp1
    by (exact (wf_solver_pressure vortex vortex_wf)).
  split; [exact (Hyp1)|].
  exact (project_jacobi_sweep_cells 1%:D vortex Hyp1).
Defined.

Lemma project_sweep_cells_witness :
  (wf_pressure (FluidSolver._w vortex) (FluidSolver._h vortex) vortex) /\
  (exists p delta,
       FluidSolver.project_sweep 1%:D vortex = Some (FluidSolver.set_p vortex p, delta) /\
       length p = length (FluidSolver._p vortex) /\
       forall x y, (0 <= x < FluidSolver._w vortex)%Z -> (0 <= y < FluidSolver._h vortex)%Z ->
         let i := (x + y * FluidSolver._w vortex)%Z in
         exists newP old,
           FluidSolver.newP_cell vortex 1%:D (seen_by i p (FluidSolver._p vortex)) x y = Some newP /\
           rd (FluidSolver._p vortex) i = Some old /\
           rd p i = Some newP /\
           dle (dfabs (old - newP)) delta).
Proof.
  assert (wf_pressure (FluidSolver._w vortex) (FluidSolver._h vortex) vortex) as Hyp1
    by (exact (wf_solver_pressure vortex vortex_wf)).
  split; [exact (Hyp1)|].
  exact (project_sweep_cells 1%:D vortex Hyp1).
Defined.

Lemma applyPressure_gradient_witness :
  (wf_solver inflow_state_next.1) /\
  (let scale := 1%/100 / (FluidSolver._density inflow_state_next.1 * FluidSolver._hx inflow_state_next.1) in
     exists u v,
       FluidSolver.applyPressure 1%/100 inflow_state_next.1
         = Some (FluidSolver.set_duv inflow_state_next.1 (FluidSolver._d inflow_state_next.1) u v) /\
       src_updated (FluidSolver._u inflow_state_next.1) u /\ src_updated (FluidSolver._v inflow_state_next.1) v /\
       (forall x y, (0 < x < FluidSolver._w inflow_state_next.1)%Z -> (0 <= y < FluidSolver._h inflow_state_next.1)%Z ->
          exists u0 pl pr,
            FluidQuantity.at_ (FluidSolver._u inflow_state_next.1) x y = Some u0 /\
            rd (FluidSolver._p inflow_state_next.1) (x - 1 + y * FluidSolver._w inflow_state_next.1) = Some pl /\
            rd (FluidSolver._p inflow_state_next.1) (x + y * FluidSolver._w inflow_state_next.1) = Some pr /\
            FluidQuantity.at_ u x y = Some (u0 + scale * pl - scale * pr)) /\
       (forall x y, (0 <= x < FluidSolver._w inflow_state_next.1)%Z -> (0 < y < FluidSolver._h inflow_state_next.1)%Z ->
          exists v0 pb pa,
            FluidQuantity.at_ (FluidSolver._v inflow_state_next.1) x y = Some v0 /\
            rd (FluidSolver._p inflow_state_next.1) (x + (y - 1) * FluidSolver._w inflow_state_next.1) = Some pb /\
            rd (FluidSolver._p inflow_state_next.1) (x + y * FluidSolver._w inflow_state_next.1) = Some pa /\
            FluidQuantity.at_ v x y = Some (v0 + scale * pb - scale * pa)) /\
       (forall y, (0 <= y < FluidSolver._h inflow_state_next.1)%Z ->
          FluidQuantity.at_ u 0 y = Some 0%:D /\
          FluidQuantity.at_ u (FluidSolver._w inflow_state_next.1) y = Some 0%:D) /\
       (forall x, (0 <= x < FluidSolver._w inflow_state_next.1)%Z ->
          FluidQuantity.at_ v x 0 = Some 0%:D /\
          FluidQuantity.at_ v x (FluidSolver._h inflow_state_next.1) = Some 0%:D)).
Proof.
  assert (wf_solver inflow_state_next.1) as Hyp1
    by (exact inflow_state_next_wf).
  split; [exact (Hyp1)|].
  exact (applyPressure_gradient 1%/100 inflow_state_next.1 Hyp1).
Defined.

Lemma update_preserves_wf_witness :
  (wf_solver inflow_state /\
   FluidSolver.update 1%/100 inflow_state = Some (inflow_state_next.1, inflow_state_next.2)) /\
  (wf_solver inflow_state_next.1 /\ solver_params inflow_state_next.1 = solver_params inflow_state).
Proof.
  assert (wf_solver inflow_state) as Hyp1
    by (exact inflow_state_wf).
  assert (FluidSolver.update 1%/100 inflow_state = Some (inflow_state_next.1, inflow_state_next.2)) as Hyp2
    by (vm_compute; reflexivity).
  split; [exact (conj Hyp1 (Hyp2))|].
  exact (update_preserves_wf 1%/100 inflow_state inflow_state_next.1 inflow_state_next.2 Hyp1 Hyp2).
Defined.

Lemma addInflow_preserves_wf_witness :
  (wf_solver fresh_solver /\
   FluidSolver.addInflow fresh_solver 0%:D 0%:D 1%:D 1%:D 1%:D 1%:D 1%:D = Some inflow_state) /\
  (wf_solver inflow_state /\ solver_params inflow_state = solver_params fresh_solver /\
     src_updated (FluidSolver._d fresh_solver) (FluidSolver._d inflow_state) /\
     src_updated (FluidSolver._u fresh_solver) (FluidSolver._u inflow_state) /\
     src_updated (FluidSolver._v fresh_solver) (FluidSolver._v inflow_state) /\
     FluidSolver._r inflow_state = FluidSolver._r fresh_solver /\ FluidSolver._p inflow_state = FluidSolver._p fresh_solver /\
     FluidSolver._p2 inflow_state = FluidSolver._p2 fresh_solver).
Proof.
  assert (wf_solver fresh_solver) as Hyp1
    by (exact fresh_solver_wf).
  assert (FluidSolver.addInflow fresh_solver 0%:D 0%:D 1%:D 1%:D 1%:D 1%:D 1%:D = Some inflow_state) as Hyp2
    by (vm_compute; reflexivity).
  split; [exact (conj Hyp1 (Hyp2))|].
  exact (addInflow_preserves_wf fresh_solver inflow_state 0%:D 0%:D 1%:D 1%:D 1%:D 1%:D 1%:D Hyp1 Hyp2).
Defined.


Lemma addInflow_inside_witness :
  (wf_solver wide_solver /\
   (FluidSolver._h wide_solver < FluidSolver._w wide_solver)%Z) /\
  (exists s', FluidSolver.addInflow wide_solver 0%:D 0%:D 1%:D 1%:D 1%:D 1%:D 1%:D = Some s').
Proof.
  assert (wf_solver wide_solver) as Hyp1
    by (exact wide_solver_wf).
  assert ((FluidSolver._h wide_solver < FluidSolver._w wide_solver)%Z) as Hyp2
    by (simpl; lia).
  split; [exact (conj Hyp1 (Hyp2))|].
  exact (addInflow_inside wide_solver 0%:D 0%:D 1%:D 1%:D 1%:D 1%:D 1%:D Hyp1 Hyp2).
Defined.

Lemma addInflow_writes_witness :
  (FluidQuantity.addInflow inflow_d 0%:D 0%:D 1%:D 1%:D 1%:D = Some inflow_d') /\
  (src_updated inflow_d inflow_d' /\
     forall i, rd (FluidQuantity._src inflow_d') i = rd (FluidQuantity._src inflow_d) i \/
       exists x y, inflow_visits inflow_d 0%:D 0%:D 1%:D 1%:D x y /\
         i = (x + y * FluidQuantity._w inflow_d)%Z /\
         rd (FluidQuantity._src inflow_d') i = Some (inflow_value inflow_d 0%:D 0%:D 1%:D 1%:D 1%:D x y)).
Proof.
  assert (FluidQuantity.addInflow inflow_d 0%:D 0%:D 1%:D 1%:D 1%:D = Some inflow_d') as Hyp1
    by (vm_compute; reflexivity).
  split; [exact (Hyp1)|].
  exact (addInflow_writes inflow_d inflow_d' 0%:D 0%:D 1%:D 1%:D 1%:D Hyp1).
Defined.

Lemma toImage_pixels_witness :
  (wf_solver inflow_state) /\
  (let n := (FluidSolver._w inflow_state * FluidSolver._h inflow_state)%Z in
     ((4 * n <= Z.of_nat (length blank_image))%Z ->
      exists rgba',
        FluidSolver.toImage inflow_state blank_image = Some rgba' /\ length rgba' = length blank_image /\
        (forall i, (0 <= i < n)%Z ->
           exists d g, rd (FluidQuantity._src (FluidSolver._d inflow_state)) i = Some d /\
             g = FluidSolver.toImage_shade d /\ (0 <= g <= 255)%Z /\
             rd rgba' (i * 4) = Some g /\ rd rgba' (i * 4 + 1) = Some g /\
             rd rgba' (i * 4 + 2) = Some g /\ rd rgba' (i * 4 + 3) = Some 255%Z) /\
        (forall j, (4 * n <= j)%Z -> rd rgba' j = rd blank_image j)) /\
     ((Z.of_nat (length blank_image) < 4 * n)%Z -> FluidSolver.toImage inflow_state blank_image = None)).
Proof.
  assert (wf_solver inflow_state) as Hyp1
    by (exact inflow_state_wf).
  split; [exact (Hyp1)|].
  exact (toImage_pixels inflow_state blank_image Hyp1).
Defined.



Lemma cerp_at_grid_point_witness :
  (samplable (sample_grid (D:=Qc)) /\
   (0 <= 0 <= FluidQuantity._w (sample_grid (D:=Qc)) - 2)%Z /\
   (0 <= 0 <= FluidQuantity._h (sample_grid (D:=Qc)) - 2)%Z) /\
  (exists v, FluidQuantity.at_ (sample_grid (D:=Qc)) 0 0 = Some v /\
       FluidQuantity.cerp (sample_grid (D:=Qc)) (0%:D + FluidQuantity._ox (sample_grid (D:=Qc))) (0%:D + FluidQuantity._oy (sample_grid (D:=Qc)))
         = Some v).
Proof.
  assert (samplable (sample_grid (D:=Qc))) as Hyp1
    by (exact sample_grid_samplable).
  assert ((0 <= 0 <= FluidQuantity._w (sample_grid (D:=Qc)) - 2)%Z) as Hyp2
    by (simpl; lia).
  assert ((0 <= 0 <= FluidQuantity._h (sample_grid (D:=Qc)) - 2)%Z) as Hyp3
    by (simpl; lia).
  split; [exact (conj Hyp1 (conj Hyp2 (Hyp3)))|].
  exact (cerp_at_grid_point (sample_grid (D:=Qc)) 0 0 Hyp1 Hyp2 Hyp3).
Defined.

Lemma advect_zero_velocity_witness :
  (samplable (sample_grid (D:=Qc)) /\
   samplable (FluidSolver._u still_water) /\
   samplable (FluidSolver._v still_water) /\
   Forall (fun c => c = 0%:D) (FluidQuantity._src (FluidSolver._u still_water)) /\
   Forall (fun c => c = 0%:D) (FluidQuantity._src (FluidSolver._v still_water))) /\
  (exists q',
       FluidQuantity.advect (sample_grid (D:=Qc)) 1%/10 (FluidSolver._u still_water) (FluidSolver._v still_water) = Some q' /\
       FluidQuantity._src q' = FluidQuantity._src (sample_grid (D:=Qc)) /\
       forall ix iy, (0 <= ix <= FluidQuantity._w (sample_grid (D:=Qc)) - 2)%Z ->
         (0 <= iy <= FluidQuantity._h (sample_grid (D:=Qc)) - 2)%Z ->
         exists c, FluidQuantity.at_ (sample_grid (D:=Qc)) ix iy = Some c /\
           rd (FluidQuantity._dst q') (ix + iy * FluidQuantity._w (sample_grid (D:=Qc))) = Some c).
Proof.
  assert (samplable (sample_grid (D:=Qc))) as Hyp1
    by (exact sample_grid_samplable).
  assert (samplable (FluidSolver._u still_water)) as Hyp2
    by (exact still_u_samplable).
  assert (samplable (FluidSolver._v still_water)) as Hyp3
    by (exact still_v_samplable).
  assert (Forall (fun c => c = 0%:D) (FluidQuantity._src (FluidSolver._u still_water))) as Hyp4
    by (repeat constructor).
  assert (Forall (fun c => c = 0%:D) (FluidQuantity._src (FluidSolver._v still_water))) as Hyp5
    by (repeat constructor).
  split; [exact (conj Hyp1 (conj Hyp2 (conj Hyp3 (conj Hyp4 (Hyp5)))))|].
  exact (advect_zero_velocity (sample_grid (D:=Qc)) (FluidSolver._u still_water) (FluidSolver._v still_water) 1%/10 Hyp1 Hyp2 Hyp3 Hyp4 Hyp5).
Defined.


Lemma cubicPulse_range_witness :
  ((forall x : Qc, dle 0%:D (Fluid.cubicPulse x) /\ dle (Fluid.cubicPulse x) 1%:D) /\
     Fluid.cubicPulse (0%:D : Qc) = 1%:D /\
     (forall x : Qc, dle x (- 1%:D) \/ dle 1%:D x -> Fluid.cubicPulse x = 0%:D)).
Proof.
  exact (cubicPulse_range (D:=Qc)).
Defined.

Lemma addInflow_bounded_witness :
  (FluidQuantity.addInflow inflow_d 0%:D 0%:D 1%:D 1%:D 1%:D = Some inflow_d') /\
  (forall i after, rd (FluidQuantity._src inflow_d') i = Some after ->
       rd (FluidQuantity._src inflow_d) i = Some after \/ dle (dfabs after) (dfabs 1%:D)).
Proof.
  assert (FluidQuantity.addInflow inflow_d 0%:D 0%:D 1%:D 1%:D 1%:D = Some inflow_d') as Hyp1
    by (vm_compute; reflexivity).
  split; [exact (Hyp1)|].
  exact (addInflow_bounded inflow_d inflow_d' 0%:D 0%:D 1%:D 1%:D 1%:D Hyp1).
Defined.



(** The image [toImage] produces after the step of [inflow_state_next]:
    cell 0, of density 0.2071..., has the grey level 202; the other cells
    hold a density between 0 and 2^-12 and have the grey level 254, not
    255: the cast truncates (1 - d)*255. *)
Lemma toImage_example :
  FluidSolver.toImage inflow_state_next.1 blank_image = Some inflow_image /\
  inflow_image = [202; 202; 202; 255; 254; 254; 254; 255;
                  254; 254; 254; 255; 254; 254; 254; 255]%Z /\
  Forall (fun d => (0 <? d)%float && (d <? 0x1p-12)%float = true)
    (drop 1 (FluidQuantity._src (FluidSolver._d inflow_state_next.1))).
Proof.
  split; [vm_compute; reflexivity|]. split; [vm_compute; reflexivity|].
  repeat constructor.
Qed.

(** With 15 bytes for the same grid [toImage] writes past the end. *)
Lemma toImage_short_example :
  FluidSolver.toImage inflow_state (replicate 15 0%Z) = None.
Proof. vm_compute. reflexivity. Qed.

(** What the projection makes of [swirl]: the gradient is removed and the
    circulation of [vortex] is left. *)
Lemma swirl_projected :
  (s3 ← FluidSolver.applyPressure 1%:D swirl;
   Some (fracs (FluidQuantity._src (FluidSolver._u s3)),
         fracs (FluidQuantity._src (FluidSolver._v s3))))
  = Some ([0; 1; 0; 0; -1; 0]%Q, [0; 0; -1; 1; 0; 0]%Q) /\
  fracs (FluidQuantity._src (FluidSolver._u vortex)) = [0; 1; 0; 0; -1; 0]%Q /\
  fracs (FluidQuantity._src (FluidSolver._v vortex)) = [0; 0; -1; 1; 0; 0]%Q.
Proof. repeat split; vm_compute; reflexivity. Qed.

End FurtherInstances.

(** ** The run of [main] with exact numbers *)

Section DriverExact.
Local Open Scope double_scope.

(** With exact numbers four time steps of 0.005 are positive and 400 times
    four of them are 8.0. *)
Lemma main_timestep_exact :
  (0%:D <? (5%/1000 + 5%/1000 + 5%/1000 + 5%/1000 : Qc)) = true /\
  400%:D * (5%/1000 + 5%/1000 + 5%/1000 + 5%/1000 : Qc) = 8%:D.
Proof.
  split; [by vm_compute|]. apply Qc_is_canon. by vm_compute.
Qed.

(** With exact numbers the inflow rectangle of [main] ends at column 76 of
    the 128 columns of [_v]. *)
Lemma main_inflow_columns :
  to_int ((45%/100 + 15%/100) / (1%:D / 128%:D) - (1%/2 : Qc)) = 76%Z.
Proof. by vm_compute. Qed.

(** Binding a value that is there. *)
Lemma option_bind_Some {A B : Type} (f : A -> option B) (x : A) :
  Some x ≫= f = f x.
Proof. reflexivity. Qed.

Lemma new_uchar_spec (garbage : Z -> Z) (n : Z) :
  (0 <= n)%Z ->
  exists image, new_uchar garbage n = Some image /\ Z.of_nat (length image) = n.
Proof.
  intros Hn. unfold new_uchar. rewrite decide_True by done.
  eexists. split; [done|]. rewrite length_map, length_seqZ. lia.
Qed.

(** The loop of [main] on the solver the constructor builds. *)
Lemma main_while_exact (garbage : Z -> Qc) (image : list Z) (fuel : nat) :
  (400 < fuel)%nat -> Z.of_nat (length image) = (128 * 128 * 4)%Z ->
  exists out,
    main_while fuel 128 128 5%/1000 (constructed garbage 128 128 1%/10)
      0%:D 0 image [] = Some out /\
    encoded_paths out = frame_path <$> seqZ 0 400 /\
    Forall (frame_ok 128 128) (encoded_files out) /\
    length (printed_lines out) = 1600%nat.
Proof.
  intros Hfuel Himage.
  set (s0 := constructed garbage 128 128 1%/10).
  destruct main_timestep_exact as [Hpos H8].
  destruct (main_while_runs s0 5%/1000 400) with
    (n := 400%nat) (fuel := fuel) (k := 0%nat) (s := s0) (image := image)
    (out := @nil (output Qc))
    as (out & Hrun & Hpaths & Hframes & Hlines).
  - change (FluidSolver._h s0) with 128%Z. change (FluidSolver._w s0) with 128%Z. lia.
  - change (FluidQuantity._hx (FluidSolver._v s0)) with (1%:D / 128%:D : Qc).
    change (FluidQuantity._ox (FluidSolver._v s0)) with (1%/2 : Qc).
    change (FluidSolver._w s0) with 128%Z.
    apply (Z.le_trans _ 76); [|lia]. apply Z.eq_le_incl.
    exact main_inflow_columns.
  - intros k. by apply main_guard.
  - done.
  - done.
  - apply same_layout_refl. apply constructed_wf; lia.
  - change (FluidSolver._h s0) with 128%Z. change (FluidSolver._w s0) with 128%Z. lia.
  - exists out. split; [exact Hrun|]. split; [|split].
    + rewrite Hpaths. apply app_nil_l.
    + apply Hframes. apply Forall_nil_2.
    + rewrite Hlines. reflexivity.
Qed.


(** The names of the first and of the last file. *)
Lemma frame_path_example :
  frame_path 0 = "Frame00000.png" /\ frame_path 399 = "Frame00399.png".
Proof. by vm_compute. Qed.

(** With binary64 the clock is 7.9999999999998543 after 400 passes, below
    8.0, and above it one pass later: the sums of the rounded 0.005 do not
    meet 8.0, and a run that gets that far makes a 401st pass. *)
Lemma main_clock_binary64 :
  (main_clock (5%/1000 : float) 400 <? 8%:D) = true /\
  (main_clock (5%/1000 : float) 401 <? 8%:D) = false.
Proof. by vm_compute. Qed.

End DriverExact.
